(** * A shallow embedding of the chat markdown renderer

    The renderer lives in [parseMarkdown] and [parseTable] of the chat
    front end.  Both work on JavaScript strings with [split], [trim],
    [String.prototype.replace] and regular expressions.  Here a string is
    the list of its UTF-16 code units, every regular expression of the
    source is written out as the matcher it denotes, and
    [String.prototype.replace] is one scanning function shared by all of
    them. *)

From Stdlib Require Import Ascii String DecimalString DecimalNat.
From Stdlib Require Import List NArith Arith Bool Lia.
Import ListNotations.
Local Open Scope list_scope.

(** ** Strings *)

(** A code unit and a JavaScript string: a number and a list of numbers. *)
Abbreviation char := N (only parsing).
Abbreviation str := (list N) (only parsing).

Definition char_eqb (a b : char) : bool := N.eqb a b.

(** The code units of an ASCII literal. *)
Definition lit (s : string) : str :=
  map N_of_ascii (list_ascii_of_string s).

(** Characters that cannot be written inside a literal here. *)
Definition nl : char := 10%N.   (* \n *)
Definition cr : char := 13%N.   (* \r *)
Definition dq : char := 34%N.   (* the double quote *)
Definition dollar : char := 36%N.
Definition pipe : char := 124%N.

(** [js] reads a literal the way a JavaScript source text does for the two
    escapes the examples need: backslash-n is a line feed and backslash-r a
    carriage return. *)
Fixpoint js_unescape (l : list ascii) : str :=
  match l with
  | [] => []
  | a :: t =>
      match N_of_ascii a, t with
      | 92%N, b :: t' =>
          match N_of_ascii b with
          | 110%N => nl :: js_unescape t'
          | 114%N => cr :: js_unescape t'
          | _ => N_of_ascii a :: js_unescape t
          end
      | _, _ => N_of_ascii a :: js_unescape t
      end
  end.

Definition js (s : string) : str := js_unescape (list_ascii_of_string s).

(** ECMAScript [LineTerminator]: LF, CR, LS, PS. *)
Definition is_line_terminator (c : char) : bool :=
  (N.eqb c 10 || N.eqb c 13 || N.eqb c 8232 || N.eqb c 8233)%N.

(** ECMAScript [WhiteSpace] together with [LineTerminator]: what the class
    [\s] matches and what [trim] removes. *)
Definition is_space (c : char) : bool :=
  (N.eqb c 9 || N.eqb c 10 || N.eqb c 11 || N.eqb c 12 || N.eqb c 13
   || N.eqb c 32 || N.eqb c 160 || N.eqb c 5760
   || (N.leb 8192 c && N.leb c 8202)
   || N.eqb c 8232 || N.eqb c 8233 || N.eqb c 8239 || N.eqb c 8287
   || N.eqb c 12288 || N.eqb c 65279)%N.

(** The class [\d]. *)
Definition is_digit (c : char) : bool := (N.leb 48 c && N.leb c 57)%N.

(** [s.startsWith(p)], returning what follows the prefix. *)
Fixpoint strip_prefix (p s : str) : option str :=
  match p with
  | [] => Some s
  | a :: p' =>
      match s with
      | [] => None
      | b :: s' => if char_eqb a b then strip_prefix p' s' else None
      end
  end.

(** The first occurrence of [p] in [s]: the text before it and the text
    after it. *)
Fixpoint find_first (p s : str) : option (str * str) :=
  match strip_prefix p s with
  | Some r => Some ([], r)
  | None =>
      match s with
      | [] => None
      | c :: t =>
          match find_first p t with
          | Some (b, a) => Some (c :: b, a)
          | None => None
          end
      end
  end.

(** The longest prefix whose code units satisfy [f], and the rest. *)
Fixpoint span (f : char -> bool) (s : str) : str * str :=
  match s with
  | [] => ([], [])
  | c :: t =>
      if f c then let (a, b) := span f t in (c :: a, b) else ([], s)
  end.

Fixpoint drop_while (f : char -> bool) (s : str) : str :=
  match s with
  | [] => []
  | c :: t => if f c then drop_while f t else s
  end.

(** [s.trim()] *)
Definition trim (s : str) : str :=
  rev (drop_while is_space (rev (drop_while is_space s))).

(** [s.includes(c)] for a one-character argument. *)
Definition includes (c : char) (s : str) : bool := existsb (char_eqb c) s.

(** [s.split(sep)] for a one-character separator: never the empty list. *)
Fixpoint split_on (sep : char) (s : str) : list str :=
  match s with
  | [] => [[]]
  | c :: t =>
      if char_eqb c sep then [] :: split_on sep t
      else
        match split_on sep t with
        | [] => [[c]]
        | l :: ls => (c :: l) :: ls
        end
  end.

(** [a.join(sep)] for a one-character separator. *)
Fixpoint join_with (sep : char) (ls : list str) : str :=
  match ls with
  | [] => []
  | [l] => l
  | l :: rest => l ++ sep :: join_with sep rest
  end.

(** [String(n)] for an array index. *)
Definition show_index (n : nat) : str :=
  lit (NilEmpty.string_of_uint (Nat.to_uint n)).

(** ** Completions

    A JavaScript block either completes normally with a value or throws. *)
Inductive completion (A : Type) : Type :=
| Normal (a : A)
| Throw.
Arguments Normal {A} a.
Arguments Throw {A}.

(** [try { body } catch (error) { handler }] *)
Definition try_catch {A} (body : completion A) (handler : completion A)
  : completion A :=
  match body with
  | Normal a => Normal a
  | Throw => handler
  end.

(** ** [String.prototype.replace] *)

(** A matcher stands for a regular expression tried at one index: it gets
    the code unit before the index (none at index 0) and the input from the
    index on, and returns the replacement text and the length of the match. *)
Definition matcher := option char -> str -> option (str * nat).

(** [s.replace(re, ...)] for a regular expression with the [g] flag.  The
    input is scanned from left to right; at every index not inside an
    earlier match the expression is tried; a match is replaced and the scan
    resumes behind it ([skip] counts the code units of the match that are
    still to be passed over); after an empty match the scan moves on by one
    code unit, which is copied. *)
Fixpoint replace_from (m : matcher) (prev : option char) (skip : nat)
    (s : str) {struct s} : str :=
  match s with
  | [] =>
      match skip with
      | O => match m prev [] with Some (out, _) => out | None => [] end
      | S _ => []
      end
  | c :: t =>
      match skip with
      | S k => replace_from m (Some c) k t
      | O =>
          match m prev s with
          | Some (out, O) => out ++ c :: replace_from m (Some c) 0 t
          | Some (out, S k) => out ++ replace_from m (Some c) k t
          | None => c :: replace_from m (Some c) 0 t
          end
      end
  end.

Definition replace_all (m : matcher) (s : str) : str :=
  replace_from m None 0 s.

(** [GetSubstitution] for a string pattern (no capture groups): in the
    replacement text a dollar followed by a dollar is one dollar, dollar
    ampersand is the matched text, dollar backtick the text before the
    match, dollar apostrophe the text after it; any other dollar stands for
    itself. *)
Fixpoint get_substitution (matched before after repl : str) : str :=
  match repl with
  | [] => []
  | c :: t =>
      if char_eqb c dollar then
        match t with
        | d :: t' =>
            if char_eqb d dollar then
              dollar :: get_substitution matched before after t'
            else if char_eqb d 38%N then
              matched ++ get_substitution matched before after t'
            else if char_eqb d 96%N then
              before ++ get_substitution matched before after t'
            else if char_eqb d 39%N then
              after ++ get_substitution matched before after t'
            else c :: get_substitution matched before after t
        | [] => [c]
        end
      else c :: get_substitution matched before after t
  end.

(** [s.replace(pat, repl)] for a string pattern: the first occurrence only. *)
Definition replace_first (pat repl s : str) : str :=
  match find_first pat s with
  | Some (before, after) =>
      before ++ get_substitution pat before after repl ++ after
  | None => s
  end.

(** ** Building blocks of the regular expressions of the source *)

(** A literal pattern replaced by a fixed text. *)
Definition re_lit (pat repl : str) : matcher :=
  fun _ s =>
    match strip_prefix pat s with
    | Some _ => Some (repl, length pat)
    | None => None
    end.

(** [/OPEN([\s\S]*?)CLOSE/]: the lazy body ends at the first [CLOSE] behind
    [OPEN]; [k] builds the replacement from the captured body. *)
Definition re_lazy (op cl : str) (k : str -> str) : matcher :=
  fun _ s =>
    match strip_prefix op s with
    | Some r =>
        match find_first cl r with
        | Some (body, _) => Some (k body, length op + length body + length cl)
        | None => None
        end
    | None => None
    end.

(** [/OPEN([C]+)CLOSE/] for a character class [C] and a [CLOSE] that is
    empty or starts with a code unit outside [C]: the greedy body is the
    longest run of [C], and giving some of it back cannot help, because
    [CLOSE] would then have to start inside the run. *)
Definition re_run (op : str) (cls : char -> bool) (cl : str)
    (k : str -> str) : matcher :=
  fun _ s =>
    match strip_prefix op s with
    | Some r =>
        let (body, r') := span cls r in
        match body with
        | [] => None
        | _ :: _ =>
            match strip_prefix cl r' with
            | Some _ => Some (k body, length op + length body + length cl)
            | None => None
            end
        end
    | None => None
    end.

(** [^] under the [m] flag: the index is 0 or follows a line terminator. *)
Definition at_line_start (prev : option char) : bool :=
  match prev with
  | None => true
  | Some c => is_line_terminator c
  end.

(** The class of [.] without the [s] flag. *)
Definition not_line_terminator (c : char) : bool :=
  negb (is_line_terminator c).

(** [/^HEAD(.+)$/m]: [head] recognises [HEAD] and returns its length and
    what follows; the body is the non-empty rest of the line, and [$] holds
    behind it because the rest of a line ends at a line terminator or at
    the end of the input. *)
Definition re_line (head : str -> option (nat * str)) (k : str -> str)
  : matcher :=
  fun prev s =>
    if at_line_start prev then
      match head s with
      | Some (n, r) =>
          match fst (span not_line_terminator r) with
          | [] => None
          | body => Some (k body, n + length body)
          end
      | None => None
      end
    else None.

(** A literal [HEAD]. *)
Definition head_lit (p : str) (s : str) : option (nat * str) :=
  match strip_prefix p s with
  | Some r => Some (length p, r)
  | None => None
  end.

(** The head [\d+\. ] of an ordered list item. *)
Definition head_ordered (s : str) : option (nat * str) :=
  let (ds, r) := span is_digit s in
  match ds with
  | [] => None
  | _ :: _ =>
      match strip_prefix (lit ". ") r with
      | Some r' => Some (length ds + 2, r')
      | None => None
      end
  end.

(** The head [[*-] ] of an unordered list item. *)
Definition head_bullet (s : str) : option (nat * str) :=
  match s with
  | c :: r =>
      if (char_eqb c 42%N || char_eqb c 45%N)%bool then
        match strip_prefix (lit " ") r with
        | Some r' => Some (2, r')
        | None => None
        end
      else None
  | [] => None
  end.

(** [/^---+$/gm]: a line of three or more hyphens. *)
Definition re_hr : matcher :=
  fun prev s =>
    if at_line_start prev then
      let (hs, r) := span (char_eqb 45%N) s in
      if (3 <=? length hs) then
        match r with
        | [] => Some (lit "<hr>", length hs)
        | c :: _ =>
            if is_line_terminator c then Some (lit "<hr>", length hs)
            else None
        end
      else None
    else None.

(** The length of the longest match of [(?: OPEN .*? CLOSE \s* )+] under the [s]
    flag at the start of [s] (0 when there is none): items are taken one
    after the other, each one from [OPEN] to the first [CLOSE] behind it and
    over the white space that follows, as long as the next item starts right
    there.  Every item uses up code units of [s], so [length s] rounds are
    enough. *)
Fixpoint items_length (op cl : str) (fuel : nat) (s : str) : nat :=
  match fuel with
  | O => 0
  | S fuel' =>
      match strip_prefix op s with
      | Some r =>
          match find_first cl r with
          | Some (body, r') =>
              let (ws, r'') := span is_space r' in
              length op + length body + length cl + length ws
              + items_length op cl fuel' r''
          | None => 0
          end
      | None => 0
      end
  end.

(** [/((?: OPEN .*? CLOSE \s* )+)/gs] replaced by [pre $1 post]. *)
Definition re_items (op cl pre post : str) : matcher :=
  fun _ s =>
    match items_length op cl (length s) s with
    | O => None
    | n => Some (pre ++ firstn n s ++ post, n)
    end.

(** [/\n\n+/g] replaced by the paragraph boundary. *)
Definition re_blank_lines : matcher :=
  fun _ s =>
    match strip_prefix [nl; nl] s with
    | Some r =>
        Some (lit "</p><p>", 2 + length (fst (span (char_eqb nl) r)))
    | None => None
    end.

(** The class [[123]]. *)
Definition is_123 (c : char) : bool := (N.leb 49 c && N.leb c 51)%N.

(** [/<p>(<h[123]>)/g] replaced by [$1]. *)
Definition re_p_heading : matcher :=
  fun _ s =>
    match strip_prefix (lit "<p><h") s with
    | Some (c :: r) =>
        if is_123 c then
          match strip_prefix (lit ">") r with
          | Some _ => Some (lit "<h" ++ c :: lit ">", 7)
          | None => None
          end
        else None
    | _ => None
    end.

(** [/(<\/h[123]>)<\/p>/g] replaced by [$1]. *)
Definition re_heading_p : matcher :=
  fun _ s =>
    match strip_prefix (lit "</h") s with
    | Some (c :: r) =>
        if is_123 c then
          match strip_prefix (lit "></p>") r with
          | Some _ => Some (lit "</h" ++ c :: lit ">", 9)
          | None => None
          end
        else None
    | _ => None
    end.

(** [/<p>\s*<\/p>/g] replaced by nothing. *)
Definition re_blank_paragraph : matcher :=
  fun _ s =>
    match strip_prefix (lit "<p>") s with
    | Some r =>
        let (ws, r') := span is_space r in
        match strip_prefix (lit "</p>") r' with
        | Some _ => Some ([], 3 + length ws + 4)
        | None => None
        end
    | None => None
    end.

(** Replacing one code unit everywhere: [/c/g] for a single character. *)
Definition re_char (c : char) (repl : str) : matcher := re_lit [c] repl.

(** ** [parseTable] *)

Definition TABLE_OPEN : str :=
  lit "<table class=" ++ dq :: lit "chat-table" ++ dq :: lit ">".
Definition TABLE_CLOSE : str := lit "</table>".

(** [line.includes('|')] on the trimmed line. *)
Definition has_pipe (l : str) : bool := includes pipe (trim l).

(** The inner loop: the trimmed lines from the scan index on, as long as
    they contain a pipe. *)
Fixpoint collect_rows (lines : list str) : list str :=
  match lines with
  | [] => []
  | l :: rest => if has_pipe l then trim l :: collect_rows rest else []
  end.

(** The class [[\s\|:\-]]. *)
Definition is_separator_char (c : char) : bool :=
  (is_space c || char_eqb c pipe || char_eqb c 58%N || char_eqb c 45%N)%bool.

(** [/^[\s\|:\-]+$/.test(s)] *)
Definition is_separator (s : str) : bool :=
  match s with
  | [] => false
  | _ :: _ => forallb is_separator_char s
  end.

Definition is_empty (s : str) : bool :=
  match s with [] => true | _ :: _ => false end.

(** [row.split('|').map(cell => cell.trim()).filter(cell => cell !== '')] *)
Definition cells_of (row : str) : list str :=
  filter (fun cell => negb (is_empty cell)) (map trim (split_on pipe row)).

(** The table built from a qualifying run, appending to [html] in the order
    of the source. *)
Definition render_table (tableLines : list str) : str :=
  let html := TABLE_OPEN in
  let headerCells := cells_of (nth 0 tableLines []) in
  let html := html ++ lit "<thead><tr>" in
  let html :=
    fold_left (fun html cell => html ++ lit "<th>" ++ cell ++ lit "</th>")
      headerCells html in
  let html := html ++ lit "</tr></thead>" in
  let html := html ++ lit "<tbody>" in
  let html :=
    fold_left
      (fun html row =>
         let cells := cells_of row in
         if 0 <? length cells then
           let html := html ++ lit "<tr>" in
           let html :=
             fold_left
               (fun html cell => html ++ lit "<td>" ++ cell ++ lit "</td>")
               cells html in
           html ++ lit "</tr>"
         else html)
      (skipn 2 tableLines) html in
  html ++ lit "</tbody></table>".

(** The test on a collected run: at least three lines, the second one a
    separator. *)
Definition qualifies (tableLines : list str) : bool :=
  (3 <=? length tableLines) && is_separator (nth 1 tableLines []).

(** The outer loop over the lines.  [lines] are the lines from index [i] on;
    after a table, [i = j] is [skip]: as many lines as the run has left are
    passed over. *)
Fixpoint scan_lines (skip : nat) (lines : list str) : list str :=
  match lines with
  | [] => []
  | l :: rest =>
      match skip with
      | S k => scan_lines k rest
      | O =>
          if has_pipe l then
            let tableLines := collect_rows lines in
            if qualifies tableLines then
              render_table tableLines
              :: scan_lines (length tableLines - 1) rest
            else l :: scan_lines 0 rest
          else l :: scan_lines 0 rest
      end
  end.

(** The body of the [try] block of [parseTable]. *)
Definition parseTable_body (text : str) : completion str :=
  let lines := split_on nl text in
  let result := scan_lines 0 lines in
  Normal (join_with nl result).

Definition parseTable (text : str) : completion str :=
  try_catch (parseTable_body text) (Normal text).

(** ** [parseMarkdown] *)

Definition bind {A B} (c : completion A) (f : A -> completion B)
  : completion B :=
  match c with
  | Normal a => f a
  | Throw => Throw
  end.

Notation "x <- c ;; k" := (bind c (fun x => k))
  (at level 61, c at next level, right associativity).

(** The token the callback returns for the table with index [k]. *)
Definition placeholder (k : nat) : str :=
  lit "<!---TABLE-PLACEHOLDER-" ++ show_index k ++ lit "--->".

(** The token as it looks after the escaping step. *)
Definition escaped_placeholder (k : nat) : str :=
  lit "&lt;!---TABLE-PLACEHOLDER-" ++ show_index k ++ lit "---&gt;".

(** The marker that stands for table [k] during paragraph processing. *)
Definition marker (k : nat) : str :=
  lit "###TABLE" ++ show_index k ++ lit "###".

(** One attempt of [/<table class="chat-table">[\s\S]*?<\/table>/] at the
    start of [s]: the matched text. *)
Definition match_table (s : str) : option str :=
  match strip_prefix TABLE_OPEN s with
  | Some r =>
      match find_first TABLE_CLOSE r with
      | Some (body, _) => Some (TABLE_OPEN ++ body ++ TABLE_CLOSE)
      | None => None
      end
  | None => None
  end.

(** [html.replace(/<table ...>[\s\S]*?<\/table>/g, callback)]: the callback
    pushes the match on [tables] and returns the token of its index.  The
    result is the new text and the final [tables]. *)
Fixpoint protect_from (tables : list str) (skip : nat) (s : str)
  : str * list str :=
  match s with
  | [] => ([], tables)
  | c :: t =>
      match skip with
      | S k => protect_from tables k t
      | O =>
          match match_table s with
          | Some matched =>
              let tables' := tables ++ [matched] in
              let (out, final) :=
                protect_from tables' (length matched - 1) t in
              (placeholder (length tables' - 1) ++ out, final)
          | None =>
              let (out, final) := protect_from tables 0 t in
              (c :: out, final)
          end
      end
  end.

Definition protect_tables (html : str) : str * list str :=
  protect_from [] 0 html.

(** [tables.forEach((table, index) => { html = f(table, index, html) })],
    started at [index]. *)
Fixpoint for_each_from (f : str -> nat -> str -> str) (index : nat)
    (tables : list str) (html : str) : str :=
  match tables with
  | [] => html
  | table :: rest => for_each_from f (S index) rest (f table index html)
  end.

Definition LI_OL : str := lit "<li class=" ++ dq :: lit "ol-item" ++ dq :: lit ">".
Definition LI_UL : str := lit "<li class=" ++ dq :: lit "ul-item" ++ dq :: lit ">".
Definition CLASS_OL : str := lit "class=" ++ dq :: lit "ol-item" ++ [dq].
Definition CLASS_UL : str := lit "class=" ++ dq :: lit "ul-item" ++ [dq].

Definition is_not (c : char) (x : char) : bool := negb (char_eqb x c).

Definition wrap (pre post body : str) : str := pre ++ body ++ post.

(** [html.replace(/&/g, '&amp;').replace(/</g, '&lt;').replace(/>/g, '&gt;')] *)
Definition escape_html (html : str) : str :=
  let html := replace_all (re_char 38%N (lit "&amp;")) html in
  let html := replace_all (re_char 60%N (lit "&lt;")) html in
  replace_all (re_char 62%N (lit "&gt;")) html.

(** The inline and block substitutions between escaping and the first
    restoring of the tables, in the order of the source. *)
Definition markup (html : str) : str :=
  (* code blocks *)
  let html := replace_all
      (re_lazy (lit "```") (lit "```")
         (wrap (lit "<pre><code>") (lit "</code></pre>"))) html in
  (* inline code *)
  let html := replace_all
      (re_run (lit "`") (is_not 96%N) (lit "`")
         (wrap (lit "<code>") (lit "</code>"))) html in
  (* bold: two asterisks only *)
  let html := replace_all
      (re_run (lit "**") (is_not 42%N) (lit "**")
         (wrap (lit "<strong>") (lit "</strong>"))) html in
  (* italic *)
  let html := replace_all
      (re_run (lit "*") (is_not 42%N) (lit "*")
         (wrap (lit "<em>") (lit "</em>"))) html in
  let html := replace_all
      (re_run (lit "_") (is_not 95%N) (lit "_")
         (wrap (lit "<em>") (lit "</em>"))) html in
  (* horizontal rules *)
  let html := replace_all re_hr html in
  (* blockquotes *)
  let html := replace_all
      (re_line (head_lit (lit "&gt; "))
         (wrap (lit "<blockquote>") (lit "</blockquote>"))) html in
  (* headers *)
  let html := replace_all
      (re_line (head_lit (lit "### ")) (wrap (lit "<h3>") (lit "</h3>")))
      html in
  let html := replace_all
      (re_line (head_lit (lit "## ")) (wrap (lit "<h2>") (lit "</h2>")))
      html in
  let html := replace_all
      (re_line (head_lit (lit "# ")) (wrap (lit "<h1>") (lit "</h1>")))
      html in
  (* ordered and unordered list items *)
  let html := replace_all
      (re_line head_ordered (wrap LI_OL (lit "</li>"))) html in
  let html := replace_all
      (re_line head_bullet (wrap LI_UL (lit "</li>"))) html in
  (* wrap the runs of items *)
  let html := replace_all
      (re_items LI_OL (lit "</li>") (lit "<ol>") (lit "</ol>")) html in
  let html := replace_all (re_lit CLASS_OL []) html in
  let html := replace_all
      (re_items LI_UL (lit "</li>") (lit "<ul>") (lit "</ul>")) html in
  replace_all (re_lit CLASS_UL []) html.

(** Restore table placeholders BEFORE paragraph processing. *)
Definition restore_markers (tables : list str) (html : str) : str :=
  for_each_from
    (fun _ index html =>
       replace_first (escaped_placeholder index)
         (nl :: nl :: marker index ++ [nl; nl]) html)
    0 tables html.

(** Paragraphs, and the clean-up around tables and block elements. *)
Definition paragraphs (html : str) : str :=
  let html := replace_all re_blank_lines html in
  let html := replace_all (re_char nl (lit "<br>")) html in
  let html := lit "<p>" ++ html ++ lit "</p>" in
  let html := replace_all
      (re_run (lit "<p>###TABLE") is_digit (lit "###</p>")
         (wrap (lit "###TABLE") (lit "###"))) html in
  let html := replace_all re_p_heading html in
  let html := replace_all re_heading_p html in
  let html := replace_all (re_lit (lit "<p><hr></p>") (lit "<hr>")) html in
  let html := replace_all
      (re_lit (lit "<p><blockquote>") (lit "<blockquote>")) html in
  let html := replace_all
      (re_lit (lit "</blockquote></p>") (lit "</blockquote>")) html in
  let html := replace_all (re_lit (lit "<p><ul>") (lit "<ul>")) html in
  let html := replace_all (re_lit (lit "</ul></p>") (lit "</ul>")) html in
  let html := replace_all (re_lit (lit "<p><ol>") (lit "<ol>")) html in
  let html := replace_all (re_lit (lit "</ol></p>") (lit "</ol>")) html in
  let html := replace_all (re_lit (lit "<p><pre>") (lit "<pre>")) html in
  let html := replace_all (re_lit (lit "</pre></p>") (lit "</pre>")) html in
  (* empty paragraphs *)
  let html := replace_all (re_lit (lit "<p></p>") []) html in
  let html := replace_all re_blank_paragraph html in
  replace_all (re_lit (lit "<p><br></p>") []) html.

(** Restore tables as final step. *)
Definition restore_tables (tables : list str) (html : str) : str :=
  for_each_from
    (fun table index html => replace_first (marker index) table html)
    0 tables html.

(** The body of the [try] block of [parseMarkdown]. *)
Definition parseMarkdown_body (text : str) : completion str :=
  let html := text in
  html <- parseTable html ;;
  let (html, tables) := protect_tables html in
  let html := escape_html html in
  let html := markup html in
  let html := restore_markers tables html in
  let html := paragraphs html in
  let html := restore_tables tables html in
  Normal html.

(** What the [catch] block returns. *)
Definition parseMarkdown_fallback (text : str) : str :=
  lit "<p>"
  ++ replace_all (re_char 62%N (lit "&gt;"))
       (replace_all (re_char 60%N (lit "&lt;")) text)
  ++ lit "</p>".

(** [try { body } catch (error) { return fallback }] around any body: the
    frame of [parseMarkdown]. *)
Definition parseMarkdown_with (body : str -> completion str) (text : str)
  : completion str :=
  try_catch (body text) (Normal (parseMarkdown_fallback text)).

Definition parseMarkdown (text : str) : completion str :=
  parseMarkdown_with parseMarkdown_body text.

(** The public name of the renderer. *)
Definition render := parseMarkdown.

(** * The chat around the renderer

    [sendMessageToAI] posts the message of the user to a webhook and makes
    a reply text of whatever comes back; [getOrCreateSessionId] keeps one
    session id in the session storage.  What the browser and the network
    do is given from outside: the functions take a [host], and the session
    storage is passed through. *)

(** ** JSON values *)

(** A number as [JSON.parse] returns it: a binary floating point value
    with its sign, mantissa and exponent, or an infinity, which a literal
    out of range gives. *)
Inductive number : Type :=
| Finite (negative : bool) (mantissa : N) (exponent : Z)
| Infinite (negative : bool).

#[warnings="-register-all"]
Inductive json : Type :=
| JNull
| JBool (b : bool)
| JNumber (n : number)
| JString (s : str)
| JArray (items : list json)
| JObject (fields : list (str * json)).

(** [a === b] on strings. *)
Fixpoint str_eqb (a b : str) : bool :=
  match a, b with
  | [], [] => true
  | x :: a', y :: b' => char_eqb x y && str_eqb a' b'
  | _, _ => false
  end.

(** The own property [name] of an object, [None] for [undefined]. *)
Fixpoint own_property (name : str) (fields : list (str * json))
  : option json :=
  match fields with
  | [] => None
  | (key, value) :: rest =>
      if str_eqb key name then Some value else own_property name rest
  end.

(** [value.name] for the names that the code asks for: an own property of
    an object; [undefined] on an array, a string, a number and a boolean,
    whose prototypes have no property of these names; a [TypeError] on
    [null]. *)
Definition get (value : json) (name : str) : completion (option json) :=
  match value with
  | JNull => Throw
  | JObject fields => Normal (own_property name fields)
  | _ => Normal None
  end.

(** [Object.keys(value)]: throws on [null]. *)
Definition Object_keys (value : json) : completion (list str) :=
  match value with
  | JNull => Throw
  | JObject fields => Normal (map fst fields)
  | JArray items => Normal (map show_index (seq 0 (length items)))
  | JString s => Normal (map show_index (seq 0 (length s)))
  | _ => Normal []
  end.

(** [ToBoolean]: [undefined], [null], [false], zero and the empty string
    are falsy. *)
Definition truthy (v : option json) : bool :=
  match v with
  | None => false
  | Some JNull => false
  | Some (JBool b) => b
  | Some (JNumber (Finite _ m _)) => negb (N.eqb m 0)
  | Some (JNumber (Infinite _)) => true
  | Some (JString s) => negb (is_empty s)
  | Some (JArray _) => true
  | Some (JObject _) => true
  end.

(** [a || b] *)
Definition or_else (a b : option json) : option json :=
  if truthy a then a else b.

(** [typeof v === 'string'] *)
Definition is_string (v : option json) : bool :=
  match v with Some (JString _) => true | _ => false end.

(** [typeof v === 'object'] *)
Definition is_object (v : option json) : bool :=
  match v with
  | Some JNull => true
  | Some (JArray _) => true
  | Some (JObject _) => true
  | _ => false
  end.

(** ** The host *)

(** A response of [fetch]: [text] is what [await response.text()] gives. *)
Record response : Type := {
  ok : bool;
  status : N;
  statusText : str;
  text : completion str
}.

(** What the engine, the clock and the network give: [JSON_stringify v
    space] is [JSON.stringify(v, null, space)], with [space] 0 for the call
    with one argument; [date_iso] is [new Date().toISOString()],
    [date_now] is [Date.now()], [random36] is [Math.random().toString(36)];
    [fetch url body] is the outcome of the POST request. *)
Record host : Type := {
  JSON_parse : str -> completion json;
  JSON_stringify : json -> nat -> str;
  date_iso : str;
  date_now : N;
  random36 : str;
  fetch : str -> str -> completion response
}.

(** ** The session storage *)

(** Whether the page may use the storage at all: reading the property
    [sessionStorage] throws a [SecurityError] when it may not; the items in
    the order of their keys; and whether the storage takes another write:
    [setItem] throws when the quota is used up. *)
Record storage : Type := {
  available : bool;
  items : list (str * str);
  writable : bool
}.

Fixpoint find_item (key : str) (l : list (str * str)) : option str :=
  match l with
  | [] => None
  | (k, v) :: rest => if str_eqb k key then Some v else find_item key rest
  end.

Fixpoint put_item (key value : str) (l : list (str * str))
  : list (str * str) :=
  match l with
  | [] => [(key, value)]
  | (k, v) :: rest =>
      if str_eqb k key then (k, value) :: rest
      else (k, v) :: put_item key value rest
  end.

(** [sessionStorage.getItem(key)]: [None] for [null]. *)
Definition getItem (key : str) (st : storage) : completion (option str) :=
  if available st then Normal (find_item key (items st)) else Throw.

(** [sessionStorage.setItem(key, value)] *)
Definition setItem (key value : str) (st : storage) : completion storage :=
  if available st then
    if writable st
    then Normal {| available := available st;
                   items := put_item key value (items st);
                   writable := writable st |}
    else Throw
  else Throw.

(** [String(n)] for a number that is a natural number below 10^21. *)
Definition show_number (n : N) : str :=
  lit (NilEmpty.string_of_uint (N.to_uint n)).

(** [s.substr(start, length)] *)
Definition substr (start len : nat) (s : str) : str :=
  firstn len (skipn start s).

Definition SESSION_KEY : str := lit "chat_session_id".

(** [getOrCreateSessionId]: the id and the storage behind the call. *)
Definition getOrCreateSessionId (h : host) (st : storage)
  : completion (str * storage) :=
  sessionId <- getItem SESSION_KEY st ;;
  match sessionId with
  | Some (c :: rest) => Normal (c :: rest, st)
  | _ =>
      let sessionId :=
        lit "session_" ++ show_number (date_now h) ++ lit "_"
        ++ substr 2 9 (random36 h) in
      st' <- setItem SESSION_KEY sessionId st ;;
      Normal (sessionId, st')
  end.

(** ** [sendMessageToAI] *)

(** [s.includes(p)] for a text [p]. *)
Definition includes_text (p s : str) : bool :=
  match find_first p s with
  | Some _ => true
  | None => false
  end.

Definition WEBHOOK_URL : str :=
  lit "https://n8ngc.codeblazar.org/webhook/f330b68b-3b5a-45b8-bb65-952280da2264".

Definition MAX_MESSAGE_LENGTH : nat := 2000.

(** The reply when the webhook reports too large a request. *)
Definition TOO_DETAILED : str :=
  lit "Your message is a bit too detailed for me to process right now. Could you try asking in a shorter, more concise way? I'm here to help! "
  ++ [240%N; 376%N; 8217%N; 8482%N].

(** The reply when the request fails. *)
Definition TROUBLE : str :=
  lit "I'm having trouble connecting right now. But I'm here for you. Would you like to try again?".

(** The message that is sent: cut behind 2000 code units, with three dots
    added. *)
Definition message_to_send (userMessage : str) : str :=
  if MAX_MESSAGE_LENGTH <? length userMessage
  then firstn MAX_MESSAGE_LENGTH userMessage ++ lit "..."
  else userMessage.

(** The object that is posted. *)
Definition payload_of (h : host) (messageToSend sessionId : str) : json :=
  JObject
    [(lit "source", JString (lit "mental-wellness-frontend"));
     (lit "timestamp", JString (date_iso h));
     (lit "message", JString messageToSend);
     (lit "event", JString (lit "chat_message"));
     (lit "sessionId", JString sessionId)].

(** [typeof v === 'string' ? v : JSON.stringify(v)] *)
Definition as_text (h : host) (v : option json) : str :=
  match v with
  | Some (JString s) => s
  | Some other => JSON_stringify h other 0
  | None => []
  end.

(** The inner [try] block: the reply that is read from the text of a
    response. *)
Definition reply_of_text (h : host) (responseText : str) : completion str :=
  data <- JSON_parse h responseText ;;
  _ <- Object_keys data ;;
  response <- get data (lit "response") ;;
  message <- get data (lit "message") ;;
  output <- get data (lit "output") ;;
  text <- get data (lit "text") ;;
  reply <- get data (lit "reply") ;;
  answer <- get data (lit "answer") ;;
  ai_response <- get data (lit "ai_response") ;;
  result <- get data (lit "result") ;;
  data_data <- get data (lit "data") ;;
  let aiMessage :=
    or_else (or_else (or_else (or_else (or_else (or_else (or_else (or_else
      response message) output) text) reply) answer) ai_response) result)
      data_data in
  if truthy aiMessage then Normal (as_text h aiMessage)
  else if is_string (Some data) then Normal (as_text h (Some data))
  else
    let nested :=
      if truthy data_data && is_object data_data then
        match data_data with
        | Some inner =>
            nested_response <- get inner (lit "response") ;;
            nested_message <- get inner (lit "message") ;;
            nested_output <- get inner (lit "output") ;;
            nested_text <- get inner (lit "text") ;;
            Normal (or_else (or_else (or_else nested_response nested_message)
                               nested_output) nested_text)
        | None => Normal None
        end
      else Normal None in
    nestedMessage <- nested ;;
    if truthy nestedMessage then Normal (as_text h nestedMessage)
    else Normal (JSON_stringify h data 2).

(** The outer [try] block, behind the request. *)
Definition reply_of_response (h : host) (r : response) : completion str :=
  if ok r then
    responseText <- text r ;;
    try_catch (reply_of_text h responseText) (Normal responseText)
  else
    errorText <- text r ;;
    if includes_text (lit "Request too large") errorText
       || includes_text (lit "token") errorText
    then Normal TOO_DETAILED
    else Throw.

(** [sendMessageToAI]: the reply that the promise resolves to, and the
    session storage behind the call.  The payload is made in front of the
    [try] block. *)
Definition sendMessageToAI (h : host) (st : storage) (userMessage : str)
  : completion (str * storage) :=
  let messageToSend := message_to_send userMessage in
  session <- getOrCreateSessionId h st ;;
  let (sessionId, st') := session in
  let payload := payload_of h messageToSend sessionId in
  let reply :=
    try_catch
      (r <- fetch h WEBHOOK_URL (JSON_stringify h payload 0) ;;
       reply_of_response h r)
      (Normal TROUBLE) in
  reply <- reply ;;
  Normal (reply, st').

(** ** The renderer of [script.js]

    [script.js] holds another [parseMarkdown], without the line scanning
    table parser and without the paragraph clean-up, but with a second bold
    rule for two underscores. *)
Module Legacy.

(** [s.replace(re, ...)] for a regular expression without the [g] flag: the
    first index where the expression matches is replaced, nothing else. *)
Fixpoint replace_once_from (m : matcher) (prev : option char) (s : str)
  : str :=
  match m prev s with
  | Some (out, n) => out ++ skipn n s
  | None =>
      match s with
      | [] => []
      | c :: t => c :: replace_once_from m (Some c) t
      end
  end.

Definition replace_once (m : matcher) (s : str) : str :=
  replace_once_from m None s.

(** The last occurrence of [p] in [s]. *)
Fixpoint find_last (p s : str) : option (str * str) :=
  match s with
  | [] => match strip_prefix p [] with Some r => Some ([], r) | None => None end
  | c :: t =>
      match find_last p t with
      | Some (b, a) => Some (c :: b, a)
      | None =>
          match strip_prefix p s with
          | Some r => Some ([], r)
          | None => None
          end
      end
  end.

(** [/(OPEN.*CLOSE)/s] replaced by [pre $1 post]: the greedy body ends at
    the last [CLOSE] behind [OPEN]. *)
Definition re_greedy (op cl pre post : str) : matcher :=
  fun _ s =>
    match strip_prefix op s with
    | Some r =>
        match find_last cl r with
        | Some (body, _) =>
            Some (pre ++ op ++ body ++ cl ++ post,
                  length op + length body + length cl)
        | None => None
        end
    | None => None
    end.

(** [\|.+\|(?:\n|$)] at the start of [s]: a pipe, then the rest of the line,
    which must be two code units or more and end with a pipe, then a line
    feed or the end of the input.  The length of the match. *)
Definition row_length (s : str) : option nat :=
  match s with
  | c :: r =>
      if char_eqb c pipe then
        let (body, r') := span not_line_terminator r in
        if (2 <=? length body) && char_eqb (last body 0%N) pipe then
          match r' with
          | [] => Some (1 + length body)
          | d :: _ =>
              if char_eqb d nl then Some (1 + length body + 1) else None
          end
        else None
      else None
  | [] => None
  end.

(** One round of [(?:^|\n)\|.+\|(?:\n|$)]: [^] (no [m] flag) holds at index
    0 only; otherwise, or when the row does not follow, a line feed is
    taken first. *)
Definition round_length (at_start : bool) (s : str) : option nat :=
  match (if at_start then row_length s else None) with
  | Some n => Some n
  | None =>
      match s with
      | c :: r =>
          if char_eqb c nl then
            match row_length r with
            | Some n => Some (1 + n)
            | None => None
            end
          else None
      | [] => None
      end
  end.

(** The rounds of the outer [+], as many as follow each other. *)
Fixpoint rounds_length (fuel : nat) (at_start : bool) (s : str) : nat :=
  match fuel with
  | O => 0
  | S fuel' =>
      match round_length at_start s with
      | Some n => n + rounds_length fuel' false (skipn n s)
      | None => 0
      end
  end.

(** [row.split('|').filter(cell => cell.trim())], each cell trimmed when it
    is written. *)
Definition cells_of (row : str) : list str :=
  map trim
    (filter (fun cell => negb (is_empty (trim cell))) (split_on pipe row)).

(** The callback of [parseTable]. *)
Definition table_callback (matched : str) : str :=
  let lines := split_on nl (trim matched) in
  if length lines <? 2 then matched
  else
    let html := TABLE_OPEN in
    let headerCells := cells_of (nth 0 lines []) in
    let html := html ++ lit "<thead><tr>" in
    let html :=
      fold_left (fun html cell => html ++ lit "<th>" ++ cell ++ lit "</th>")
        headerCells html in
    let html := html ++ lit "</tr></thead>" in
    let html := html ++ lit "<tbody>" in
    let html :=
      fold_left
        (fun html row =>
           let cells := cells_of row in
           if 0 <? length cells then
             let html := html ++ lit "<tr>" in
             let html :=
               fold_left
                 (fun html cell => html ++ lit "<td>" ++ cell ++ lit "</td>")
                 cells html in
             html ++ lit "</tr>"
           else html)
        (skipn 2 lines) html in
    html ++ lit "</tbody></table>".

(** [/((?:(?:^|\n)\|.+\|(?:\n|$))+)/g] with the callback. *)
Definition re_table : matcher :=
  fun prev s =>
    let at_start := match prev with None => true | Some _ => false end in
    match rounds_length (length s) at_start s with
    | O => None
    | n => Some (table_callback (firstn n s), n)
    end.

Definition parseTable (text : str) : str := replace_all re_table text.

Definition parseMarkdown (text : str) : str :=
  let html := text in
  let html := escape_html html in
  let html := replace_all
      (re_lazy (lit "```") (lit "```")
         (wrap (lit "<pre><code>") (lit "</code></pre>"))) html in
  let html := replace_all
      (re_run (lit "`") (is_not 96%N) (lit "`")
         (wrap (lit "<code>") (lit "</code>"))) html in
  (* bold, both spellings *)
  let html := replace_all
      (re_run (lit "**") (is_not 42%N) (lit "**")
         (wrap (lit "<strong>") (lit "</strong>"))) html in
  let html := replace_all
      (re_run (lit "__") (is_not 95%N) (lit "__")
         (wrap (lit "<strong>") (lit "</strong>"))) html in
  (* italic *)
  let html := replace_all
      (re_run (lit "*") (is_not 42%N) (lit "*")
         (wrap (lit "<em>") (lit "</em>"))) html in
  let html := replace_all
      (re_run (lit "_") (is_not 95%N) (lit "_")
         (wrap (lit "<em>") (lit "</em>"))) html in
  (* headers *)
  let html := replace_all
      (re_line (head_lit (lit "### ")) (wrap (lit "<h3>") (lit "</h3>")))
      html in
  let html := replace_all
      (re_line (head_lit (lit "## ")) (wrap (lit "<h2>") (lit "</h2>")))
      html in
  let html := replace_all
      (re_line (head_lit (lit "# ")) (wrap (lit "<h1>") (lit "</h1>")))
      html in
  (* unordered lists *)
  let html := replace_all
      (re_line head_bullet (wrap (lit "<li>") (lit "</li>"))) html in
  let html := replace_once
      (re_greedy (lit "<li>") (lit "</li>") (lit "<ul>") (lit "</ul>"))
      html in
  (* ordered lists *)
  let html := replace_all
      (re_line head_ordered (wrap (lit "<li>") (lit "</li>"))) html in
  (* line breaks *)
  let html := replace_all (re_lit [nl; nl] (lit "</p><p>")) html in
  let html := replace_all (re_char nl (lit "<br>")) html in
  parseTable html.

(** [script.js] has [sendMessageToAI] too: the message is sent as it is,
    and a response that is not ok always makes the request fail.  The
    reading of an ok response and [getOrCreateSessionId] are the same
    code. *)
Definition reply_of_response (h : host) (r : response) : completion str :=
  if ok r then
    responseText <- text r ;;
    try_catch (reply_of_text h responseText) (Normal responseText)
  else
    errorText <- text r ;;
    Throw.

Definition sendMessageToAI (h : host) (st : storage) (userMessage : str)
  : completion (str * storage) :=
  session <- getOrCreateSessionId h st ;;
  let (sessionId, st') := session in
  let payload := payload_of h userMessage sessionId in
  let reply :=
    try_catch
      (r <- fetch h WEBHOOK_URL (JSON_stringify h payload 0) ;;
       reply_of_response h r)
      (Normal TROUBLE) in
  reply <- reply ;;
  Normal (reply, st').

End Legacy.

(** ** Notions used to state the properties *)

(** [s.includes(p)] for a pattern of any length. *)
Definition contains (p s : str) : bool :=
  match find_first p s with
  | Some _ => true
  | None => false
  end.

(** A separator line in the words of the specification: not empty, and made
    of pipes, hyphens, colons and white space only. *)
Definition separator_line (s : str) : Prop :=
  s <> [] /\
  Forall (fun c => c = pipe \/ c = 45%N \/ c = 58%N \/ is_space c = true) s.

(** The table of the specification: one [th] per header cell, one [tr] per
    data row that has cells, one [td] per cell. *)
Definition th_of (cell : str) : str := lit "<th>" ++ cell ++ lit "</th>".
Definition td_of (cell : str) : str := lit "<td>" ++ cell ++ lit "</td>".
Definition tr_of (row : str) : str :=
  match cells_of row with
  | [] => []
  | cells => lit "<tr>" ++ concat (map td_of cells) ++ lit "</tr>"
  end.

Definition table_of (rows : list str) : str :=
  TABLE_OPEN
  ++ lit "<thead><tr>" ++ concat (map th_of (cells_of (nth 0 rows [])))
  ++ lit "</tr></thead>"
  ++ lit "<tbody>" ++ concat (map tr_of (skipn 2 rows))
  ++ lit "</tbody></table>".


(** The line after a run, if any, has no pipe: the run ends there. *)
Definition run_ends (rest : list str) : Prop :=
  match rest with
  | [] => True
  | l :: _ => has_pipe l = false
  end.

(** [extracts lines out]: [out] is [lines] with every table run replaced by
    its table and every other line kept as it is, in the same order.  A
    table run is a run of lines with pipes that starts at the scan index,
    ends before the first line without a pipe and qualifies; a line is kept
    when it has no pipe or the run collected from it does not qualify. *)
Inductive extracts : list str -> list str -> Prop :=
| extracts_nil : extracts [] []
| extracts_line l rest out :
    has_pipe l = false \/ qualifies (collect_rows (l :: rest)) = false ->
    extracts rest out ->
    extracts (l :: rest) (l :: out)
| extracts_table run rest out :
    run <> [] ->
    Forall (fun l => has_pipe l = true) run ->
    run_ends rest ->
    qualifies (map trim run) = true ->
    extracts rest out ->
    extracts (run ++ rest) (render_table (map trim run) :: out).


(** Does a block-level element start while a paragraph is open?  The scan
    keeps track of [<p>] and [</p>]. *)
Definition block_tags : list str :=
  [lit "<h1>"; lit "<h2>"; lit "<h3>"; lit "<hr>"; lit "<blockquote>";
   lit "<ul>"; lit "<ol>"; lit "<pre>"; lit "<table"].

Definition starts_with (p s : str) : bool :=
  match strip_prefix p s with Some _ => true | None => false end.

Fixpoint block_inside_p (open : bool) (s : str) : bool :=
  match s with
  | [] => false
  | _ :: t =>
      if starts_with (lit "<p>") s then block_inside_p true t
      else if starts_with (lit "</p>") s then block_inside_p false t
      else if open && existsb (fun tag => starts_with tag s) block_tags
           then true
      else block_inside_p open t
  end.

(** Plain text: code units that no rule of the renderer reacts to.  The
    special ones are the markdown and HTML characters, the digits and the
    line terminators. *)
Definition special_chars : str := lit "&<>`*_-#|=$" ++ [dq].

Definition is_special (c : char) : bool :=
  existsb (char_eqb c) special_chars || is_digit c || is_line_terminator c.

Definition is_plain (c : char) : bool := negb (is_special c).

Definition plain (s : str) : Prop := forallb is_plain s = true.

(** A matcher that never starts a match on a plain code unit. *)
Definition plain_dead (m : matcher) : Prop :=
  forall prev c s, is_plain c = true -> m prev (c :: s) = None.

(** A matcher that looks at the code unit before the index only to see
    whether a line starts there. *)
Definition anchored (m : matcher) : Prop :=
  forall p p' s, at_line_start p = at_line_start p' -> m p s = m p' s.

(** A text that starts with a code unit that is not white space. *)
Definition starts_solid (w : str) : bool :=
  match w with
  | c :: _ => negb (is_space c)
  | [] => false
  end.


(** Calm text: plain, and empty or starting with a code unit that is not
    white space. *)
Definition calm (w : str) : Prop :=
  plain w /\ (w = [] \/ starts_solid w = true).

(** The paragraph that the renderer makes of calm text: none for the empty
    text. *)
Definition paragraph_of (w : str) : str :=
  match w with
  | [] => []
  | _ :: _ => lit "<p>" ++ w ++ lit "</p>"
  end.


(** The tokens for the tables with the indices [from], ..., [from + n - 1]. *)
Definition tokens (from n : nat) : list str := map placeholder (seq from n).

(** The text is empty or starts with a line terminator: a line ends here. *)
Definition line_ends (s : str) : bool :=
  match s with
  | [] => true
  | c :: _ => is_line_terminator c
  end.

(** The text is empty or starts with a code unit that is not in [pat]: a
    literal [pat] that has started cannot go on into it. *)
Definition stops_literal (pat s : str) : bool :=
  match s with
  | [] => true
  | d :: _ => negb (includes d pat)
  end.

(** A run of lines passes the test of the table parser, in the words of
    the specification: three lines or more, and the second one, trimmed,
    is a separator line. *)
Definition run_qualifies (run : list str) : Prop :=
  3 <= length run /\ separator_line (trim (nth 1 run [])).

(** The lines in front of a run: there are none, or the last one has no
    pipe, so that the run starts behind them. *)
Definition run_starts (before : list str) : Prop :=
  before = [] \/ has_pipe (last before []) = false.

(** * The chat window

    [addChatMessage], the two functions for the typing indicator and
    [handleSendMessage] work on four elements of the page, which they look
    up by id.  The page here holds what the functions read and write of
    these elements: the children of the chat window, the value and the
    [disabled] flag of the input, the [disabled] flag of the button, and
    the [display] style of the indicator.  The scroll position, which a
    timer sets later, and the focus are not part of it. *)

(** A node that the code makes: a text node, an element with its class
    list and children, or an element whose content was given as markup
    through [innerHTML]. *)
#[warnings="-register-all"]
Inductive node : Type :=
| TextNode (data : str)
| Element (tag : str) (classes : list str) (children : list node)
| Parsed (tag : str) (classes : list str) (innerHTML : str).

Record input_element : Type := {
  value : str;
  disabled : bool
}.

(** An element that [document.getElementById] does not find is [None]. *)
Record page : Type := {
  chatWindow : option (list node);
  chatInput : option input_element;
  sendMessageBtn : option bool;
  typingIndicator : option str;
  sessionStorage : storage
}.

(** A function that works on the page: the page behind the call, also
    when the call throws, and the completion. *)
Definition action (A : Type) : Type := page -> page * completion A.

(** ASCII white space, which a class name must not contain. *)
Definition is_ascii_whitespace (c : char) : bool :=
  (N.eqb c 9 || N.eqb c 10 || N.eqb c 12 || N.eqb c 13 || N.eqb c 32)%N.

(** [element.classList.add(tokens)]: a [SyntaxError] for an empty token
    and an [InvalidCharacterError] for a token with white space, before
    anything is added; then every token that is not in the list yet is
    appended. *)
Definition classList_add (tokens classes : list str)
  : completion (list str) :=
  if existsb (fun t => is_empty t || existsb is_ascii_whitespace t) tokens
  then Throw
  else
    Normal
      (fold_left
         (fun cs t => if existsb (str_eqb t) cs then cs else cs ++ [t])
         tokens classes).

(** [element.textContent = s] on an element without children. *)
Definition text_content (s : str) : list node :=
  match s with
  | [] => []
  | _ :: _ => [TextNode s]
  end.

(** The two avatars, as the source text spells them. *)
Definition AVATAR_AI : str := [240%N; 376%N; 164%N; 8211%N].
Definition AVATAR_USER : str := [240%N; 376%N; 8216%N; 164%N].

Definition MESSAGE_TEXT_OPEN : str :=
  lit "<div class=" ++ dq :: lit "message-text" ++ dq :: lit ">".

(** [addChatMessage(message, sender)] *)
Definition addChatMessage (message sender : str) : action unit :=
  fun pg =>
    let chatWindow := chatWindow pg in
    match classList_add [lit "chat-message"; sender ++ lit "-message"] [] with
    | Throw => (pg, Throw)
    | Normal messageClasses =>
        let avatarDiv :=
          Element (lit "div") [lit "message-avatar"]
            (text_content
               (if str_eqb sender (lit "ai") then AVATAR_AI
                else AVATAR_USER)) in
        let content :=
          if str_eqb sender (lit "ai") then
            formattedHTML <- parseMarkdown message ;;
            Normal
              (Parsed (lit "div") [lit "message-content"]
                 (MESSAGE_TEXT_OPEN ++ formattedHTML ++ lit "</div>"))
          else
            Normal
              (Element (lit "div") [lit "message-content"]
                 [Element (lit "p") [] (text_content message)]) in
        match content with
        | Throw => (pg, Throw)
        | Normal contentDiv =>
            let messageDiv :=
              Element (lit "div") messageClasses
                (if str_eqb sender (lit "ai")
                 then [avatarDiv; contentDiv]
                 else [contentDiv; avatarDiv]) in
            match chatWindow with
            | None => (pg, Throw)
            | Some children =>
                ({| chatWindow := Some (children ++ [messageDiv]);
                    chatInput := chatInput pg;
                    sendMessageBtn := sendMessageBtn pg;
                    typingIndicator := typingIndicator pg;
                    sessionStorage := sessionStorage pg |},
                 Normal tt)
            end
        end
    end.

(** [indicator.style.display = display], when there is an indicator. *)
Definition set_indicator (display : str) (pg : page) : page :=
  {| chatWindow := chatWindow pg;
     chatInput := chatInput pg;
     sendMessageBtn := sendMessageBtn pg;
     typingIndicator :=
       match typingIndicator pg with
       | Some _ => Some display
       | None => None
       end;
     sessionStorage := sessionStorage pg |}.

Definition showTypingIndicator : action unit :=
  fun pg => (set_indicator (lit "flex") pg, Normal tt).

Definition hideTypingIndicator : action unit :=
  fun pg => (set_indicator (lit "none") pg, Normal tt).

(** Writing to the input and to the button that were looked up. *)
Definition set_input (inp : input_element) (pg : page) : page :=
  {| chatWindow := chatWindow pg;
     chatInput := Some inp;
     sendMessageBtn := sendMessageBtn pg;
     typingIndicator := typingIndicator pg;
     sessionStorage := sessionStorage pg |}.

Definition set_button (flag : bool) (pg : page) : page :=
  {| chatWindow := chatWindow pg;
     chatInput := chatInput pg;
     sendMessageBtn := Some flag;
     typingIndicator := typingIndicator pg;
     sessionStorage := sessionStorage pg |}.

Definition set_storage (st : storage) (pg : page) : page :=
  {| chatWindow := chatWindow pg;
     chatInput := chatInput pg;
     sendMessageBtn := sendMessageBtn pg;
     typingIndicator := typingIndicator pg;
     sessionStorage := st |}.

(** [handleSendMessage]: the part in front of the [await] and the part
    behind it, one after the other. *)
Definition handleSendMessage (h : host) : action unit :=
  fun pg =>
    match chatInput pg with
    | None => (pg, Throw)
    | Some inp =>
        let sendButton := sendMessageBtn pg in
        let message := trim (value inp) in
        if is_empty message then (pg, Normal tt)
        else
          match addChatMessage message (lit "user") pg with
          | (pg, Throw) => (pg, Throw)
          | (pg, Normal _) =>
              let pg := set_input {| value := []; disabled := disabled inp |}
                          pg in
              let pg := set_input {| value := []; disabled := true |} pg in
              match sendButton with
              | None => (pg, Throw)
              | Some _ =>
                  let pg := set_button true pg in
                  let pg := fst (showTypingIndicator pg) in
                  match sendMessageToAI h (sessionStorage pg) message with
                  | Throw => (pg, Throw)
                  | Normal (aiResponse, st) =>
                      let pg := set_storage st pg in
                      let pg := fst (hideTypingIndicator pg) in
                      match addChatMessage aiResponse (lit "ai") pg with
                      | (pg, Throw) => (pg, Throw)
                      | (pg, Normal _) =>
                          let pg :=
                            set_input {| value := []; disabled := false |}
                              pg in
                          let pg := set_button false pg in
                          (pg, Normal tt)
                      end
                  end
              end
          end
    end.

(** ** Notions used to state further properties of the renderer *)

(** What the escaping step makes of one code unit. *)
Definition escape_char (c : char) : str :=
  if char_eqb c 38%N then lit "&amp;"
  else if char_eqb c 60%N then lit "&lt;"
  else if char_eqb c 62%N then lit "&gt;"
  else [c].

(** Three lines in a row that the table parser takes for the start of a
    table, somewhere in the lines: each one has a pipe and the middle one,
    trimmed, passes the separator test. *)
Fixpoint has_table_start (lines : list str) : bool :=
  match lines with
  | l1 :: rest =>
      match rest with
      | l2 :: l3 :: _ =>
          (has_pipe l1 && has_pipe l2 && is_separator (trim l2)
           && has_pipe l3)
          || has_table_start rest
      | _ => false
      end
  | [] => false
  end.

(** The code units that a rule of the renderer reacts to wherever they
    stand: backtick, asterisk, underscore, hyphen, hash and pipe, and the
    line terminators. *)
Definition is_markdown_char (c : char) : bool :=
  existsb (char_eqb c) (lit "`*_-#|") || is_line_terminator c.

(** Sober text: no such code unit in it. *)
Definition sober (s : str) : Prop :=
  forallb (fun c => negb (is_markdown_char c)) s = true.

(** A matcher that cannot match in a text without the code unit [x]. *)
Definition needs (m : matcher) (x : char) : Prop :=
  forall prev s, includes x s = false -> m prev s = None.

(** A matcher that can only match at the start of a line. *)
Definition line_bound (m : matcher) : Prop :=
  forall c s, is_line_terminator c = false -> m (Some c) s = None.

(** A matcher that does not look at the code unit before the index. *)
Definition blind (m : matcher) : Prop :=
  forall p p' s, m p s = m p' s.

(** A matcher whose matches start with the code unit [x]. *)
Definition starts_at (m : matcher) (x : char) : Prop :=
  (forall prev, m prev [] = None)
  /\ forall prev c s, char_eqb c x = false -> m prev (c :: s) = None.

(** The code units that the escaping step keeps as they are. *)
Definition unescaped (c : char) : bool :=
  negb (char_eqb c 38%N || char_eqb c 60%N || char_eqb c 62%N).

(** White space that does not end a line. *)
Definition is_blank_char (c : char) : bool :=
  is_space c && negb (is_line_terminator c).

(** A matcher that never starts a match on a code unit of the class [f]. *)
Definition dead_on (f : char -> bool) (m : matcher) : Prop :=
  forall prev c s, f c = true -> m prev (c :: s) = None.

(** ** Notions used to state the properties of the chat *)

(** The names that the reply is looked up under, in the order of the
    code. *)
Definition reply_names : list str :=
  [lit "response"; lit "message"; lit "output"; lit "text"; lit "reply";
   lit "answer"; lit "ai_response"; lit "result"; lit "data"].

(** [value.name] on a value that is not [null]. *)
Definition field (value : json) (name : str) : option json :=
  match value with
  | JObject fields => own_property name fields
  | _ => None
  end.

(** The first truthy one of the properties with these names. *)
Fixpoint first_truthy (value : json) (names : list str) : option json :=
  match names with
  | [] => None
  | name :: rest =>
      if truthy (field value name) then field value name
      else first_truthy value rest
  end.

(** A host for examples: its engine reads no text and writes the empty
    text, and every request gets the response [r]. *)
Definition example_host (r : completion response) : host :=
  {| JSON_parse := fun _ => Throw;
     JSON_stringify := fun _ _ => [];
     date_iso := lit "2024-01-01T00:00:00.000Z";
     date_now := 1704067200000%N;
     random36 := lit "0.k3j9x0a1b2c";
     fetch := fun _ _ => r |}.

Definition empty_storage : storage :=
  {| available := true; items := []; writable := true |}.

(** A host for examples whose engine reads every text as [data] and writes
    every value as [written]. *)
Definition reading_host (data : completion json) (written : str)
    (r : completion response) : host :=
  {| JSON_parse := fun _ => data;
     JSON_stringify := fun _ _ => written;
     date_iso := lit "2024-01-01T00:00:00.000Z";
     date_now := 1704067200000%N;
     random36 := lit "0.k3j9x0a1b2c";
     fetch := fun _ _ => r |}.

(** The message of the user in the chat window: the text is the only child
    of the paragraph, a text node. *)
Definition user_bubble (message : str) : node :=
  Element (lit "div") [lit "chat-message"; lit "user-message"]
    [Element (lit "div") [lit "message-content"]
       [Element (lit "p") [] [TextNode message]];
     Element (lit "div") [lit "message-avatar"] [TextNode AVATAR_USER]].

(** The reply in the chat window: the markup that the renderer made of
    it. *)
Definition ai_bubble (html : str) : node :=
  Element (lit "div") [lit "chat-message"; lit "ai-message"]
    [Element (lit "div") [lit "message-avatar"] [TextNode AVATAR_AI];
     Parsed (lit "div") [lit "message-content"]
       (MESSAGE_TEXT_OPEN ++ html ++ lit "</div>")].

(** The indicator with another [display], when there is one. *)
Definition indicator_with (display : str) (indicator : option str)
  : option str :=
  match indicator with
  | Some _ => Some display
  | None => None
  end.

(** A page for examples. *)
Definition example_page (text : str) : page :=
  {| chatWindow := Some [];
     chatInput := Some {| value := text; disabled := false |};
     sendMessageBtn := Some false;
     typingIndicator := Some (lit "none");
     sessionStorage := empty_storage |}.

(** * Properties *)

(** ** Strings *)

Lemma char_eqb_eq (a b : char) : char_eqb a b = true <-> a = b.
Proof. apply N.eqb_eq. Qed.

Lemma char_eqb_refl (a : char) : char_eqb a a = true.
Proof. apply N.eqb_refl. Qed.

Lemma char_eqb_neq (a b : char) : char_eqb a b = false <-> a <> b.
Proof. apply N.eqb_neq. Qed.

Lemma char_eqb_sym (a b : char) : char_eqb a b = char_eqb b a.
Proof. apply N.eqb_sym. Qed.

Lemma includes_cons (c d : char) (s : str) :
  includes c (d :: s) = char_eqb c d || includes c s.
Proof. reflexivity. Qed.

Lemma strip_prefix_app (p s : str) : strip_prefix p (p ++ s) = Some s.
Proof.
  induction p as [|a p IH]; simpl; [reflexivity|].
  now rewrite char_eqb_refl.
Qed.

Lemma strip_prefix_neq (a c : char) (p s : str) :
  char_eqb a c = false -> strip_prefix (a :: p) (c :: s) = None.
Proof. intros H. simpl. now rewrite H. Qed.

Lemma strip_prefix_Some (p s r : str) :
  strip_prefix p s = Some r -> s = p ++ r.
Proof.
  revert s; induction p as [|a p IH]; intros s H; simpl in *.
  - now inversion H.
  - destruct s as [|b s]; [discriminate|].
    destruct (char_eqb a b) eqn:E; [|discriminate].
    apply char_eqb_eq in E; subst b. f_equal. now apply IH.
Qed.

(** A prefix test on [s ++ t] succeeds inside [s], or [s] is used up and the
    rest of the pattern is a prefix of [t]. *)
Lemma strip_prefix_app_inv (p s t x : str) :
  strip_prefix p (s ++ t) = Some x ->
  (exists y, strip_prefix p s = Some y)
  \/ (exists q, p = s ++ q /\ strip_prefix q t = Some x).
Proof.
  revert s; induction p as [|a p IH]; intros s H.
  - left. now exists s.
  - destruct s as [|b s].
    + right. exists (a :: p). split; [reflexivity|exact H].
    + simpl in H |- *. destruct (char_eqb a b) eqn:E; [|discriminate].
      apply char_eqb_eq in E; subst b.
      destruct (IH _ H) as [[y Hy]|[q [Hq Hx]]].
      * left. now exists y.
      * right. exists q. split; [now rewrite Hq|exact Hx].
Qed.

Lemma find_first_Some (p s b a : str) :
  find_first p s = Some (b, a) -> s = b ++ p ++ a.
Proof.
  revert b; induction s as [|c s IH]; intros b H.
  - simpl in H. destruct (strip_prefix p []) eqn:E; [|discriminate].
    inversion H; subst. now apply strip_prefix_Some in E.
  - simpl in H. destruct (strip_prefix p (c :: s)) eqn:E.
    + inversion H; subst. now apply strip_prefix_Some in E.
    + destruct (find_first p s) as [[b' a']|] eqn:F; [|discriminate].
      inversion H; subst. simpl. f_equal. now apply IH.
Qed.


(** A pattern whose first code unit does not come back later in it cannot
    overlap itself: behind a text that is free of it, its first occurrence
    is where it is put. *)
Lemma find_first_here (a : char) (p s r : str) :
  ~ In a p ->
  find_first (a :: p) s = None ->
  find_first (a :: p) (s ++ (a :: p) ++ r) = Some (s, r).
Proof.
  intros Ha. induction s as [|c s IH]; intros Hs.
  - change ([] ++ (a :: p) ++ r) with ((a :: p) ++ r).
    destruct ((a :: p) ++ r) eqn:E; [discriminate|].
    unfold find_first; fold find_first. rewrite <- E.
    now rewrite strip_prefix_app.
  - change (find_first (a :: p) (c :: s)) with
      (match strip_prefix (a :: p) (c :: s) with
       | Some r => Some ([], r)
       | None => match find_first (a :: p) s with
                 | Some (b, a0) => Some (c :: b, a0)
                 | None => None
                 end
       end) in Hs.
    destruct (strip_prefix (a :: p) (c :: s)) eqn:E; [discriminate|].
    destruct (find_first (a :: p) s) as [[b' a']|] eqn:F; [discriminate|].
    change ((c :: s) ++ (a :: p) ++ r) with (c :: (s ++ (a :: p) ++ r)).
    change (find_first (a :: p) (c :: s ++ (a :: p) ++ r)) with
      (match strip_prefix (a :: p) (c :: s ++ (a :: p) ++ r) with
       | Some r => Some ([], r)
       | None => match find_first (a :: p) (s ++ (a :: p) ++ r) with
                 | Some (b, a0) => Some (c :: b, a0)
                 | None => None
                 end
       end).
    destruct (strip_prefix (a :: p) (c :: s ++ (a :: p) ++ r)) eqn:E2.
    + exfalso.
      change (c :: s ++ (a :: p) ++ r) with ((c :: s) ++ ((a :: p) ++ r)) in E2.
      apply strip_prefix_app_inv in E2.
      destruct E2 as [[y Hy]|[q [Hq Hx]]]; [congruence|].
      destruct q as [|d q].
      * rewrite app_nil_r in Hq. rewrite Hq in E.
        rewrite <- (app_nil_r (c :: s)) in E at 2.
        rewrite strip_prefix_app in E. discriminate.
      * simpl in Hx. destruct (char_eqb d a) eqn:Ed; [|discriminate].
        apply char_eqb_eq in Ed; subst d.
        inversion Hq; subst. apply Ha. apply in_or_app. right. now left.
    + rewrite (IH eq_refl). reflexivity.
Qed.

Lemma join_split (sep : char) (s : str) :
  join_with sep (split_on sep s) = s.
Proof.
  induction s as [|c s IH]; [reflexivity|].
  simpl. destruct (char_eqb c sep) eqn:E.
  - apply char_eqb_eq in E; subst c.
    destruct (split_on sep s) eqn:F.
    + simpl in IH. now subst s.
    + simpl. f_equal. exact IH.
  - destruct (split_on sep s) as [|l ls] eqn:F.
    + simpl in IH. now subst s.
    + destruct ls; simpl in *; now f_equal.
Qed.

Lemma split_on_nonempty (sep : char) (s : str) : split_on sep s <> [].
Proof.
  destruct s as [|c s]; simpl; [discriminate|].
  destruct (char_eqb c sep); [discriminate|].
  destruct (split_on sep s); discriminate.
Qed.

Lemma split_on_clean (sep : char) (l : str) :
  includes sep l = false -> split_on sep l = [l].
Proof.
  induction l as [|c l IH]; intros H; [reflexivity|].
  simpl in H. apply orb_false_iff in H. destruct H as [H1 H2].
  simpl. unfold char_eqb in *. rewrite N.eqb_sym, H1.
  now rewrite (IH H2).
Qed.

Lemma split_on_app (sep : char) (l s : str) :
  includes sep l = false ->
  split_on sep (l ++ sep :: s) = l :: split_on sep s.
Proof.
  induction l as [|c l IH]; intros H.
  - simpl. now rewrite char_eqb_refl.
  - simpl in H. apply orb_false_iff in H. destruct H as [H1 H2].
    simpl. unfold char_eqb in *. rewrite N.eqb_sym, H1.
    fold (char_eqb). unfold char_eqb in IH. now rewrite (IH H2).
Qed.

(** Splitting what was joined gives the lines back, when no line holds the
    separator. *)
Lemma split_join (sep : char) (ls : list str) :
  ls <> [] ->
  Forall (fun l => includes sep l = false) ls ->
  split_on sep (join_with sep ls) = ls.
Proof.
  induction ls as [|l ls IH]; intros Hne H; [congruence|].
  inversion H as [|? ? Hl Hls]; subst.
  destruct ls as [|l' ls].
  - simpl. now apply split_on_clean.
  - change (join_with sep (l :: l' :: ls))
      with (l ++ sep :: join_with sep (l' :: ls)).
    rewrite split_on_app by exact Hl.
    f_equal. apply IH; [discriminate|exact Hls].
Qed.

Lemma includes_app (c : char) (s t : str) :
  includes c (s ++ t) = includes c s || includes c t.
Proof. unfold includes. now rewrite existsb_app. Qed.

Lemma includes_rev (c : char) (s : str) : includes c (rev s) = includes c s.
Proof.
  induction s as [|d s IH]; [reflexivity|].
  simpl. rewrite includes_app, IH. simpl.
  rewrite orb_false_r. apply orb_comm.
Qed.

Lemma includes_drop_while (c : char) (f : char -> bool) (s : str) :
  includes c s = false -> includes c (drop_while f s) = false.
Proof.
  induction s as [|d s IH]; intros H; [reflexivity|].
  simpl. destruct (f d); [|exact H].
  simpl in H. apply orb_false_iff in H. now apply IH.
Qed.

Lemma includes_trim (c : char) (s : str) :
  includes c s = false -> includes c (trim s) = false.
Proof.
  intros H. unfold trim. rewrite includes_rev.
  apply includes_drop_while. rewrite includes_rev.
  now apply includes_drop_while.
Qed.

Lemma includes_concat (c : char) (ls : list str) :
  Forall (fun l => includes c l = false) ls ->
  includes c (concat ls) = false.
Proof.
  induction 1 as [|l ls Hl _ IH]; [reflexivity|].
  simpl. rewrite includes_app, Hl, IH. reflexivity.
Qed.

Lemma fold_left_append (A : Type) (f : A -> str) (l : list A) (init : str) :
  fold_left (fun html x => html ++ f x) l init = init ++ concat (map f l).
Proof.
  revert init; induction l as [|x l IH]; intros init; simpl.
  - now rewrite app_nil_r.
  - rewrite IH. now rewrite <- app_assoc.
Qed.

(** ** The bounded loops have rounds enough *)

Lemma span_length (f : char -> bool) (s : str) :
  length (snd (span f s)) <= length s.
Proof.
  induction s as [|c s IH]; [apply le_n|].
  cbn [span]. destruct (f c).
  - destruct (span f s) as [a b]. cbn [snd length] in *.
    now apply Nat.le_le_succ_r.
  - apply le_n.
Qed.

Lemma find_first_length (p s b a : str) :
  find_first p s = Some (b, a) -> length a <= length s.
Proof.
  intros H. apply find_first_Some in H. subst s.
  rewrite !length_app. lia.
Qed.

(** More rounds than the text has code units change nothing: the list item
    loop never stops for want of rounds. *)
Lemma items_length_fuel (op cl : str) :
  op <> [] ->
  forall f1 f2 s,
    length s <= f1 -> length s <= f2 ->
    items_length op cl f1 s = items_length op cl f2 s.
Proof.
  intros Hop. induction f1 as [|f1 IH]; intros f2 s H1 H2.
  - destruct s; [|simpl in H1; lia].
    destruct f2; [reflexivity|]. simpl.
    destruct op; [congruence|reflexivity].
  - destruct f2 as [|f2].
    + destruct s; [|simpl in H2; lia]. simpl.
      destruct op; [congruence|reflexivity].
    + simpl. destruct (strip_prefix op s) as [r|] eqn:E; [|reflexivity].
      destruct (find_first cl r) as [[body r']|] eqn:F; [|reflexivity].
      pose proof (span_length is_space r') as Hs.
      destruct (span is_space r') as [ws r''] eqn:G. simpl in Hs.
      pose proof (find_first_length _ _ _ _ F) as Hf.
      apply strip_prefix_Some in E.
      assert (Hl : length r < length s).
      { subst s. rewrite length_app. destruct op; [congruence|simpl; lia]. }
      f_equal. apply IH; lia.
Qed.

Lemma row_length_bounds (s : str) (n : nat) :
  Legacy.row_length s = Some n -> 1 <= n.
Proof.
  unfold Legacy.row_length. destruct s as [|c r]; [discriminate|].
  destruct (char_eqb c pipe); [|discriminate].
  destruct (span not_line_terminator r) as [body r'].
  destruct (_ && _); [|discriminate].
  destruct r' as [|d r'].
  - intros H. injection H as H. lia.
  - destruct (char_eqb d nl); [|discriminate].
    intros H. injection H as H. lia.
Qed.

Lemma round_length_bounds (b : bool) (s : str) (n : nat) :
  Legacy.round_length b s = Some n -> 1 <= n /\ s <> [].
Proof.
  unfold Legacy.round_length. intros H.
  destruct (if b then Legacy.row_length s else None) as [m|] eqn:E.
  - injection H as H. subst m. destruct b; [|discriminate]. split.
    + now apply row_length_bounds in E.
    + destruct s; [discriminate|discriminate].
  - destruct s as [|c r]; [discriminate|].
    destruct (char_eqb c nl); [|discriminate].
    destruct (Legacy.row_length r) as [m|]; [|discriminate].
    injection H as H. split; [lia|discriminate].
Qed.

(** The same for the rounds of the table pattern of [script.js]. *)
Lemma rounds_length_fuel :
  forall f1 f2 b s,
    length s <= f1 -> length s <= f2 ->
    Legacy.rounds_length f1 b s = Legacy.rounds_length f2 b s.
Proof.
  induction f1 as [|f1 IH]; intros f2 b s H1 H2.
  - destruct s; [|simpl in H1; lia].
    destruct f2; [reflexivity|]. simpl. now destruct b.
  - destruct f2 as [|f2].
    + destruct s; [|simpl in H2; lia]. simpl. now destruct b.
    + simpl. destruct (Legacy.round_length b s) as [n|] eqn:E; [|reflexivity].
      apply round_length_bounds in E. destruct E as [Hn Hs].
      f_equal. apply IH; rewrite length_skipn;
        (destruct s; [congruence|cbn [length] in *; lia]).
Qed.

(** ** The table parser *)

Lemma scan_lines_skip (n : nat) (lines : list str) :
  scan_lines n lines = scan_lines 0 (skipn n lines).
Proof.
  revert n; induction lines as [|l rest IH]; intros n.
  - now destruct n.
  - destruct n as [|n]; [reflexivity|]. simpl. apply IH.
Qed.

Lemma collect_rows_length (lines : list str) :
  length (collect_rows lines) <= length lines.
Proof.
  induction lines as [|l rest IH]; simpl; [lia|].
  destruct (has_pipe l); simpl; lia.
Qed.

Lemma collect_rows_firstn (lines : list str) :
  collect_rows lines = map trim (firstn (length (collect_rows lines)) lines).
Proof.
  induction lines as [|l rest IH]; [reflexivity|].
  simpl. destruct (has_pipe l); [|reflexivity].
  simpl. now f_equal.
Qed.

Lemma collect_rows_all (lines : list str) :
  Forall (fun l => has_pipe l = true)
    (firstn (length (collect_rows lines)) lines).
Proof.
  induction lines as [|l rest IH]; [constructor|].
  simpl. destruct (has_pipe l) eqn:E; simpl; constructor; assumption.
Qed.

Lemma collect_rows_end (lines : list str) :
  run_ends (skipn (length (collect_rows lines)) lines).
Proof.
  induction lines as [|l rest IH]; [exact I|].
  simpl. destruct (has_pipe l) eqn:E; simpl; assumption.
Qed.

Lemma collect_rows_run (run rest : list str) :
  Forall (fun l => has_pipe l = true) run ->
  run_ends rest ->
  collect_rows (run ++ rest) = map trim run.
Proof.
  induction 1 as [|l run Hl _ IH]; intros Hrest.
  - destruct rest as [|l rest]; [reflexivity|].
    simpl in *. now rewrite Hrest.
  - simpl. rewrite Hl. f_equal. now apply IH.
Qed.

(** The step of the loop at a line that starts a qualifying run. *)
Lemma scan_lines_table (l : str) (rest : list str) :
  has_pipe l = true ->
  qualifies (collect_rows (l :: rest)) = true ->
  scan_lines 0 (l :: rest)
  = render_table (collect_rows (l :: rest))
    :: scan_lines 0 (skipn (length (collect_rows (l :: rest))) (l :: rest)).
Proof.
  intros Hl Hq.
  change (scan_lines 0 (l :: rest)) with
    (if has_pipe l then
       if qualifies (collect_rows (l :: rest)) then
         render_table (collect_rows (l :: rest))
         :: scan_lines (length (collect_rows (l :: rest)) - 1) rest
       else l :: scan_lines 0 rest
     else l :: scan_lines 0 rest).
  rewrite Hl, Hq. f_equal. rewrite scan_lines_skip. f_equal.
  simpl. rewrite Hl. simpl. now rewrite Nat.sub_0_r.
Qed.

(** The step of the loop at any other line. *)
Lemma scan_lines_line (l : str) (rest : list str) :
  has_pipe l = false \/ qualifies (collect_rows (l :: rest)) = false ->
  scan_lines 0 (l :: rest) = l :: scan_lines 0 rest.
Proof.
  intros H.
  change (scan_lines 0 (l :: rest)) with
    (if has_pipe l then
       if qualifies (collect_rows (l :: rest)) then
         render_table (collect_rows (l :: rest))
         :: scan_lines (length (collect_rows (l :: rest)) - 1) rest
       else l :: scan_lines 0 rest
     else l :: scan_lines 0 rest).
  destruct (has_pipe l); [|reflexivity].
  destruct H as [H|H]; [discriminate|]. now rewrite H.
Qed.

(** The loop on a whole run. *)
Lemma scan_lines_run (run rest : list str) :
  run <> [] ->
  Forall (fun l => has_pipe l = true) run ->
  run_ends rest ->
  qualifies (map trim run) = true ->
  scan_lines 0 (run ++ rest)
  = render_table (map trim run) :: scan_lines 0 rest.
Proof.
  intros Hne Hall Hend Hq.
  destruct run as [|l run]; [congruence|].
  pose proof (@collect_rows_run (l :: run) rest Hall Hend) as Hc.
  assert (Hl : has_pipe l = true) by (now inversion Hall).
  change ((l :: run) ++ rest) with (l :: (run ++ rest)) in *.
  rewrite scan_lines_table by (try rewrite Hc; assumption).
  rewrite Hc. f_equal. rewrite length_map.
  change (l :: run ++ rest) with ((l :: run) ++ rest).
  rewrite skipn_app, skipn_all, Nat.sub_diag. reflexivity.
Qed.

Lemma render_table_eq (rows : list str) : render_table rows = table_of rows.
Proof.
  unfold render_table, table_of.
  rewrite fold_left_append.
  assert (H : forall l init,
    fold_left
      (fun html row =>
         if 0 <? length (cells_of row)
         then fold_left
                (fun html0 cell => html0 ++ lit "<td>" ++ cell ++ lit "</td>")
                (cells_of row) (html ++ lit "<tr>") ++ lit "</tr>"
         else html) l init
    = init ++ concat (map tr_of l)).
  { induction l as [|row l IH]; intros init; simpl.
    - now rewrite app_nil_r.
    - rewrite IH. unfold tr_of at 2.
      destruct (cells_of row) as [|c cs] eqn:E.
      + simpl. reflexivity.
      + cbv beta. change (0 <? length (c :: cs)) with true. cbv iota.
        rewrite fold_left_append. unfold td_of.
        now rewrite <- !app_assoc. }
  rewrite H. unfold th_of. now rewrite <- !app_assoc.
Qed.

Lemma split_on_no_sep (sep : char) (s : str) :
  Forall (fun l => includes sep l = false) (split_on sep s).
Proof.
  induction s as [|c s IH]; simpl.
  - constructor; [reflexivity|constructor].
  - destruct (char_eqb c sep) eqn:E.
    + constructor; [reflexivity|exact IH].
    + destruct (split_on sep s) as [|l ls].
      * constructor; [|constructor]. simpl.
        unfold char_eqb in *. rewrite N.eqb_sym, E. reflexivity.
      * inversion IH; subst. constructor; [|assumption].
        simpl. unfold char_eqb in *. rewrite N.eqb_sym, E. assumption.
Qed.

Lemma cells_of_no_pipe (row : str) :
  Forall (fun cell => includes pipe cell = false) (cells_of row).
Proof.
  unfold cells_of. apply Forall_forall. intros cell Hin.
  apply filter_In in Hin. destruct Hin as [Hin _].
  apply in_map_iff in Hin. destruct Hin as [x [Hx Hin]]. subst cell.
  apply includes_trim.
  pose proof (split_on_no_sep pipe row) as H.
  rewrite Forall_forall in H. now apply H.
Qed.

(** The table has no pipe left in it. *)
Lemma table_of_no_pipe (rows : list str) :
  includes pipe (table_of rows) = false.
Proof.
  assert (Hth : forall row,
    includes pipe (concat (map th_of (cells_of row))) = false).
  { intros row. apply includes_concat. apply Forall_forall.
    intros x Hx. apply in_map_iff in Hx. destruct Hx as [cell [Hc Hin]].
    subst x. pose proof (cells_of_no_pipe row) as H.
    rewrite Forall_forall in H. unfold th_of.
    rewrite !includes_app, (H _ Hin). reflexivity. }
  assert (Htr : forall row, includes pipe (tr_of row) = false).
  { intros row. unfold tr_of.
    pose proof (cells_of_no_pipe row) as H.
    destruct (cells_of row) as [|c cs]; [reflexivity|].
    rewrite !includes_app. rewrite includes_concat; [reflexivity|].
    apply Forall_forall. intros x Hx. apply in_map_iff in Hx.
    destruct Hx as [cell [Hc Hin]]. subst x.
    rewrite Forall_forall in H. unfold td_of.
    rewrite !includes_app, (H _ Hin). reflexivity. }
  unfold table_of. rewrite !includes_app, Hth.
  rewrite includes_concat; [reflexivity|].
  apply Forall_forall. intros x Hx. apply in_map_iff in Hx.
  destruct Hx as [row [Hr _]]. subst x. apply Htr.
Qed.

Lemma has_pipe_includes (l : str) : has_pipe l = true -> includes pipe l = true.
Proof.
  unfold has_pipe. intros H.
  destruct (includes pipe l) eqn:E; [reflexivity|].
  now rewrite (includes_trim _ _ E) in H.
Qed.

Lemma is_separator_char_spec (c : char) :
  is_separator_char c = true
  <-> (c = pipe \/ c = 45%N \/ c = 58%N \/ is_space c = true).
Proof.
  unfold is_separator_char. rewrite !orb_true_iff, !char_eqb_eq. tauto.
Qed.

Lemma is_separator_spec (s : str) :
  is_separator s = true <-> separator_line s.
Proof.
  unfold separator_line. destruct s as [|c s].
  - simpl. split; [discriminate|]. intros [H _]. congruence.
  - unfold is_separator. rewrite forallb_forall, Forall_forall.
    split.
    + intros H. split; [discriminate|].
      intros x Hx. apply is_separator_char_spec. now apply H.
    + intros [_ H] x Hx. apply is_separator_char_spec. now apply H.
Qed.

Lemma qualifies_spec (run : list str) :
  qualifies run = true
  <-> (3 <= length run /\ separator_line (nth 1 run [])).
Proof.
  unfold qualifies. rewrite andb_true_iff, Nat.leb_le, is_separator_spec.
  tauto.
Qed.

(** The loop replaces the table runs and keeps everything else. *)
Lemma scan_lines_extracts (lines : list str) :
  extracts lines (scan_lines 0 lines).
Proof.
  remember (length lines) as n eqn:Hn.
  revert lines Hn. induction n as [n IH] using lt_wf_ind. intros lines Hn.
  destruct lines as [|l rest]; [constructor|].
  destruct (has_pipe l) eqn:Hl.
  - destruct (qualifies (collect_rows (l :: rest))) eqn:Hq.
    + rewrite scan_lines_table by assumption.
      set (k := length (collect_rows (l :: rest))).
      assert (Hk : 1 <= k <= length (l :: rest)).
      { subst k. split; [|apply collect_rows_length].
        simpl. rewrite Hl. simpl. lia. }
      rewrite (collect_rows_firstn (l :: rest)). fold k.
      rewrite <- (firstn_skipn k (l :: rest)) at 1.
      apply extracts_table.
      * destruct k; [lia|]. discriminate.
      * apply collect_rows_all.
      * apply collect_rows_end.
      * unfold k. rewrite <- collect_rows_firstn. exact Hq.
      * apply (IH (length (skipn k (l :: rest)))); [|reflexivity].
        rewrite length_skipn. subst n. lia.
    + rewrite scan_lines_line by (now right).
      apply extracts_line; [now right|].
      apply (IH (length rest)); [subst n; simpl; lia|reflexivity].
  - rewrite scan_lines_line by (now left).
    apply extracts_line; [now left|].
    apply (IH (length rest)); [subst n; simpl; lia|reflexivity].
Qed.

Lemma parseTable_eq (text : str) :
  parseTable text = Normal (join_with nl (scan_lines 0 (split_on nl text))).
Proof. reflexivity. Qed.

(** Without a pipe in it, a text comes back from [parseTable] as it is. *)
Lemma scan_lines_no_pipe (lines : list str) :
  Forall (fun l => includes pipe l = false) lines ->
  scan_lines 0 lines = lines.
Proof.
  induction 1 as [|l rest Hl _ IH]; [reflexivity|].
  rewrite scan_lines_line.
  - now rewrite IH.
  - left. unfold has_pipe. now apply includes_trim.
Qed.

Lemma includes_split (c sep : char) (s : str) :
  includes c s = false ->
  Forall (fun l => includes c l = false) (split_on sep s).
Proof.
  induction s as [|d s IH]; intros H; simpl.
  - constructor; [reflexivity|constructor].
  - simpl in H. apply orb_false_iff in H. destruct H as [H1 H2].
    specialize (IH H2). destruct (char_eqb d sep).
    + constructor; [reflexivity|exact IH].
    + destruct (split_on sep s) as [|l ls].
      * constructor; [|constructor]. simpl. now rewrite H1.
      * inversion IH; subst. constructor; [|assumption].
        simpl. now rewrite H1.
Qed.

Lemma parseTable_no_pipe (text : str) :
  includes pipe text = false -> parseTable text = Normal text.
Proof.
  intros H. rewrite parseTable_eq.
  rewrite scan_lines_no_pipe by (now apply includes_split).
  now rewrite join_split.
Qed.

(** ** Runs of lines with pipes *)

Lemma qualifies_trim (run : list str) :
  qualifies (map trim run) = true <-> run_qualifies run.
Proof.
  rewrite qualifies_spec. unfold run_qualifies. rewrite length_map.
  change (@nil N) with (trim []) at 1. now rewrite map_nth.
Qed.

Lemma run_qualifies_dec (run : list str) :
  run_qualifies run \/ ~ run_qualifies run.
Proof.
  rewrite <- qualifies_trim. destruct (qualifies (map trim run)); auto.
Qed.

(** A run that is followed by a line without a pipe is collected up to
    that line, whatever comes behind. *)
Lemma collect_rows_before (before rest : list str) :
  before <> [] -> has_pipe (last before []) = false ->
  collect_rows (before ++ rest) = collect_rows before
  /\ length (collect_rows before) < length before.
Proof.
  induction before as [|l b IH]; intros Hne Hlast; [congruence|].
  cbn [app collect_rows]. destruct (has_pipe l) eqn:Hl.
  - destruct b as [|l' b'].
    + change (has_pipe l = false) in Hlast. congruence.
    + destruct IH as [IH1 IH2]; [discriminate|exact Hlast|].
      rewrite IH1. split; [reflexivity|]. cbn [length] in *. lia.
  - split; [reflexivity|]. cbn [length]. lia.
Qed.

Lemma last_skipn (k : nat) (l : list str) :
  k < length l -> last (skipn k l) [] = last l [].
Proof.
  revert l. induction k as [|k IH]; intros l Hk; [reflexivity|].
  destruct l as [|x l]; [cbn in Hk; lia|].
  cbn [skipn]. rewrite IH by (cbn in Hk; lia).
  destruct l; [cbn in Hk; lia|reflexivity].
Qed.

(** The scan of the lines in front of a run does not reach into the run. *)
Lemma scan_lines_before (before rest : list str) :
  run_starts before ->
  scan_lines 0 (before ++ rest) = scan_lines 0 before ++ scan_lines 0 rest.
Proof.
  remember (length before) as n eqn:Hn. revert before Hn.
  induction n as [n IH] using lt_wf_ind. intros before Hn Hs.
  destruct before as [|l b]; [reflexivity|].
  destruct Hs as [Hs|Hs]; [discriminate|].
  assert (Hb : run_starts b).
  { destruct b as [|l' b']; [now left|right; exact Hs]. }
  change ((l :: b) ++ rest) with (l :: (b ++ rest)).
  destruct (has_pipe l) eqn:Hl.
  - destruct (collect_rows_before (l :: b) rest ltac:(discriminate) Hs)
      as [Hc Hlen].
    change ((l :: b) ++ rest) with (l :: (b ++ rest)) in Hc.
    destruct (qualifies (collect_rows (l :: b))) eqn:Hq.
    + rewrite scan_lines_table by (try rewrite Hc; assumption).
      rewrite (scan_lines_table l b Hl Hq). rewrite Hc.
      set (k := length (collect_rows (l :: b))) in *.
      cbn [app]. f_equal.
      change (l :: b ++ rest) with ((l :: b) ++ rest).
      rewrite skipn_app.
      replace (k - length (l :: b)) with 0 by lia. cbn [skipn].
      assert (Hk : 1 <= k).
      { subst k. cbn [collect_rows]. rewrite Hl. cbn [length]. lia. }
      apply (IH (length (skipn k (l :: b)))); [|reflexivity|].
      * rewrite length_skipn. subst n. lia.
      * right. rewrite last_skipn by exact Hlen. exact Hs.
    + rewrite scan_lines_line by (right; rewrite Hc; exact Hq).
      rewrite (scan_lines_line l b) by (now right).
      cbn [app]. f_equal.
      apply (IH (length b)); [subst n; cbn; lia|reflexivity|exact Hb].
  - rewrite !scan_lines_line by (now left). cbn [app]. f_equal.
    apply (IH (length b)); [subst n; cbn; lia|reflexivity|exact Hb].
Qed.

(** The lines of a run are passed on one by one as long as the rest of the
    run does not pass the test. *)
Lemma scan_lines_skipped (skipped suffix after : list str) :
  Forall (fun l => has_pipe l = true) (skipped ++ suffix) ->
  run_ends after ->
  (forall k, k < length skipped ->
             ~ run_qualifies (skipn k (skipped ++ suffix))) ->
  scan_lines 0 (skipped ++ suffix ++ after)
  = skipped ++ scan_lines 0 (suffix ++ after).
Proof.
  induction skipped as [|l sk IH]; intros Hall Hend Hno; [reflexivity|].
  cbn [app]. rewrite scan_lines_line.
  - f_equal. apply IH; [now inversion Hall|exact Hend|].
    intros k Hk. apply (Hno (S k)). cbn [length]. lia.
  - right. change (l :: sk ++ suffix ++ after)
      with ((l :: sk) ++ suffix ++ after).
    rewrite app_assoc.
    rewrite (collect_rows_run ((l :: sk) ++ suffix) after Hall Hend).
    destruct (qualifies _) eqn:Hq; [|reflexivity].
    apply qualifies_trim in Hq. exfalso.
    apply (Hno 0); [cbn [length]; lia|exact Hq].
Qed.

(** A run splits at its first part that passes the test, if it has one. *)
Lemma first_qualifying (run : list str) :
  (forall k, ~ run_qualifies (skipn k run))
  \/ exists skipped suffix,
       run = skipped ++ suffix /\ run_qualifies suffix
       /\ forall k, k < length skipped -> ~ run_qualifies (skipn k run).
Proof.
  induction run as [|l r IH].
  - left. intros k [H _]. destruct k; cbn in H; lia.
  - destruct (run_qualifies_dec (l :: r)) as [Hq|Hq].
    + right. exists [], (l :: r). split; [reflexivity|]. split; [exact Hq|].
      intros k Hk. cbn in Hk. lia.
    + destruct IH as [IH|[sk [sf [He [Hs Hn]]]]].
      * left. intros [|k]; [exact Hq|apply IH].
      * right. exists (l :: sk), sf. split; [now rewrite He|].
        split; [exact Hs|]. intros [|k] Hk; [exact Hq|].
        apply Hn. cbn in Hk. lia.
Qed.

(** A line with a pipe is not a table. *)
Lemma pipe_line_not_table (l : str) (rows : list str) :
  has_pipe l = true -> l <> table_of rows.
Proof.
  intros Hl E. apply has_pipe_includes in Hl.
  rewrite E, table_of_no_pipe in Hl. discriminate.
Qed.

(** What the loop makes of a run. *)
Lemma scan_lines_no_table (run after : list str) :
  Forall (fun l => has_pipe l = true) run -> run_ends after ->
  (forall k, ~ run_qualifies (skipn k run)) ->
  scan_lines 0 (run ++ after) = run ++ scan_lines 0 after.
Proof.
  intros Hall Hend Hno.
  pose proof (scan_lines_skipped run [] after) as H.
  rewrite app_nil_r in H. apply H; auto.
Qed.

Lemma scan_lines_first_table (skipped suffix after : list str) :
  Forall (fun l => has_pipe l = true) (skipped ++ suffix) ->
  run_ends after -> run_qualifies suffix ->
  (forall k, k < length skipped ->
             ~ run_qualifies (skipn k (skipped ++ suffix))) ->
  scan_lines 0 ((skipped ++ suffix) ++ after)
  = skipped ++ table_of (map trim suffix) :: scan_lines 0 after.
Proof.
  intros Hall Hend Hq Hno. rewrite <- app_assoc.
  rewrite scan_lines_skipped by assumption. f_equal.
  apply Forall_app in Hall. destruct Hall as [_ Hsf].
  rewrite scan_lines_run; [now rewrite render_table_eq| |exact Hsf|exact Hend|
                            now apply qualifies_trim].
  destruct Hq as [Hq _]. destruct suffix; [cbn in Hq; lia|discriminate].
Qed.

(** ** What the table parser guarantees *)

(** C3.  A run of lines with pipes that fails the test is not passed on
    as a whole: only its first line is, and the test is made again on what
    is left of the run.  The four lines of this run do not pass the test,
    because the second line is not a separator line, and still the last
    three of them come back as a table. *)
Lemma C3_counterexample :
  let run := [lit "x | y"; lit "| a | b |"; lit "|---|---|"; lit "| 1 | 2 |"] in
  Forall (fun l => has_pipe l = true) run
  /\ ~ run_qualifies run
  /\ parseTable (join_with nl run)
     = Normal (lit "x | y" ++ nl :: TABLE_OPEN
               ++ lit "<thead><tr><th>a</th><th>b</th></tr></thead>"
               ++ lit "<tbody><tr><td>1</td><td>2</td></tr></tbody></table>")
  /\ parseTable (join_with nl run) <> Normal (join_with nl run).
Proof.
  intros run. split; [repeat constructor|]. split; [|split].
  - intros H. apply qualifies_trim in H. vm_compute in H. discriminate.
  - vm_compute. reflexivity.
  - vm_compute. discriminate.
Qed.

(** C3.  A run of lines with pipes, from the start of the text or a line
    without a pipe to the end of the text or the next line without a pipe.
    The whole run becomes one table if and only if it has three lines or
    more and its second line, trimmed, is made of pipes, hyphens, colons
    and white space only.  A run that fails this test is gone through line
    by line: the lines in front of the first part of the run that passes
    the test are passed on unchanged and that part, up to the end of the
    run, becomes one table.  The run is passed on unchanged as a whole if
    and only if no part of it that reaches to its end passes the test, as
    is the case for every run of one or two lines.  The lines of the text
    are the lines around the run as the table parser leaves them, with
    what the run has become between them. *)
Theorem C3_run_rendering (before run after : list str) :
  run_starts before -> run <> [] ->
  Forall (fun l => has_pipe l = true) run -> run_ends after ->
  let out := scan_lines 0 (before ++ run ++ after) in
  let around :=
    fun mid => scan_lines 0 before ++ mid ++ scan_lines 0 after in
  (out = around [table_of (map trim run)] <-> run_qualifies run)
  /\ (forall skipped suffix,
        run = skipped ++ suffix -> run_qualifies suffix ->
        (forall k, k < length skipped -> ~ run_qualifies (skipn k run)) ->
        out = around (skipped ++ [table_of (map trim suffix)]))
  /\ (out = around run <-> forall k, ~ run_qualifies (skipn k run))
  /\ (length run <= 2 -> out = around run)
  /\ (Forall (fun l => includes nl l = false) (before ++ run ++ after) ->
      parseTable (join_with nl (before ++ run ++ after))
      = Normal (join_with nl out)).
Proof.
  intros Hs Hne Hall Hend out around.
  assert (Hout : out = scan_lines 0 before ++ scan_lines 0 (run ++ after)).
  { apply scan_lines_before. exact Hs. }
  assert (Hfirst : forall skipped suffix,
    run = skipped ++ suffix -> run_qualifies suffix ->
    (forall k, k < length skipped -> ~ run_qualifies (skipn k run)) ->
    out = around (skipped ++ [table_of (map trim suffix)])).
  { intros sk sf He Hq Hno. rewrite Hout. unfold around. f_equal.
    subst run. rewrite scan_lines_first_table by assumption.
    now rewrite <- app_assoc. }
  assert (Hnone : (forall k, ~ run_qualifies (skipn k run)) ->
                  out = around run).
  { intros Hno. rewrite Hout. unfold around. f_equal.
    now apply scan_lines_no_table. }
  assert (Hhead : forall sk sf rest rest',
    run = sk ++ sf -> run_qualifies sf ->
    sk ++ table_of (map trim sf) :: rest = sk ++ sf ++ rest' -> False).
  { intros sk sf rest rest' He [Hlen _] E. apply app_inv_head in E.
    destruct sf as [|l sf]; [cbn in Hlen; lia|].
    injection E as E _. symmetry in E.
    apply (pipe_line_not_table l (map trim (l :: sf))); [|exact E].
    subst run. apply Forall_app in Hall. destruct Hall as [_ Hall].
    now inversion Hall. }
  split; [|split; [|split; [|split]]].
  - split.
    + intros E. destruct (run_qualifies_dec run) as [Hq|Hq]; [exact Hq|].
      exfalso. destruct (first_qualifying run) as [Hno|[sk [sf [He [Hsf Hno]]]]].
      * rewrite (Hnone Hno) in E. unfold around in E.
        apply app_inv_head in E. destruct run as [|l r]; [congruence|].
        injection E as E _.
        apply (pipe_line_not_table l (map trim (l :: r)));
          [now inversion Hall|exact E].
      * rewrite (Hfirst sk sf He Hsf Hno) in E. unfold around in E.
        apply app_inv_head in E. destruct sk as [|l sk].
        { cbn [app] in He. subst sf. contradiction. }
        destruct run as [|l' r]; [congruence|].
        injection He as -> _. injection E as E _.
        apply (pipe_line_not_table l (map trim (l :: r)));
          [now inversion Hall|exact E].
    + intros Hq. rewrite (Hfirst [] run eq_refl Hq); [reflexivity|].
      intros k Hk. cbn in Hk. lia.
  - exact Hfirst.
  - split; [|exact Hnone].
    intros E k Hk.
    destruct (first_qualifying run) as [Hno|[sk [sf [He [Hsf Hno]]]]];
      [exact (Hno k Hk)|].
    rewrite (Hfirst sk sf He Hsf Hno) in E. unfold around in E.
    apply app_inv_head in E. rewrite He in E.
    rewrite <- !app_assoc in E. cbn [app] in E.
    exact (Hhead sk sf _ _ He Hsf E).
  - intros Hlen. apply Hnone. intros k [Hk _].
    rewrite length_skipn in Hk. lia.
  - intros Hnl. rewrite parseTable_eq, split_join; [reflexivity| |exact Hnl].
    destruct before; [destruct run; [congruence|discriminate]|discriminate].
Qed.

Lemma C3_witness :
  scan_lines 0
    ([lit "Intro"]
     ++ [lit "x | y"; lit "| a | b |"; lit "|---|---|"; lit "| 1 | 2 |"]
     ++ [lit "Outro"])
  = [lit "Intro"]
    ++ ([lit "x | y"]
        ++ [table_of [lit "| a | b |"; lit "|---|---|"; lit "| 1 | 2 |"]])
    ++ [lit "Outro"].
Proof.
  refine (proj1 (proj2
            (C3_run_rendering [lit "Intro"]
               [lit "x | y"; lit "| a | b |"; lit "|---|---|"; lit "| 1 | 2 |"]
               [lit "Outro"] _ _ _ _))
            [lit "x | y"] [lit "| a | b |"; lit "|---|---|"; lit "| 1 | 2 |"]
            eq_refl _ _).
  - right. reflexivity.
  - discriminate.
  - repeat constructor.
  - reflexivity.
  - apply qualifies_trim. reflexivity.
  - intros k Hk Hq. apply qualifies_trim in Hq.
    destruct k as [|k]; [discriminate Hq|]. cbn in Hk. lia.
Defined.

(** C4.  For a run that qualifies the loop pushes exactly one element, the
    table: the opening tag with the class, one [th] per non-empty trimmed
    cell of the first line, nothing for the separator line, one [tr] with one
    [td] per non-empty trimmed cell for every later line that has such
    cells, and no [tr] for a line without any.  A text that is just the run
    comes back as that table, and so does the three line example table from
    the renderer. *)
Theorem C4_table_shape (run rest : list str) :
  run <> [] ->
  Forall (fun l => has_pipe l = true) run ->
  run_ends rest ->
  qualifies (map trim run) = true ->
  scan_lines 0 (run ++ rest) = table_of (map trim run) :: scan_lines 0 rest
  /\ (Forall (fun l => includes nl l = false) run ->
      parseTable (join_with nl run) = Normal (table_of (map trim run)))
  /\ (forall row, cells_of row = [] -> tr_of row = [])
  /\ render (js "| a | b |\n|---|---|\n| 1 | 2 |")
     = Normal (TABLE_OPEN
               ++ lit "<thead><tr><th>a</th><th>b</th></tr></thead>"
               ++ lit "<tbody><tr><td>1</td><td>2</td></tr></tbody></table>").
Proof.
  intros Hne Hall Hend Hq.
  split; [|split; [|split]].
  - rewrite scan_lines_run by assumption. now rewrite render_table_eq.
  - intros Hnl. rewrite parseTable_eq, split_join by assumption.
    rewrite <- (app_nil_r run) at 1.
    rewrite scan_lines_run by (assumption || exact I).
    now rewrite render_table_eq.
  - intros row H. unfold tr_of. now rewrite H.
  - vm_compute. reflexivity.
Qed.

Lemma C4_witness :
  let run := [lit "| a | b |"; lit "|---|---|"; lit "| 1 | 2 |"; lit " | "] in
  scan_lines 0 (run ++ [lit "Outro"])
  = [TABLE_OPEN
     ++ lit "<thead><tr><th>a</th><th>b</th></tr></thead>"
     ++ lit "<tbody><tr><td>1</td><td>2</td></tr></tbody></table>";
     lit "Outro"].
Proof.
  intros run.
  refine (eq_trans (proj1 (C4_table_shape run [lit "Outro"] _ _ _ _)) _).
  - discriminate.
  - repeat constructor.
  - reflexivity.
  - reflexivity.
  - vm_compute. reflexivity.
Defined.

(** C8.  The table parser returns the lines of its input joined by line
    feeds again, where every table run has become one table and every other
    line is there unchanged and in its place; splitting and joining lose
    nothing, line breaks included. *)
Theorem C8_non_table_content_kept (text : str) :
  exists out,
    parseTable text = Normal (join_with nl out)
    /\ extracts (split_on nl text) out
    /\ join_with nl (split_on nl text) = text.
Proof.
  exists (scan_lines 0 (split_on nl text)).
  split; [apply parseTable_eq|split].
  - apply scan_lines_extracts.
  - apply join_split.
Qed.

(** ** What the renderer guarantees *)

(** The renderer written out: no step of the [try] block throws. *)
Lemma render_eq (text : str) :
  render text
  = Normal
      (let html := join_with nl (scan_lines 0 (split_on nl text)) in
       restore_tables (snd (protect_tables html))
         (paragraphs
            (restore_markers (snd (protect_tables html))
               (markup (escape_html (fst (protect_tables html))))))).
Proof.
  unfold render, parseMarkdown, parseMarkdown_with, parseMarkdown_body.
  rewrite parseTable_eq. cbv zeta. unfold bind.
  destruct (protect_tables _) as [html tables]. reflexivity.
Qed.

(** C1 (what the code does).  The text of a table cell reaches the output
    as it was written: the tags of the input are not escaped there.  Outside
    a table they are, as in the example of the script tag. *)
Theorem C1_table_cells_not_escaped :
  render (js "| <script>alert(1)</script> | b |\n|---|---|\n| 1 | 2 |")
  = Normal (TABLE_OPEN
            ++ lit "<thead><tr><th><script>alert(1)</script></th><th>b</th>"
            ++ lit "</tr></thead><tbody><tr><td>1</td><td>2</td></tr>"
            ++ lit "</tbody></table>")
  /\ render (js "<script>alert(1)</script>")
     = Normal (lit "<p>&lt;script&gt;alert(1)&lt;/script&gt;</p>").
Proof. split; vm_compute; reflexivity. Qed.

(** C2.  The renderer returns a string for every input string and never
    throws; for the empty string it returns the empty string: the wrapping
    step makes the empty paragraph of it, and the clean-up of empty
    paragraphs takes that away. *)
Theorem C2_render_total :
  (forall text, exists html, render text = Normal html)
  /\ render [] = Normal []
  /\ replace_all (re_lit (lit "<p></p>") []) (lit "<p>" ++ [] ++ lit "</p>")
     = [].
Proof.
  split; [|split].
  - intros text. rewrite render_eq. eexists. reflexivity.
  - vm_compute. reflexivity.
  - vm_compute. reflexivity.
Qed.

(** C7 (what the code does).  When the body of the [try] block throws, the
    handler returns the input with the two angle brackets replaced and
    wrapped in one paragraph; the ampersand stays as it is, whereas the
    escaping step of the renderer replaces it too. *)
Theorem C7_fallback_keeps_ampersand :
  (forall text,
     parseMarkdown_with (fun _ => Throw) text
     = Normal (parseMarkdown_fallback text))
  /\ parseMarkdown_with (fun _ => Throw) (lit "a&b<c>")
     = Normal (lit "<p>a&b&lt;c&gt;</p>")
  /\ lit "<p>" ++ escape_html (lit "a&b<c>") ++ lit "</p>"
     = lit "<p>a&amp;b&lt;c&gt;</p>".
Proof.
  split; [|split].
  - reflexivity.
  - vm_compute. reflexivity.
  - vm_compute. reflexivity.
Qed.

(** C9 (what the code does).  Two asterisks make bold text, and two bold
    spans on a line stay two elements; two underscores do not make bold
    text in the renderer: the italic rule takes the inner pair.  The
    renderer of [script.js] has the rule for two underscores. *)
Theorem C9_double_underscore_not_bold :
  render (js "__text__") = Normal (lit "<p>_<em>text</em>_</p>")
  /\ render (js "**text**") = Normal (lit "<p><strong>text</strong></p>")
  /\ render (js "**a** **b**")
     = Normal (lit "<p><strong>a</strong> <strong>b</strong></p>")
  /\ Legacy.parseMarkdown (js "__text__") = lit "<strong>text</strong>"
  /\ Legacy.parseMarkdown (js "**a** __b__")
     = lit "<strong>a</strong> <strong>b</strong>".
Proof. repeat split; vm_compute; reflexivity. Qed.

(** ** Protecting and restoring tables *)


Lemma not_in_includes (c : char) (s : str) :
  includes c s = false -> ~ In c s.
Proof.
  intros H Hin. unfold includes in H.
  assert (existsb (char_eqb c) s = true).
  { apply existsb_exists. exists c. split; [exact Hin|apply char_eqb_refl]. }
  congruence.
Qed.

Lemma contains_false (p s : str) :
  contains p s = false -> find_first p s = None.
Proof.
  unfold contains. now destruct (find_first p s).
Qed.

(** The protecting pattern matches a whole fragment whose body has no
    closing tag of its own. *)
Lemma match_table_fragment (body rest : str) :
  contains TABLE_CLOSE body = false ->
  match_table (TABLE_OPEN ++ body ++ TABLE_CLOSE ++ rest)
  = Some (TABLE_OPEN ++ body ++ TABLE_CLOSE).
Proof.
  intros H. unfold match_table. rewrite strip_prefix_app.
  apply contains_false in H.
  change TABLE_CLOSE with (60%N :: lit "/table>") in *.
  rewrite find_first_here; [reflexivity| |exact H].
  apply not_in_includes. reflexivity.
Qed.


Lemma get_substitution_no_dollar (matched before after repl : str) :
  includes dollar repl = false ->
  get_substitution matched before after repl = repl.
Proof.
  induction repl as [|c t IH]; intros H; [reflexivity|].
  rewrite includes_cons in H. apply orb_false_iff in H. destruct H as [H1 H2].
  rewrite char_eqb_sym in H1.
  cbn [get_substitution]. rewrite H1. now rewrite (IH H2).
Qed.

(** A table without a dollar is put back as it is. *)
Lemma restore_single (table : str) :
  includes dollar table = false ->
  restore_tables [table] (marker 0) = table.
Proof.
  intros H. unfold restore_tables, for_each_from, replace_first.
  replace (find_first (marker 0) (marker 0)) with (Some (@nil char, @nil char))
    by (vm_compute; reflexivity).
  rewrite get_substitution_no_dollar by exact H.
  now rewrite app_nil_r.
Qed.

(** What the steps between protecting and restoring make of the token of
    the first table when it stands alone. *)
Lemma token_alone (table : str) :
  paragraphs
    (restore_markers [table] (markup (escape_html (placeholder 0))))
  = marker 0.
Proof. vm_compute. reflexivity. Qed.


(** *** Text without the first code unit of a pattern *)

Lemma find_first_clean (a : char) (p s x : str) :
  includes a s = false ->
  find_first (a :: p) (s ++ x)
  = match find_first (a :: p) x with
    | Some (b, r) => Some (s ++ b, r)
    | None => None
    end.
Proof.
  induction s as [|c s IH]; intros H.
  - simpl. now destruct (find_first (a :: p) x) as [[b r]|].
  - rewrite includes_cons in H. apply orb_false_iff in H.
    destruct H as [H1 H2].
    change ((c :: s) ++ x) with (c :: (s ++ x)).
    change (find_first (a :: p) (c :: s ++ x)) with
      (match strip_prefix (a :: p) (c :: s ++ x) with
       | Some r => Some ([], r)
       | None => match find_first (a :: p) (s ++ x) with
                 | Some (b, a0) => Some (c :: b, a0)
                 | None => None
                 end
       end).
    rewrite strip_prefix_neq by exact H1. rewrite (IH H2).
    now destruct (find_first (a :: p) x) as [[b r]|].
Qed.

Lemma find_first_at (p r : str) :
  p <> [] -> find_first p (p ++ r) = Some ([], r).
Proof.
  intros Hne. destruct (p ++ r) as [|c t] eqn:E.
  - destruct p; [congruence|discriminate].
  - unfold find_first; fold find_first. rewrite <- E.
    now rewrite strip_prefix_app.
Qed.

(** Behind text without its first code unit, a pattern is found where it
    stands. *)
Lemma find_first_behind (a : char) (p s r : str) :
  includes a s = false ->
  find_first (a :: p) (s ++ (a :: p) ++ r) = Some (s, r).
Proof.
  intros H. rewrite find_first_clean by exact H.
  rewrite find_first_at by discriminate. now rewrite app_nil_r.
Qed.

Lemma replace_first_behind (a : char) (p repl s r : str) :
  includes a s = false -> includes dollar repl = false ->
  replace_first (a :: p) repl (s ++ (a :: p) ++ r) = s ++ repl ++ r.
Proof.
  intros H Hd. unfold replace_first.
  rewrite find_first_behind by exact H.
  now rewrite get_substitution_no_dollar.
Qed.

Lemma match_table_clean (c : char) (s : str) :
  char_eqb 60%N c = false -> match_table (c :: s) = None.
Proof.
  intros H. unfold match_table.
  change TABLE_OPEN
    with (60%N :: lit "table class=" ++ dq :: lit "chat-table" ++ dq :: lit ">").
  now rewrite strip_prefix_neq.
Qed.

(** Text without an opening angle bracket is copied by the protecting
    step. *)
Lemma protect_from_clean (tables : list str) (w s : str) :
  includes 60%N w = false ->
  protect_from tables 0 (w ++ s)
  = (w ++ fst (protect_from tables 0 s), snd (protect_from tables 0 s)).
Proof.
  induction w as [|c w IH]; intros H.
  - simpl. now destruct (protect_from tables 0 s).
  - rewrite includes_cons in H. apply orb_false_iff in H.
    destruct H as [H1 H2].
    change ((c :: w) ++ s) with (c :: (w ++ s)).
    unfold protect_from; fold protect_from.
    rewrite (match_table_clean _ _ H1), (IH H2). reflexivity.
Qed.

Lemma protect_from_skip (tables : list str) (x s : str) (k : nat) :
  protect_from tables (length x + k) (x ++ s) = protect_from tables k s.
Proof.
  induction x as [|c x IH]; [reflexivity|]. exact IH.
Qed.

Lemma protect_from_match (tables : list str) (c : char) (s matched : str) :
  match_table (c :: s) = Some matched ->
  protect_from tables 0 (c :: s)
  = (placeholder (length tables)
       ++ fst (protect_from (tables ++ [matched]) (length matched - 1) s),
     snd (protect_from (tables ++ [matched]) (length matched - 1) s)).
Proof.
  intros H. unfold protect_from; fold protect_from. rewrite H.
  rewrite length_app. simpl length. rewrite Nat.add_sub.
  destruct (protect_from (tables ++ [matched]) (length matched - 1) s).
  reflexivity.
Qed.

(** A fragment is taken out whole and leaves the token of its index. *)
Lemma protect_from_fragment (tables : list str) (body rest : str) :
  contains TABLE_CLOSE body = false ->
  protect_from tables 0 (TABLE_OPEN ++ body ++ TABLE_CLOSE ++ rest)
  = (placeholder (length tables)
       ++ fst (protect_from (tables ++ [TABLE_OPEN ++ body ++ TABLE_CLOSE])
                 0 rest),
     snd (protect_from (tables ++ [TABLE_OPEN ++ body ++ TABLE_CLOSE])
            0 rest)).
Proof.
  intros H.
  pose proof (match_table_fragment body rest H) as Hm.
  assert (Ho : exists tl : str, TABLE_OPEN = (60%N : char) :: tl)
    by (eexists; reflexivity).
  destruct Ho as [tl Ho].
  assert (Hl : length (TABLE_OPEN ++ body ++ TABLE_CLOSE) - 1
               = length (tl ++ body ++ TABLE_CLOSE) + 0).
  { rewrite Ho, <- app_comm_cons. cbn [length].
    rewrite Nat.add_0_r. apply Nat.sub_0_r. }
  assert (Hs : TABLE_OPEN ++ body ++ TABLE_CLOSE ++ rest
               = (60%N : char) :: ((tl ++ body ++ TABLE_CLOSE) ++ rest)).
  { rewrite Ho, <- app_comm_cons. now rewrite <- !app_assoc. }
  rewrite Hs in Hm |- *.
  rewrite (protect_from_match tables _ _ _ Hm).
  now rewrite Hl, protect_from_skip.
Qed.

Lemma protect_no_angle (s : str) :
  includes 60%N s = false -> protect_tables s = (s, []).
Proof.
  intros H. unfold protect_tables.
  rewrite <- (app_nil_r s) at 1.
  rewrite protect_from_clean by exact H. simpl. now rewrite app_nil_r.
Qed.

(** *** The table has what its rows have *)


Lemma cells_of_clean (k : char) (row : str) :
  includes k row = false ->
  Forall (fun cell => includes k cell = false) (cells_of row).
Proof.
  intros H. unfold cells_of. apply Forall_forall. intros cell Hin.
  apply filter_In in Hin. destruct Hin as [Hin _].
  apply in_map_iff in Hin. destruct Hin as [x [Hx Hin]]. subst cell.
  apply includes_trim.
  pose proof (includes_split k pipe row H) as Hs.
  rewrite Forall_forall in Hs. now apply Hs.
Qed.

Lemma nth_clean (k : char) (rows : list str) (n : nat) :
  Forall (fun row => includes k row = false) rows ->
  includes k (nth n rows []) = false.
Proof.
  intros H. revert n. induction H as [|row rows Hr _ IH]; intros n.
  - now destruct n.
  - destruct n; [exact Hr|apply IH].
Qed.

Lemma skipn_clean (k : char) (rows : list str) (n : nat) :
  Forall (fun row => includes k row = false) rows ->
  Forall (fun row => includes k row = false) (skipn n rows).
Proof.
  intros H. revert n. induction H as [|row rows Hr Hrs IH]; intros n.
  - destruct n; constructor.
  - destruct n; [now constructor|apply IH].
Qed.









(** ** Plain text under the substitutions *)

Lemma plain_neq (k c : char) :
  is_special k = true -> is_plain c = true -> char_eqb k c = false.
Proof.
  intros Hk Hc. apply char_eqb_neq. intros E. subst c.
  unfold is_plain in Hc. rewrite Hk in Hc. discriminate.
Qed.

Lemma plain_neq_sym (k c : char) :
  is_special k = true -> is_plain c = true -> char_eqb c k = false.
Proof. intros Hk Hc. rewrite char_eqb_sym. now apply plain_neq. Qed.

Lemma plain_cons (c : char) (w : str) :
  plain (c :: w) <-> is_plain c = true /\ plain w.
Proof. unfold plain. simpl. apply andb_true_iff. Qed.

Lemma plain_app (v w : str) : plain (v ++ w) <-> plain v /\ plain w.
Proof. unfold plain. rewrite forallb_app. apply andb_true_iff. Qed.

Lemma plain_includes (k : char) (w : str) :
  is_special k = true -> plain w -> includes k w = false.
Proof.
  intros Hk. induction w as [|c w IH]; intros Hw; [reflexivity|].
  apply plain_cons in Hw. destruct Hw as [Hc Hw].
  rewrite includes_cons, (plain_neq _ _ Hk Hc). now apply IH.
Qed.

Lemma plain_not_line_terminator (c : char) :
  is_plain c = true -> is_line_terminator c = false.
Proof.
  unfold is_plain, is_special. intros H.
  apply negb_true_iff in H. now apply orb_false_iff in H.
Qed.

Lemma plain_not_digit (c : char) : is_plain c = true -> is_digit c = false.
Proof.
  unfold is_plain, is_special. intros H.
  apply negb_true_iff in H. apply orb_false_iff in H. destruct H as [H _].
  now apply orb_false_iff in H.
Qed.

Lemma plain_line_start (c : char) :
  is_plain c = true -> at_line_start (Some c) = false.
Proof. apply plain_not_line_terminator. Qed.

(** The rest of a line that starts with plain text ends behind it when a
    line terminator or the end of the input follows. *)
Lemma span_line_plain (w s : str) :
  plain w -> line_ends s = true ->
  span not_line_terminator (w ++ s) = (w, s).
Proof.
  intros Hw Hs. induction w as [|c w IH].
  - destruct s as [|d s]; [reflexivity|].
    simpl in *. unfold not_line_terminator. now rewrite Hs.
  - apply plain_cons in Hw. destruct Hw as [Hc Hw].
    simpl. unfold not_line_terminator at 1.
    rewrite (plain_not_line_terminator _ Hc). simpl.
    now rewrite (IH Hw).
Qed.

(** *** Steps of the scan *)

Lemma replace_from_nil (m : matcher) (p : option char) :
  m p [] = None -> replace_from m p 0 [] = [].
Proof. intros H. simpl. now rewrite H. Qed.

Lemma replace_from_nomatch (m : matcher) (p : option char) (c : char)
    (s : str) :
  m p (c :: s) = None ->
  replace_from m p 0 (c :: s) = c :: replace_from m (Some c) 0 s.
Proof. intros H. simpl. now rewrite H. Qed.

Lemma replace_from_match (m : matcher) (p : option char) (c : char)
    (s out : str) (k : nat) :
  m p (c :: s) = Some (out, S k) ->
  replace_from m p 0 (c :: s) = out ++ replace_from m (Some c) k s.
Proof. intros H. simpl. now rewrite H. Qed.

Lemma replace_from_skip1 (m : matcher) (p : option char) (c : char)
    (s : str) (k : nat) :
  replace_from m p (S k) (c :: s) = replace_from m (Some c) k s.
Proof. reflexivity. Qed.

Lemma replace_from_anchored (m : matcher) (p p' : option char) (k : nat)
    (s : str) :
  anchored m -> at_line_start p = at_line_start p' ->
  replace_from m p k s = replace_from m p' k s.
Proof.
  intros Ha Hp. destruct s as [|c s]; destruct k as [|k]; simpl;
    try reflexivity; now rewrite (Ha p p' _ Hp).
Qed.

(** A run of plain text is copied. *)
Lemma replace_from_plain (m : matcher) (p : option char) (w s : str) :
  plain_dead m -> anchored m -> plain w -> w <> [] ->
  replace_from m p 0 (w ++ s) = w ++ replace_from m (Some 97%N) 0 s.
Proof.
  intros Hd Ha Hw Hne. revert p.
  induction w as [|c w IH]; intros p; [congruence|].
  apply plain_cons in Hw. destruct Hw as [Hc Hw].
  change ((c :: w) ++ s) with (c :: (w ++ s)).
  rewrite replace_from_nomatch by (now apply Hd).
  change ((c :: w) ++ replace_from m (Some 97%N) 0 s)
    with (c :: (w ++ replace_from m (Some 97%N) 0 s)).
  f_equal. destruct w as [|d w].
  - simpl. apply replace_from_anchored; [exact Ha|].
    now rewrite plain_line_start.
  - apply IH; [exact Hw|discriminate].
Qed.

(** A run of plain text inside a match is passed over. *)
Lemma replace_from_skip (m : matcher) (p : option char) (w s : str)
    (k : nat) :
  anchored m -> plain w -> w <> [] ->
  replace_from m p (length w + k) (w ++ s) = replace_from m (Some 97%N) k s.
Proof.
  intros Ha Hw Hne. revert p.
  induction w as [|c w IH]; intros p; [congruence|].
  apply plain_cons in Hw. destruct Hw as [Hc Hw].
  change ((c :: w) ++ s) with (c :: (w ++ s)).
  change (length (c :: w) + k) with (S (length w + k)).
  rewrite replace_from_skip1. destruct w as [|d w].
  - simpl. apply replace_from_anchored; [exact Ha|].
    now rewrite plain_line_start.
  - apply IH; [exact Hw|discriminate].
Qed.

(** A literal that holds a special code unit cannot lie inside plain text,
    and it cannot start there either when the text that follows starts with
    a code unit that is not in the literal. *)
Lemma includes_true (c : char) (s : str) : In c s -> includes c s = true.
Proof.
  intros H. apply existsb_exists. exists c. split; [exact H|].
  apply char_eqb_refl.
Qed.

Lemma strip_prefix_plain_lit (pat w s : str) :
  existsb is_special pat = true -> stops_literal pat s = true ->
  plain w -> w <> [] -> strip_prefix pat (w ++ s) = None.
Proof.
  intros Hx Hs Hw Hne.
  destruct (strip_prefix pat (w ++ s)) as [x|] eqn:E; [|reflexivity].
  exfalso. apply existsb_exists in Hx. destruct Hx as [k [Hin Hk]].
  assert (Hnot : ~ In k w).
  { apply not_in_includes. now apply plain_includes. }
  apply strip_prefix_app_inv in E.
  destruct E as [[y Hy]|[q [Hq Hx]]].
  - apply strip_prefix_Some in Hy. apply Hnot. rewrite Hy.
    apply in_or_app. now left.
  - destruct q as [|d q].
    + rewrite app_nil_r in Hq. subst pat. contradiction.
    + destruct s as [|d' s]; [discriminate|].
      simpl in Hx. destruct (char_eqb d d') eqn:Ed; [|discriminate].
      apply char_eqb_eq in Ed. subst d'.
      simpl in Hs. apply negb_true_iff in Hs.
      rewrite includes_true in Hs; [discriminate|].
      subst pat. apply in_or_app. right. now left.
Qed.

Lemma replace_from_plain_lit (pat repl : str) (p : option char) (w s : str) :
  existsb is_special pat = true -> stops_literal pat s = true ->
  plain w -> w <> [] ->
  replace_from (re_lit pat repl) p 0 (w ++ s)
  = w ++ replace_from (re_lit pat repl) (Some 97%N) 0 s.
Proof.
  intros Hx Hs Hw Hne. revert p.
  induction w as [|c w IH]; intros p; [congruence|].
  assert (Hc : plain w) by (now apply plain_cons in Hw).
  change ((c :: w) ++ s) with (c :: (w ++ s)).
  rewrite replace_from_nomatch.
  - change ((c :: w) ++ replace_from (re_lit pat repl) (Some 97%N) 0 s)
      with (c :: (w ++ replace_from (re_lit pat repl) (Some 97%N) 0 s)).
    f_equal. destruct w as [|d w]; [destruct s; reflexivity|].
    apply IH; [exact Hc|discriminate].
  - unfold re_lit.
    change (c :: w ++ s) with ((c :: w) ++ s).
    now rewrite strip_prefix_plain_lit.
Qed.

(** *** The matchers of the renderer on plain text *)

Lemma anchored_any (f : str -> option (str * nat)) : anchored (fun _ s => f s).
Proof. intros p p' s _. reflexivity. Qed.

Lemma anchored_re_lit (pat repl : str) : anchored (re_lit pat repl).
Proof. apply anchored_any. Qed.

Lemma anchored_re_lazy (op cl : str) (k : str -> str) :
  anchored (re_lazy op cl k).
Proof. apply anchored_any. Qed.

Lemma anchored_re_run (op : str) (cls : char -> bool) (cl : str)
    (k : str -> str) : anchored (re_run op cls cl k).
Proof. apply anchored_any. Qed.

Lemma anchored_re_items (op cl pre post : str) :
  anchored (re_items op cl pre post).
Proof. apply anchored_any. Qed.

Lemma anchored_re_line (head : str -> option (nat * str)) (k : str -> str) :
  anchored (re_line head k).
Proof. intros p p' s H. unfold re_line. now rewrite H. Qed.

Lemma anchored_re_hr : anchored re_hr.
Proof. intros p p' s H. unfold re_hr. now rewrite H. Qed.

Lemma anchored_re_blank_lines : anchored re_blank_lines.
Proof. apply anchored_any. Qed.

Lemma anchored_re_p_heading : anchored re_p_heading.
Proof. apply anchored_any. Qed.

Lemma anchored_re_heading_p : anchored re_heading_p.
Proof. apply anchored_any. Qed.

Lemma anchored_re_blank_paragraph : anchored re_blank_paragraph.
Proof. apply anchored_any. Qed.

Lemma strip_prefix_special (a c : char) (pat s : str) :
  is_special a = true -> is_plain c = true ->
  strip_prefix (a :: pat) (c :: s) = None.
Proof. intros Ha Hc. simpl. now rewrite (plain_neq _ _ Ha Hc). Qed.

Lemma dead_re_lit (a : char) (pat repl : str) :
  is_special a = true -> plain_dead (re_lit (a :: pat) repl).
Proof.
  intros Ha p c s Hc. unfold re_lit. now rewrite strip_prefix_special.
Qed.

Lemma dead_re_lazy (a : char) (op cl : str) (k : str -> str) :
  is_special a = true -> plain_dead (re_lazy (a :: op) cl k).
Proof.
  intros Ha p c s Hc. unfold re_lazy. now rewrite strip_prefix_special.
Qed.

Lemma dead_re_run (a : char) (op : str) (cls : char -> bool) (cl : str)
    (k : str -> str) :
  is_special a = true -> plain_dead (re_run (a :: op) cls cl k).
Proof.
  intros Ha p c s Hc. unfold re_run. now rewrite strip_prefix_special.
Qed.

Lemma dead_re_items (a : char) (op cl pre post : str) :
  is_special a = true -> plain_dead (re_items (a :: op) cl pre post).
Proof.
  intros Ha p c s Hc. unfold re_items.
  change (items_length (a :: op) cl (length (c :: s)) (c :: s)) with
    (match strip_prefix (a :: op) (c :: s) with
     | Some r =>
         match find_first cl r with
         | Some (body, r') =>
             let (ws, r'') := span is_space r' in
             length (a :: op) + length body + length cl + length ws
             + items_length (a :: op) cl (length s) r''
         | None => 0
         end
     | None => 0
     end).
  now rewrite strip_prefix_special.
Qed.

Lemma dead_re_line (head : str -> option (nat * str)) (k : str -> str) :
  (forall c s, is_plain c = true -> head (c :: s) = None) ->
  plain_dead (re_line head k).
Proof.
  intros H p c s Hc. unfold re_line. rewrite (H c s Hc).
  now destruct (at_line_start p).
Qed.

Lemma head_lit_special (a : char) (pat : str) (c : char) (s : str) :
  is_special a = true -> is_plain c = true ->
  head_lit (a :: pat) (c :: s) = None.
Proof.
  intros Ha Hc. unfold head_lit. now rewrite strip_prefix_special.
Qed.

Lemma dead_re_line_lit (a : char) (pat : str) (k : str -> str) :
  is_special a = true -> plain_dead (re_line (head_lit (a :: pat)) k).
Proof.
  intros Ha. apply dead_re_line. intros c s Hc. now apply head_lit_special.
Qed.

Lemma span_stop (f : char -> bool) (c : char) (s : str) :
  f c = false -> span f (c :: s) = ([], c :: s).
Proof. intros H. simpl. now rewrite H. Qed.

Lemma dead_re_line_ordered (k : str -> str) :
  plain_dead (re_line head_ordered k).
Proof.
  apply dead_re_line. intros c s Hc. unfold head_ordered.
  now rewrite span_stop by (now apply plain_not_digit).
Qed.

Lemma dead_re_line_bullet (k : str -> str) :
  plain_dead (re_line head_bullet k).
Proof.
  apply dead_re_line. intros c s Hc. unfold head_bullet.
  rewrite (plain_neq_sym 42%N c eq_refl Hc).
  now rewrite (plain_neq_sym 45%N c eq_refl Hc).
Qed.

Lemma dead_re_hr : plain_dead re_hr.
Proof.
  intros p c s Hc. unfold re_hr.
  rewrite span_stop by (now apply plain_neq).
  now destruct (at_line_start p).
Qed.

Lemma dead_re_blank_lines : plain_dead re_blank_lines.
Proof.
  intros p c s Hc. unfold re_blank_lines.
  now rewrite (strip_prefix_special nl c [nl] s eq_refl Hc).
Qed.

Ltac literal_fails Hc :=
  match goal with
  | |- context [strip_prefix ?pat (_ :: _)] =>
      let pat' := eval cbv in pat in
      change pat with pat';
      rewrite strip_prefix_special by (reflexivity || exact Hc)
  end.

Lemma dead_re_p_heading : plain_dead re_p_heading.
Proof. intros p c s Hc. unfold re_p_heading. now literal_fails Hc. Qed.

Lemma dead_re_heading_p : plain_dead re_heading_p.
Proof. intros p c s Hc. unfold re_heading_p. now literal_fails Hc. Qed.

Lemma dead_re_blank_paragraph : plain_dead re_blank_paragraph.
Proof. intros p c s Hc. unfold re_blank_paragraph. now literal_fails Hc. Qed.

Create HintDb tame.
#[export] Hint Resolve anchored_re_lit anchored_re_lazy anchored_re_run
  anchored_re_items anchored_re_line anchored_re_hr anchored_re_blank_lines
  anchored_re_p_heading anchored_re_heading_p anchored_re_blank_paragraph
  dead_re_line_ordered dead_re_line_bullet dead_re_hr dead_re_blank_lines
  dead_re_p_heading dead_re_heading_p dead_re_blank_paragraph : tame.
#[export] Hint Extern 1 (plain_dead (re_lit _ _)) =>
  apply dead_re_lit; reflexivity : tame.
#[export] Hint Extern 1 (plain_dead (re_char _ _)) =>
  apply dead_re_lit; reflexivity : tame.
#[export] Hint Extern 1 (anchored (re_char _ _)) =>
  apply anchored_re_lit : tame.
#[export] Hint Extern 1 (plain_dead (re_lazy _ _ _)) =>
  apply dead_re_lazy; reflexivity : tame.
#[export] Hint Extern 1 (plain_dead (re_run _ _ _ _)) =>
  apply dead_re_run; reflexivity : tame.
#[export] Hint Extern 1 (plain_dead (re_items _ _ _ _)) =>
  apply dead_re_items; reflexivity : tame.
#[export] Hint Extern 1 (plain_dead (re_line (head_lit _) _)) =>
  apply dead_re_line_lit; reflexivity : tame.

(** *** Looking into a plain run *)

Lemma strip_prefix_special_run (a : char) (pat w s : str) :
  is_special a = true -> plain w -> w <> [] ->
  strip_prefix (a :: pat) (w ++ s) = None.
Proof.
  intros Ha Hw Hne. destruct w as [|c w]; [congruence|].
  apply plain_cons in Hw. destruct Hw as [Hc _].
  now apply strip_prefix_special.
Qed.

Lemma span_space_solid (w s : str) :
  starts_solid w = true -> span is_space (w ++ s) = ([], w ++ s).
Proof.
  destruct w as [|c w]; [discriminate|]. simpl. intros H.
  apply negb_true_iff in H. now rewrite H.
Qed.

Lemma span_eq_plain (k : char) (w s : str) :
  is_special k = true -> plain w -> w <> [] ->
  span (char_eqb k) (w ++ s) = ([], w ++ s).
Proof.
  intros Hk Hw Hne. destruct w as [|c w]; [congruence|].
  apply plain_cons in Hw. destruct Hw as [Hc _].
  change ((c :: w) ++ s) with (c :: (w ++ s)).
  now rewrite span_stop by (now apply plain_neq).
Qed.

Lemma span_go (f : char -> bool) (c : char) (s : str) :
  f c = true -> span f (c :: s) = (c :: fst (span f s), snd (span f s)).
Proof. intros H. simpl. rewrite H. now destruct (span f s). Qed.

Lemma starts_solid_nonempty (w : str) : starts_solid w = true -> w <> [].
Proof. destruct w; [discriminate|discriminate]. Qed.

Lemma replace_from_end (m : matcher) (p : option char) (w : str) :
  replace_from m p 0 w = replace_from m p 0 (w ++ []).
Proof. now rewrite app_nil_r. Qed.

(** *** Running one substitution over a text with plain parts *)

Arguments strip_prefix !p !s : simpl nomatch.
Arguments span f !s : simpl nomatch.

Lemma app_cons_nonempty (c : char) (w : str) : c :: w <> [].
Proof. discriminate. Qed.

Ltac plain_side :=
  first
    [ assumption
    | apply app_cons_nonempty
    | reflexivity
    | solve [auto with tame]
    | solve [apply starts_solid_nonempty; assumption] ].

(** The matcher looks into a plain run and fails there. *)
Ltac inspect :=
  cbv beta delta
    [re_run re_lit re_char re_lazy re_line re_items re_hr re_blank_lines
     re_p_heading re_heading_p re_blank_paragraph];
  simpl;
  repeat first
    [ match goal with
      | |- context [lit ?x] =>
          let v := eval vm_compute in (lit x) in change (lit x) with v
      end
    | rewrite strip_prefix_special_run by plain_side
    | rewrite span_space_solid by plain_side
    | rewrite span_eq_plain by plain_side ];
  reflexivity.

(** One step of the scan in front of the text that is left. *)
Ltac scan_step :=
  match goal with
  | |- context [replace_from ?m ?p 0 []] =>
      rewrite (replace_from_nil m p eq_refl)
  | |- context [replace_from ?m ?p (S ?k) (?c :: ?s)] =>
      rewrite (replace_from_skip1 m p c s k)
  | |- context [replace_from ?m ?p 0 (?c :: ?s)] =>
      first
        [ rewrite (replace_from_nomatch m p c s eq_refl)
        | rewrite (replace_from_match m p c s _ _ eq_refl)
        | let H := fresh "H" in
          assert (H : m p (c :: s) = None) by inspect;
          rewrite (replace_from_nomatch m p c s H); clear H ]
  | |- context [replace_from (re_lit ?pat ?r) ?p 0 (?w ++ ?s)] =>
      rewrite (replace_from_plain_lit pat r p w s) by plain_side
  | |- context [replace_from ?m ?p 0 (?w ++ ?s)] =>
      rewrite (replace_from_plain m p w s) by plain_side
  | |- context [replace_from ?m ?p ?k (lit ?x)] =>
      let v := eval vm_compute in (lit x) in
      change (replace_from m p k (lit x)) with (replace_from m p k v)
  | |- context [replace_from ?m ?p 0 ?w] =>
      is_var w; rewrite (replace_from_end m p w)
  | |- context [replace_from ?m ?p ?k ?s] =>
      lazymatch k with 0 => fail | S _ => fail | _ => idtac end;
      let k' := eval simpl in k in
      progress change (replace_from m p k s) with (replace_from m p k' s)
  | |- context [span (char_eqb ?k) (?w ++ ?s)] =>
      rewrite (span_eq_plain k w s) by plain_side; cbn [fst length]
  | |- context [span ?f (?c :: ?s)] =>
      first [ rewrite (span_go f c s eq_refl)
            | rewrite (span_stop f c s eq_refl) ];
      cbn [fst length]
  end.

(** The text of a scan in the form of single code units and plain runs. *)
Ltac scan_norm :=
  match goal with
  | |- context [replace_from ?m ?p ?k ?s] =>
      let s' :=
        eval cbv beta delta [marker placeholder escaped_placeholder] in s in
      let s'' := eval simpl in s' in
      progress change (replace_from m p k s) with (replace_from m p k s'')
  end.

Ltac scan :=
  repeat first [ scan_norm | progress rewrite <- app_assoc ];
  repeat scan_step.

(** The innermost substitution of the goal, started. *)
Ltac open_pass :=
  match goal with
  | |- context [replace_all ?m ?s] =>
      lazymatch s with
      | context [replace_all] => fail
      | context [replace_from] => fail
      | _ => change (replace_all m s) with (replace_from m None 0 s)
      end
  end.

(** The innermost substitution of the goal, done. *)
Ltac pass :=
  open_pass; scan;
  lazymatch goal with
  | |- context [replace_from] => fail "the scan is stuck"
  | _ => idtac
  end.

(** *** Matches that take plain text in *)

Lemma replace_from_skip_str (m : matcher) (x : str) (p : option char)
    (k : nat) (s : str) :
  exists p', replace_from m p (length x + k) (x ++ s) = replace_from m p' k s.
Proof.
  revert p. induction x as [|c x IH]; intros p.
  - exists p. reflexivity.
  - destruct (IH (Some c)) as [p' Hp']. exists p'. exact Hp'.
Qed.

(** A line rule at the start of a line whose head is a literal and whose
    rest is plain text. *)
Lemma replace_from_line (a : char) (pat : str) (k : str -> str)
    (p : option char) (w s : str) :
  at_line_start p = true -> plain w -> w <> [] -> line_ends s = true ->
  replace_from (re_line (head_lit (a :: pat)) k) p 0 ((a :: pat) ++ w ++ s)
  = k w ++ replace_from (re_line (head_lit (a :: pat)) k) (Some 97%N) 0 s.
Proof.
  intros Hp Hw Hne Hs.
  change ((a :: pat) ++ w ++ s) with (a :: (pat ++ w ++ s)).
  rewrite (replace_from_match _ _ _ _ (k w) (length pat + length w)).
  - f_equal.
    destruct (replace_from_skip_str (re_line (head_lit (a :: pat)) k) pat
                (Some a) (length w) (w ++ s)) as [p' Hp'].
    rewrite Hp'. rewrite <- (Nat.add_0_r (length w)).
    apply replace_from_skip; [apply anchored_re_line|exact Hw|exact Hne].
  - unfold re_line. rewrite Hp. unfold head_lit.
    change (a :: pat ++ w ++ s) with ((a :: pat) ++ w ++ s).
    rewrite strip_prefix_app, span_line_plain by assumption.
    destruct w as [|c w]; [congruence|]. reflexivity.
Qed.

(** A lazy rule whose body is plain text. *)
Lemma replace_from_lazy (a c0 : char) (op cl : str) (k : str -> str)
    (p : option char) (w s : str) :
  is_special c0 = true -> plain w ->
  replace_from (re_lazy (a :: op) (c0 :: cl) k) p 0
    ((a :: op) ++ w ++ (c0 :: cl) ++ s)
  = k w ++ replace_from (re_lazy (a :: op) (c0 :: cl) k) (Some 97%N) 0 s.
Proof.
  intros Hc Hw.
  change ((a :: op) ++ w ++ (c0 :: cl) ++ s)
    with (a :: (op ++ w ++ (c0 :: cl) ++ s)).
  rewrite (replace_from_match _ _ _ _ (k w)
             (length op + length w + length (c0 :: cl))).
  - f_equal.
    replace (op ++ w ++ (c0 :: cl) ++ s)
      with ((op ++ w ++ (c0 :: cl)) ++ s)
      by (now rewrite <- !app_assoc).
    replace (length op + length w + length (c0 :: cl))
      with (length (op ++ w ++ (c0 :: cl)) + 0)
      by (rewrite !length_app; lia).
    destruct (replace_from_skip_str (re_lazy (a :: op) (c0 :: cl) k)
                (op ++ w ++ (c0 :: cl)) (Some a) 0 s) as [p' Hp'].
    rewrite Hp'. destruct s; reflexivity.
  - unfold re_lazy.
    change (a :: op ++ w ++ (c0 :: cl) ++ s)
      with ((a :: op) ++ w ++ (c0 :: cl) ++ s).
    rewrite strip_prefix_app.
    rewrite find_first_behind by (now apply plain_includes).
    reflexivity.
Qed.

(** The scan goes on with a rule that was proved apart; the rule is given
    as a function of the code unit before the index. *)
Ltac use_rule F :=
  match goal with
  | |- context [replace_from ?m ?p 0 ?s] =>
      let L := constr:(F p) in
      let T := type of L in
      let T' := eval cbv beta in T in
      lazymatch T' with
      | ?lhs = _ => change (replace_from m p 0 s) with lhs; rewrite L
      end
  end.

(** A line rule with any head that takes a fixed text [pat]. *)
Lemma replace_from_line_head (head : str -> option (nat * str))
    (a : char) (pat : str) (k : str -> str) (p : option char) (w s : str) :
  (forall r, head ((a :: pat) ++ r) = Some (length (a :: pat), r)) ->
  at_line_start p = true -> plain w -> w <> [] -> line_ends s = true ->
  replace_from (re_line head k) p 0 ((a :: pat) ++ w ++ s)
  = k w ++ replace_from (re_line head k) (Some 97%N) 0 s.
Proof.
  intros Hh Hp Hw Hne Hs.
  change ((a :: pat) ++ w ++ s) with (a :: (pat ++ w ++ s)).
  rewrite (replace_from_match _ _ _ _ (k w) (length pat + length w)).
  - f_equal.
    destruct (replace_from_skip_str (re_line head k) pat
                (Some a) (length w) (w ++ s)) as [p' Hp'].
    rewrite Hp'. rewrite <- (Nat.add_0_r (length w)).
    apply replace_from_skip; [apply anchored_re_line|exact Hw|exact Hne].
  - unfold re_line. rewrite Hp.
    change (a :: pat ++ w ++ s) with ((a :: pat) ++ w ++ s).
    rewrite Hh, span_line_plain by assumption.
    destruct w as [|c w]; [congruence|]. reflexivity.
Qed.

Lemma replace_from_skip_all (m : matcher) (x : str) (p : option char) :
  m (match rev x with c :: _ => Some c | [] => p end) [] = None ->
  replace_from m p (length x) x = [].
Proof.
  revert p. induction x as [|c x IH]; intros p H.
  - simpl in *. now rewrite H.
  - cbn [length]. rewrite replace_from_skip1. apply IH.
    simpl in H. destruct (rev x) as [|d y] eqn:E; simpl in H; exact H.
Qed.

Lemma items_length_nil (a : char) (op cl : str) (fuel : nat) :
  items_length (a :: op) cl fuel [] = 0.
Proof. now destruct fuel. Qed.

(** The rule for a run of list items on one item of plain text at the end
    of the input. *)
Lemma replace_from_item (a c0 : char) (op cl pre post : str)
    (p : option char) (w : str) :
  is_special c0 = true -> plain w ->
  replace_from (re_items (a :: op) (c0 :: cl) pre post) p 0
    ((a :: op) ++ w ++ (c0 :: cl))
  = pre ++ ((a :: op) ++ w ++ (c0 :: cl)) ++ post.
Proof.
  intros Hc Hw.
  assert (Hn : items_length (a :: op) (c0 :: cl)
                 (length ((a :: op) ++ w ++ (c0 :: cl)))
                 ((a :: op) ++ w ++ (c0 :: cl))
               = length ((a :: op) ++ w ++ (c0 :: cl))).
  { change (length ((a :: op) ++ w ++ (c0 :: cl)))
      with (S (length (op ++ w ++ (c0 :: cl)))) at 1.
    cbn [items_length]. rewrite strip_prefix_app.
    rewrite <- (app_nil_r (w ++ (c0 :: cl))), <- app_assoc.
    rewrite find_first_behind by (now apply plain_includes).
    cbn [span]. rewrite items_length_nil, !length_app.
    cbn [length]. lia. }
  change ((a :: op) ++ w ++ (c0 :: cl)) with (a :: (op ++ w ++ (c0 :: cl))).
  rewrite (replace_from_match _ _ _ _
             (pre ++ (a :: (op ++ w ++ (c0 :: cl))) ++ post)
             (length (op ++ w ++ (c0 :: cl)))).
  - rewrite replace_from_skip_all; [now rewrite app_nil_r|].
    unfold re_items. reflexivity.
  - unfold re_items.
    change (a :: op ++ w ++ c0 :: cl) with ((a :: op) ++ w ++ (c0 :: cl)).
    rewrite Hn.
    change (length ((a :: op) ++ w ++ (c0 :: cl)))
      with (S (length (op ++ w ++ (c0 :: cl)))).
    cbv iota beta.
    change (S (length (op ++ w ++ (c0 :: cl))))
      with (length ((a :: op) ++ w ++ (c0 :: cl))).
    now rewrite firstn_all.
Qed.

(** ** The renderer on plain text around a block *)

(** A text is free of a special code unit when its plain parts are given
    and the rest can be looked at. *)
Ltac no_char :=
  repeat first [rewrite includes_app | rewrite includes_cons];
  repeat match goal with
         | H : plain ?w |- context [includes ?k ?w] =>
             rewrite (plain_includes k w eq_refl H)
         end;
  reflexivity.

(** The end of a run of passes: both sides in one form. *)
Ltac finish :=
  rewrite ?app_nil_r;
  repeat first [ progress cbn [app] | progress rewrite <- app_assoc ];
  reflexivity.

Lemma render_without_tables (text : str) :
  includes pipe text = false -> includes 60%N text = false ->
  render text = Normal (paragraphs (markup (escape_html text))).
Proof.
  intros Hp Ha. rewrite render_eq. cbv zeta.
  pose proof (parseTable_no_pipe text Hp) as Ht.
  rewrite parseTable_eq in Ht.
  assert (Hj : join_with nl (scan_lines 0 (split_on nl text)) = text)
    by congruence.
  rewrite Hj, (protect_no_angle text Ha). reflexivity.
Qed.

(** A heading, a blank line and a paragraph of plain text. *)
Lemma render_heading_paragraph (t b : str) :
  plain t -> t <> [] -> plain b -> starts_solid b = true ->
  render (lit "# " ++ t ++ nl :: nl :: b)
  = Normal (lit "<h1>" ++ t ++ lit "</h1>" ++ lit "<p>" ++ b ++ lit "</p>").
Proof.
  intros Ht Hne Hb Hs.
  rewrite render_without_tables by no_char.
  f_equal. rewrite <- (app_nil_r b) at 1.
  unfold paragraphs, markup, escape_html. cbv zeta.
  repeat pass.
  open_pass; scan.
  rewrite (replace_from_line 35%N (lit " ") _ None t (nl :: nl :: b ++ []))
    by plain_side.
  scan.
  repeat pass.
  finish.
Qed.

(** The first restoring step on one token behind text without an
    ampersand. *)
Lemma restore_markers_one (table s r : str) :
  includes 38%N s = false ->
  restore_markers [table] (s ++ escaped_placeholder 0 ++ r)
  = s ++ nl :: nl :: marker 0 ++ nl :: nl :: r.
Proof.
  intros H. unfold restore_markers, for_each_from.
  change (escaped_placeholder 0)
    with (38%N :: lit "lt;!---TABLE-PLACEHOLDER-0---&gt;").
  rewrite replace_first_behind; [|exact H|reflexivity].
  reflexivity.
Qed.

(** The last restoring step on one marker behind text without a hash. *)
Lemma restore_tables_one (table s r : str) :
  includes 35%N s = false -> includes dollar table = false ->
  restore_tables [table] (s ++ marker 0 ++ r) = s ++ table ++ r.
Proof.
  intros H Hd. unfold restore_tables, for_each_from.
  change (marker 0) with (35%N :: lit "##TABLE0###").
  now rewrite replace_first_behind.
Qed.

(** One protected fragment with plain text before and behind it. *)
Lemma pipeline_between (pre post table : str) :
  plain pre -> starts_solid pre = true ->
  plain post -> starts_solid post = true ->
  includes dollar table = false ->
  restore_tables [table]
    (paragraphs
       (restore_markers [table]
          (markup (escape_html (pre ++ placeholder 0 ++ post)))))
  = lit "<p>" ++ pre ++ lit "</p>" ++ table
    ++ lit "<p>" ++ post ++ lit "</p>".
Proof.
  intros Hpre Hspre Hpost Hspost Hd.
  assert (E1 : markup (escape_html (pre ++ placeholder 0 ++ post ++ []))
               = pre ++ escaped_placeholder 0 ++ post).
  { unfold markup, escape_html. cbv zeta. repeat pass. finish. }
  rewrite app_nil_r in E1. rewrite E1.
  rewrite restore_markers_one by no_char.
  assert (E2 : paragraphs (pre ++ nl :: nl :: marker 0 ++ nl :: nl :: post ++ [])
               = (lit "<p>" ++ pre ++ lit "</p>") ++ marker 0
                 ++ lit "<p>" ++ post ++ lit "</p>").
  { unfold paragraphs. cbv zeta. repeat pass. finish. }
  rewrite app_nil_r in E2. rewrite E2.
  rewrite restore_tables_one; [|no_char|exact Hd].
  finish.
Qed.

Lemma protect_between (pre post body : str) :
  includes 60%N pre = false -> includes 60%N post = false ->
  contains TABLE_CLOSE body = false ->
  protect_tables (pre ++ TABLE_OPEN ++ body ++ TABLE_CLOSE ++ post)
  = (pre ++ placeholder 0 ++ post, [TABLE_OPEN ++ body ++ TABLE_CLOSE]).
Proof.
  intros Hpre Hpost Hb. unfold protect_tables.
  rewrite protect_from_clean by exact Hpre.
  rewrite protect_from_fragment by exact Hb.
  assert (Hp : forall T, protect_from T 0 post = (post, T)).
  { intros T. rewrite <- (app_nil_r post) at 1.
    rewrite protect_from_clean by exact Hpost.
    cbn [fst snd protect_from]. now rewrite app_nil_r. }
  rewrite Hp. reflexivity.
Qed.





(** One protected fragment with plain text on one side only, or alone. *)
Lemma pipeline_before (pre table : str) :
  plain pre -> starts_solid pre = true ->
  includes dollar table = false ->
  restore_tables [table]
    (paragraphs
       (restore_markers [table]
          (markup (escape_html (pre ++ placeholder 0)))))
  = lit "<p>" ++ pre ++ lit "</p>" ++ table.
Proof.
  intros Hpre Hspre Hd.
  assert (E1 : markup (escape_html (pre ++ placeholder 0))
               = pre ++ escaped_placeholder 0 ++ []).
  { unfold markup, escape_html. cbv zeta. repeat pass. finish. }
  rewrite E1.
  rewrite restore_markers_one by no_char.
  assert (E2 : paragraphs (pre ++ nl :: nl :: marker 0 ++ [nl; nl])
               = (lit "<p>" ++ pre ++ lit "</p>") ++ marker 0 ++ []).
  { unfold paragraphs. cbv zeta. repeat pass. finish. }
  rewrite E2.
  rewrite restore_tables_one; [|no_char|exact Hd].
  finish.
Qed.

Lemma pipeline_after (post table : str) :
  plain post -> starts_solid post = true ->
  includes dollar table = false ->
  restore_tables [table]
    (paragraphs
       (restore_markers [table]
          (markup (escape_html (placeholder 0 ++ post)))))
  = table ++ lit "<p>" ++ post ++ lit "</p>".
Proof.
  intros Hpost Hspost Hd.
  assert (E1 : markup (escape_html (placeholder 0 ++ post ++ []))
               = [] ++ escaped_placeholder 0 ++ post).
  { unfold markup, escape_html. cbv zeta. repeat pass. finish. }
  rewrite app_nil_r in E1. rewrite E1.
  rewrite restore_markers_one by reflexivity.
  assert (E2 : paragraphs ([] ++ nl :: nl :: marker 0 ++ nl :: nl :: post ++ [])
               = [] ++ marker 0 ++ lit "<p>" ++ post ++ lit "</p>").
  { unfold paragraphs. cbv zeta. repeat pass. finish. }
  rewrite app_nil_r in E2. rewrite E2.
  rewrite restore_tables_one; [|reflexivity|exact Hd].
  finish.
Qed.

Lemma pipeline_alone (table : str) :
  includes dollar table = false ->
  restore_tables [table]
    (paragraphs
       (restore_markers [table] (markup (escape_html (placeholder 0)))))
  = table.
Proof.
  intros Hd. rewrite token_alone. now apply restore_single.
Qed.

(** One protected fragment between calm texts. *)
Lemma pipeline_calm (pre post table : str) :
  calm pre -> calm post -> includes dollar table = false ->
  restore_tables [table]
    (paragraphs
       (restore_markers [table]
          (markup (escape_html (pre ++ placeholder 0 ++ post)))))
  = paragraph_of pre ++ table ++ paragraph_of post.
Proof.
  intros [Hpre [Epre|Spre]] [Hpost [Epost|Spost]] Hd.
  - subst pre post. rewrite app_nil_r. cbn [app paragraph_of].
    rewrite app_nil_r. now apply pipeline_alone.
  - subst pre. cbn [app]. rewrite pipeline_after by assumption.
    destruct post as [|c post]; [discriminate|]. reflexivity.
  - subst post. rewrite app_nil_r. rewrite pipeline_before by assumption.
    destruct pre as [|c pre]; [discriminate|].
    cbn [paragraph_of]. rewrite !app_nil_r. now rewrite <- !app_assoc.
  - rewrite pipeline_between by assumption.
    destruct pre as [|c pre]; [discriminate|].
    destruct post as [|d post]; [discriminate|].
    cbn [paragraph_of]. now rewrite <- !app_assoc.
Qed.

Lemma calm_plain (w : str) : calm w -> plain w.
Proof. now intros [H _]. Qed.

(** A fragment between calm texts is rendered as it is, between the
    paragraphs of the texts. *)
Lemma render_fragment_calm (pre post body : str) :
  calm pre -> calm post ->
  includes pipe body = false -> includes dollar body = false ->
  contains TABLE_CLOSE body = false ->
  render (pre ++ TABLE_OPEN ++ body ++ TABLE_CLOSE ++ post)
  = Normal (paragraph_of pre
            ++ (TABLE_OPEN ++ body ++ TABLE_CLOSE)
            ++ paragraph_of post).
Proof.
  intros Cpre Cpost Hp Hd Hc.
  pose proof (calm_plain pre Cpre) as Hpre.
  pose proof (calm_plain post Cpost) as Hpost.
  rewrite render_eq. cbv zeta.
  assert (Hj : join_with nl (scan_lines 0 (split_on nl
                 (pre ++ TABLE_OPEN ++ body ++ TABLE_CLOSE ++ post)))
               = pre ++ TABLE_OPEN ++ body ++ TABLE_CLOSE ++ post).
  { assert (Hn : includes pipe
                   (pre ++ TABLE_OPEN ++ body ++ TABLE_CLOSE ++ post) = false).
    { rewrite !includes_app, Hp.
      rewrite (plain_includes pipe pre eq_refl Hpre).
      rewrite (plain_includes pipe post eq_refl Hpost). reflexivity. }
    pose proof (parseTable_no_pipe _ Hn) as Ht.
    rewrite parseTable_eq in Ht. congruence. }
  rewrite Hj.
  rewrite protect_between;
    [|now apply plain_includes|now apply plain_includes|exact Hc].
  cbn [fst snd]. f_equal.
  apply pipeline_calm; try assumption.
  rewrite !includes_app, Hd. reflexivity.
Qed.

(** *** Other block elements in a paragraph of their own *)

Lemma render_heading2_paragraph (t b : str) :
  plain t -> t <> [] -> plain b -> starts_solid b = true ->
  render (lit "## " ++ t ++ nl :: nl :: b)
  = Normal (lit "<h2>" ++ t ++ lit "</h2>" ++ lit "<p>" ++ b ++ lit "</p>").
Proof.
  intros Ht Hne Hb Hs.
  rewrite render_without_tables by no_char.
  f_equal. rewrite <- (app_nil_r b) at 1.
  unfold paragraphs, markup, escape_html. cbv zeta.
  repeat pass.
  open_pass; scan.
  rewrite (replace_from_line 35%N (lit "# ") _ None t (nl :: nl :: b ++ []))
    by plain_side.
  scan.
  repeat pass.
  finish.
Qed.

Lemma render_heading3_paragraph (t b : str) :
  plain t -> t <> [] -> plain b -> starts_solid b = true ->
  render (lit "### " ++ t ++ nl :: nl :: b)
  = Normal (lit "<h3>" ++ t ++ lit "</h3>" ++ lit "<p>" ++ b ++ lit "</p>").
Proof.
  intros Ht Hne Hb Hs.
  rewrite render_without_tables by no_char.
  f_equal. rewrite <- (app_nil_r b) at 1.
  unfold paragraphs, markup, escape_html. cbv zeta.
  repeat pass.
  open_pass; scan.
  rewrite (replace_from_line 35%N (lit "## ") _ None t (nl :: nl :: b ++ []))
    by plain_side.
  scan.
  repeat pass.
  finish.
Qed.

Lemma render_blockquote_paragraph (t b : str) :
  plain t -> t <> [] -> plain b -> starts_solid b = true ->
  render (lit "> " ++ t ++ nl :: nl :: b)
  = Normal (lit "<blockquote>" ++ t ++ lit "</blockquote>"
            ++ lit "<p>" ++ b ++ lit "</p>").
Proof.
  intros Ht Hne Hb Hs.
  rewrite render_without_tables by no_char.
  f_equal. rewrite <- (app_nil_r b) at 1.
  unfold paragraphs, markup, escape_html. cbv zeta.
  repeat pass.
  open_pass; scan.
  rewrite (replace_from_line 38%N (lit "gt; ") _ None t (nl :: nl :: b ++ []))
    by plain_side.
  scan.
  repeat pass.
  finish.
Qed.

Lemma render_rule_paragraph (b : str) :
  plain b -> starts_solid b = true ->
  render (lit "---" ++ nl :: nl :: b)
  = Normal (lit "<hr>" ++ lit "<p>" ++ b ++ lit "</p>").
Proof.
  intros Hb Hs.
  rewrite render_without_tables by no_char.
  f_equal. rewrite <- (app_nil_r b) at 1.
  unfold paragraphs, markup, escape_html. cbv zeta.
  repeat pass.
  finish.
Qed.

Lemma render_pre_paragraph (t b : str) :
  plain t -> t <> [] -> plain b -> starts_solid b = true ->
  render (lit "```" ++ t ++ lit "```" ++ nl :: nl :: b)
  = Normal (lit "<pre><code>" ++ t ++ lit "</code></pre>"
            ++ lit "<p>" ++ b ++ lit "</p>").
Proof.
  intros Ht Hne Hb Hs.
  rewrite render_without_tables by no_char.
  f_equal. rewrite <- (app_nil_r b) at 1.
  unfold paragraphs, markup, escape_html. cbv zeta.
  repeat pass.
  open_pass; scan.
  use_rule (fun p => replace_from_lazy 96%N 96%N (lit "``") (lit "``")
              (wrap (lit "<pre><code>") (lit "</code></pre>")) p t
              (nl :: nl :: b ++ []) eq_refl Ht).
  scan.
  repeat pass.
  finish.
Qed.

Lemma render_paragraph_bullet (b t : str) :
  plain b -> starts_solid b = true -> plain t -> t <> [] ->
  render (b ++ nl :: nl :: lit "- " ++ t)
  = Normal (lit "<p>" ++ b ++ lit "</p>"
            ++ lit "<ul><li >" ++ t ++ lit "</li></ul>").
Proof.
  intros Hb Hs Ht Hne.
  rewrite render_without_tables by no_char.
  f_equal. rewrite <- (app_nil_r t) at 1.
  unfold paragraphs, markup, escape_html. cbv zeta.
  repeat pass.
  open_pass; scan.
  use_rule (fun _ : option N => replace_from_line_head head_bullet 45%N (lit " ")
              (wrap LI_UL (lit "</li>")) (Some nl) t []
              (fun r => eq_refl) eq_refl Ht Hne eq_refl).
  scan.
  repeat pass.
  open_pass; scan.
  use_rule (fun p => replace_from_item 60%N 60%N
              (lit "li class=" ++ dq :: lit "ul-item" ++ dq :: lit ">")
              (lit "/li>") (lit "<ul>") (lit "</ul>") p t
              eq_refl Ht).
  repeat pass.
  finish.
Qed.

Lemma render_paragraph_numbered (b t : str) :
  plain b -> starts_solid b = true -> plain t -> t <> [] ->
  render (b ++ nl :: nl :: lit "1. " ++ t)
  = Normal (lit "<p>" ++ b ++ lit "</p>"
            ++ lit "<ol><li >" ++ t ++ lit "</li></ol>").
Proof.
  intros Hb Hs Ht Hne.
  rewrite render_without_tables by no_char.
  f_equal. rewrite <- (app_nil_r t) at 1.
  unfold paragraphs, markup, escape_html. cbv zeta.
  repeat pass.
  open_pass; scan.
  use_rule (fun _ : option N => replace_from_line_head head_ordered 49%N (lit ". ")
              (wrap LI_OL (lit "</li>")) (Some nl) t []
              (fun r => eq_refl) eq_refl Ht Hne eq_refl).
  scan.
  repeat pass.
  open_pass; scan.
  use_rule (fun p => replace_from_item 60%N 60%N
              (lit "li class=" ++ dq :: lit "ol-item" ++ dq :: lit ">")
              (lit "/li>") (lit "<ol>") (lit "</ol>") p t
              eq_refl Ht).
  repeat pass.
  finish.
Qed.

(** *** The protecting step on any text *)











(** *** Two tables, in the order of the input *)







(** ** Placeholders and paragraphs *)




(** C6.  The clean-up takes a paragraph tag away only where it stands
    directly before the opening tag or directly behind the closing tag of
    a block element.  A block element on the line behind other text stays
    inside the paragraph of that text, and the closing tag of that
    paragraph is taken away all the same, so that the paragraph is never
    closed: this is so for a heading, a list of either kind, a block quote
    and a code block.  A list in front of a blank line takes the paragraph
    boundary into itself.  A heading in a paragraph of its own is handled
    as the clean-up means it. *)
Theorem C6_block_left_inside_paragraph :
  render (js "Intro\n# Title") = Normal (lit "<p>Intro<br><h1>Title</h1>")
  /\ block_inside_p false (lit "<p>Intro<br><h1>Title</h1>") = true
  /\ render (js "Shopping list:\n- milk\n- eggs")
     = Normal (lit "<p>Shopping list:<br><ul><li >milk</li><br><li >eggs</li></ul>")
  /\ render (js "Steps:\n1. one\n2. two")
     = Normal (lit "<p>Steps:<br><ol><li >one</li><br><li >two</li></ol>")
  /\ render (js "Note\n> quoted")
     = Normal (lit "<p>Note<br><blockquote>quoted</blockquote>")
  /\ render (js "Code:\n```x```")
     = Normal (lit "<p>Code:<br><pre><code>x</code></pre>")
  /\ render (js "- a\n\ntext")
     = Normal (lit "<ul><li >a</li></p><p></ul>text</p>")
  /\ render (js "# Title\n\nBody text")
     = Normal (lit "<h1>Title</h1><p>Body text</p>").
Proof. repeat split; vm_compute; reflexivity. Qed.

(** C10.  A fragment that the protecting step takes out is put back by
    the last step as a replacement pattern, not as a text: two dollars in
    it come out as one, and a dollar with an ampersand comes out as the
    marker of the table.  A fragment without a dollar is emitted as it was
    written, not escaped. *)
Theorem C10_fragment_not_verbatim :
  render (TABLE_OPEN ++ lit "$$" ++ TABLE_CLOSE)
  = Normal (TABLE_OPEN ++ lit "$" ++ TABLE_CLOSE)
  /\ TABLE_OPEN ++ lit "$" ++ TABLE_CLOSE
     <> TABLE_OPEN ++ lit "$$" ++ TABLE_CLOSE
  /\ protect_tables (TABLE_OPEN ++ lit "$$" ++ TABLE_CLOSE)
     = (placeholder 0, [TABLE_OPEN ++ lit "$$" ++ TABLE_CLOSE])
  /\ render (TABLE_OPEN ++ lit "a $& b" ++ TABLE_CLOSE)
     = Normal (TABLE_OPEN ++ lit "a ###TABLE0### b" ++ TABLE_CLOSE)
  /\ render (TABLE_OPEN ++ lit "<b>x</b>" ++ TABLE_CLOSE)
     = Normal (TABLE_OPEN ++ lit "<b>x</b>" ++ TABLE_CLOSE).
Proof.
  split; [vm_compute; reflexivity|]. split; [discriminate|].
  repeat split; vm_compute; reflexivity.
Qed.

(** ** The escaping step *)

(** Replacing one code unit everywhere works on every code unit by
    itself. *)
Lemma replace_from_char (c : char) (repl : str) (s : str) :
  forall p,
    replace_from (re_char c repl) p 0 s
    = flat_map (fun x => if char_eqb c x then repl else [x]) s.
Proof.
  induction s as [|x t IH]; intros p.
  - reflexivity.
  - cbn [replace_from flat_map]. unfold re_char at 1, re_lit at 1.
    change (strip_prefix [c] (x :: t))
      with (if char_eqb c x then Some t else None).
    destruct (char_eqb c x); cbn [length]; rewrite IH; reflexivity.
Qed.

Lemma replace_all_char (c : char) (repl : str) (s : str) :
  replace_all (re_char c repl) s
  = flat_map (fun x => if char_eqb c x then repl else [x]) s.
Proof. apply replace_from_char. Qed.

Lemma escape_char_passes (x : char) :
  flat_map (fun x => if char_eqb 62%N x then lit "&gt;" else [x])
    (flat_map (fun x => if char_eqb 60%N x then lit "&lt;" else [x])
       (if char_eqb 38%N x then lit "&amp;" else [x]))
  = escape_char x.
Proof.
  unfold escape_char.
  rewrite (char_eqb_sym x 38%N), (char_eqb_sym x 60%N),
    (char_eqb_sym x 62%N).
  destruct (char_eqb 38%N x) eqn:E1; [reflexivity|].
  cbn [flat_map app].
  destruct (char_eqb 60%N x) eqn:E2; [reflexivity|].
  cbn [flat_map app]. rewrite !app_nil_r. reflexivity.
Qed.

Lemma escape_html_flat_map (s : str) :
  escape_html s = flat_map escape_char s.
Proof.
  unfold escape_html. rewrite !replace_all_char.
  induction s as [|x t IH]; [reflexivity|].
  cbn [flat_map]. rewrite !flat_map_app, IH. f_equal.
  apply escape_char_passes.
Qed.

Lemma escape_html_app (s t : str) :
  escape_html (s ++ t) = escape_html s ++ escape_html t.
Proof. rewrite !escape_html_flat_map. apply flat_map_app. Qed.

Lemma escape_char_no_angle (k x : char) :
  (k = 60%N \/ k = 62%N) -> includes k (escape_char x) = false.
Proof.
  intros Hk. unfold escape_char.
  destruct (char_eqb x 38%N) eqn:E1;
    [destruct Hk; subst k; reflexivity|].
  destruct (char_eqb x 60%N) eqn:E2;
    [destruct Hk; subst k; reflexivity|].
  destruct (char_eqb x 62%N) eqn:E3;
    [destruct Hk; subst k; reflexivity|].
  cbn [includes existsb]. rewrite orb_false_r.
  destruct Hk; subst k; rewrite char_eqb_sym; assumption.
Qed.

Lemma escape_html_no_angle (k : char) (s : str) :
  (k = 60%N \/ k = 62%N) -> includes k (escape_html s) = false.
Proof.
  intros Hk. rewrite escape_html_flat_map.
  induction s as [|x t IH]; [reflexivity|].
  cbn [flat_map]. rewrite includes_app, IH, (escape_char_no_angle k x Hk).
  reflexivity.
Qed.

(** The first code unit of an escaped code unit tells whether it was
    escaped. *)
Lemma escape_char_head (x : char) :
  (escape_char x = [x] /\ x <> 38%N)
  \/ (x = 38%N /\ escape_char x = lit "&amp;")
  \/ (x = 60%N /\ escape_char x = lit "&lt;")
  \/ (x = 62%N /\ escape_char x = lit "&gt;").
Proof.
  unfold escape_char.
  destruct (char_eqb x 38%N) eqn:E1.
  { apply char_eqb_eq in E1. right. left. now split. }
  destruct (char_eqb x 60%N) eqn:E2.
  { apply char_eqb_eq in E2. right. right. left. now split. }
  destruct (char_eqb x 62%N) eqn:E3.
  { apply char_eqb_eq in E3. right. right. right. now split. }
  left. split; [reflexivity|]. now apply char_eqb_neq.
Qed.

Lemma flat_map_escape_injective (s : str) :
  forall t, flat_map escape_char s = flat_map escape_char t -> s = t.
Proof.
  induction s as [|x s IH]; intros [|y t] H.
  - reflexivity.
  - cbn [flat_map] in H.
    destruct (escape_char_head y) as [[E _]|[[_ E]|[[_ E]|[_ E]]]];
      rewrite E in H; discriminate H.
  - cbn [flat_map] in H.
    destruct (escape_char_head x) as [[E _]|[[_ E]|[[_ E]|[_ E]]]];
      rewrite E in H; discriminate H.
  - cbn [flat_map] in H.
    destruct (escape_char_head x) as [[Ex Nx]|[[Hx Ex]|[[Hx Ex]|[Hx Ex]]]];
    destruct (escape_char_head y) as [[Ey Ny]|[[Hy Ey]|[[Hy Ey]|[Hy Ey]]]];
      rewrite Ex, Ey in H; subst; simpl in H;
      first
        [ discriminate H
        | injection H as H; first [ congruence | now rewrite (IH t H) ]
        | injection H as H1 H; first [ congruence | now rewrite (IH t H), H1 ] ].
Qed.

(** X1.  The three escaping passes together replace every code unit on
    its own: an ampersand by [&amp;], an opening angle bracket by [&lt;], a
    closing one by [&gt;], any other code unit is kept; because the
    ampersand is replaced first, the entities written by the later passes
    are not escaped again.  No angle bracket is left in the result. *)
Theorem X1_escape_html_per_code_unit (s : str) :
  escape_html s = flat_map escape_char s
  /\ includes 60%N (escape_html s) = false
  /\ includes 62%N (escape_html s) = false.
Proof.
  split; [apply escape_html_flat_map|].
  split; apply escape_html_no_angle; auto.
Qed.

(** X2.  The escaping step loses nothing: two different texts have
    different escaped texts.  A text that already reads like an entity is
    escaped once more and so stays apart from the character it names. *)
Theorem X2_escape_html_injective (s t : str) :
  s <> t -> escape_html s <> escape_html t.
Proof.
  intros Hne H. apply Hne. apply flat_map_escape_injective.
  now rewrite <- !escape_html_flat_map.
Qed.

Lemma X2_witness :
  lit "<" <> lit "&lt;"
  /\ escape_html (lit "<") <> escape_html (lit "&lt;").
Proof.
  split; [discriminate|].
  apply (X2_escape_html_injective (lit "<") (lit "&lt;")). discriminate.
Defined.

(** ** More about the table parser *)

(** No line feed in the rows, no line feed in the table. *)
Lemma table_of_no_nl (rows : list str) :
  Forall (fun row => includes nl row = false) rows ->
  includes nl (table_of rows) = false.
Proof.
  intros H.
  assert (Hth : forall row, includes nl row = false ->
    includes nl (concat (map th_of (cells_of row))) = false).
  { intros row Hrow. apply includes_concat. apply Forall_forall.
    intros x Hx. apply in_map_iff in Hx. destruct Hx as [cell [Hc Hin]].
    subst x. pose proof (cells_of_clean nl row Hrow) as Hcs.
    rewrite Forall_forall in Hcs. unfold th_of.
    rewrite !includes_app, (Hcs _ Hin). reflexivity. }
  assert (Htr : forall row, includes nl row = false ->
    includes nl (tr_of row) = false).
  { intros row Hrow. unfold tr_of.
    pose proof (cells_of_clean nl row Hrow) as Hcs.
    destruct (cells_of row) as [|c cs]; [reflexivity|].
    rewrite !includes_app. rewrite includes_concat; [reflexivity|].
    apply Forall_forall. intros x Hx. apply in_map_iff in Hx.
    destruct Hx as [cell [Hc Hin]]. subst x.
    rewrite Forall_forall in Hcs. unfold td_of.
    rewrite !includes_app, (Hcs _ Hin). reflexivity. }
  unfold table_of. rewrite !includes_app.
  rewrite Hth by (now apply nth_clean).
  rewrite includes_concat; [reflexivity|].
  apply Forall_forall. intros x Hx. apply in_map_iff in Hx.
  destruct Hx as [row [Hr Hin]]. subst x. apply Htr.
  pose proof (skipn_clean nl rows 2 H) as Hs.
  rewrite Forall_forall in Hs. now apply Hs.
Qed.

Lemma collect_rows_clean (k : char) (lines : list str) :
  Forall (fun l => includes k l = false) lines ->
  Forall (fun l => includes k l = false) (collect_rows lines).
Proof.
  induction 1 as [|l rest Hl _ IH]; cbn [collect_rows]; [constructor|].
  destruct (has_pipe l); constructor; [now apply includes_trim|exact IH].
Qed.

(** The lines that the scan pushes hold no line feed when the lines of the
    input hold none. *)
Lemma scan_lines_no_nl (n : nat) :
  forall lines,
    length lines <= n ->
    Forall (fun l => includes nl l = false) lines ->
    Forall (fun l => includes nl l = false) (scan_lines 0 lines).
Proof.
  induction n as [|n IH]; intros lines Hn H.
  - destruct lines; [constructor|cbn [length] in Hn; lia].
  - destruct lines as [|l rest]; [constructor|].
    cbn [length] in Hn.
    destruct (has_pipe l) eqn:Hp.
    + destruct (qualifies (collect_rows (l :: rest))) eqn:Hq.
      * rewrite (scan_lines_table l rest Hp Hq). constructor.
        -- rewrite render_table_eq. apply table_of_no_nl.
           now apply collect_rows_clean.
        -- apply IH.
           ++ rewrite length_skipn.
              assert (1 <= length (collect_rows (l :: rest))).
              { cbn [collect_rows]. rewrite Hp. cbn [length]. lia. }
              cbn [length]. lia.
           ++ now apply skipn_clean.
      * rewrite (scan_lines_line l rest (or_intror Hq)).
        inversion H; subst. constructor; [assumption|].
        apply IH; [lia|assumption].
    + rewrite (scan_lines_line l rest (or_introl Hp)).
      inversion H; subst. constructor; [assumption|].
      apply IH; [lia|assumption].
Qed.

Lemma scan_lines_nonempty (l : str) (rest : list str) :
  scan_lines 0 (l :: rest) <> [].
Proof.
  cbn [scan_lines]. destruct (has_pipe l); [|discriminate].
  destruct (qualifies _); discriminate.
Qed.

(** A run that qualifies starts with three lines with pipes, the second
    one a separator. *)
Lemma qualifies_start (l : str) (rest : list str) :
  has_pipe l = true ->
  qualifies (collect_rows (l :: rest)) = true ->
  exists l2 l3 rest',
    rest = l2 :: l3 :: rest'
    /\ has_pipe l2 = true /\ has_pipe l3 = true
    /\ is_separator (trim l2) = true.
Proof.
  intros Hp Hq. unfold qualifies in Hq. cbn [collect_rows] in Hq.
  rewrite Hp in Hq. apply andb_true_iff in Hq. destruct Hq as [Hlen Hsep].
  apply Nat.leb_le in Hlen.
  destruct rest as [|l2 rest2]; [cbn in Hlen; lia|].
  cbn [collect_rows] in Hlen, Hsep.
  destruct (has_pipe l2) eqn:Hp2; [|cbn in Hlen; lia].
  destruct rest2 as [|l3 rest3]; [cbn in Hlen; lia|].
  cbn [collect_rows] in Hlen.
  destruct (has_pipe l3) eqn:Hp3; [|cbn in Hlen; lia].
  exists l2, l3, rest3. cbn [nth] in Hsep. auto.
Qed.

Lemma qualifies_of_start (l l2 l3 : str) (rest : list str) :
  has_pipe l = true -> has_pipe l2 = true -> has_pipe l3 = true ->
  is_separator (trim l2) = true ->
  qualifies (collect_rows (l :: l2 :: l3 :: rest)) = true.
Proof.
  intros H1 H2 H3 Hs. unfold qualifies. cbn [collect_rows].
  rewrite H1, H2, H3. cbn [nth length]. rewrite Hs. reflexivity.
Qed.

(** Without the start of a table the scan keeps every line. *)
Lemma scan_lines_fixed (lines : list str) :
  has_table_start lines = false -> scan_lines 0 lines = lines.
Proof.
  induction lines as [|l rest IH]; intros H; [reflexivity|].
  assert (Hrest : has_table_start rest = false).
  { cbn [has_table_start] in H.
    destruct rest as [|l2 [|l3 rest3]]; try reflexivity.
    apply orb_false_iff in H. apply H. }
  destruct (has_pipe l) eqn:Hp.
  - destruct (qualifies (collect_rows (l :: rest))) eqn:Hq.
    + destruct (qualifies_start l rest Hp Hq)
        as [l2 [l3 [rest' [-> [H2 [H3 Hs]]]]]].
      cbn [has_table_start] in H. rewrite Hp, H2, H3, Hs in H.
      discriminate H.
    + rewrite (scan_lines_line l rest (or_intror Hq)). now rewrite IH.
  - rewrite (scan_lines_line l rest (or_introl Hp)). now rewrite IH.
Qed.

(** The scan never pushes more lines than it reads, and fewer when a table
    starts somewhere. *)
Lemma scan_lines_shrinks (n : nat) :
  forall lines,
    length lines <= n ->
    length (scan_lines 0 lines) <= length lines
    /\ (has_table_start lines = true ->
        length (scan_lines 0 lines) < length lines).
Proof.
  induction n as [|n IH]; intros lines Hn.
  - destruct lines; [|cbn [length] in Hn; lia].
    split; [reflexivity|discriminate].
  - destruct lines as [|l rest]; [split; [reflexivity|discriminate]|].
    cbn [length] in Hn.
    assert (Hcase :
      (has_pipe l = true /\ qualifies (collect_rows (l :: rest)) = true)
      \/ (has_pipe l = false
          \/ qualifies (collect_rows (l :: rest)) = false)).
    { destruct (has_pipe l); [|now right; left].
      destruct (qualifies _); [now left|now right; right]. }
    destruct Hcase as [[Hp Hq]|Hline].
    + rewrite (scan_lines_table l rest Hp Hq).
      assert (Hlen : 3 <= length (collect_rows (l :: rest))).
      { unfold qualifies in Hq. apply andb_true_iff in Hq.
        now apply Nat.leb_le. }
      pose proof (collect_rows_length (l :: rest)) as Hle.
      destruct (IH (skipn (length (collect_rows (l :: rest))) (l :: rest)))
        as [Hshort _].
      { rewrite length_skipn. cbn [length] in *. lia. }
      rewrite length_skipn in Hshort. cbn [length] in *. lia.
    + rewrite (scan_lines_line l rest Hline).
      destruct (IH rest) as [Hshort Hstrict]; [lia|].
      cbn [length]. split; [lia|].
      intros Hstart. cbn [has_table_start] in Hstart.
      destruct rest as [|l2 [|l3 rest3]]; try discriminate Hstart.
      apply orb_true_iff in Hstart. destruct Hstart as [Hhead|Htail].
      * apply andb_true_iff in Hhead. destruct Hhead as [Hhead H3].
        apply andb_true_iff in Hhead. destruct Hhead as [Hhead Hs].
        apply andb_true_iff in Hhead. destruct Hhead as [H1 H2].
        pose proof (qualifies_of_start l l2 l3 rest3 H1 H2 H3 Hs) as Hq.
        destruct Hline as [Hp|Hnq]; congruence.
      * specialize (Hstrict Htail). lia.
Qed.

(** A line with a pipe that the scan pushes first was the first line of
    the input. *)
Lemma scan_lines_head_pipe (lines : list str) (x : str) (out : list str) :
  scan_lines 0 lines = x :: out -> has_pipe x = true ->
  exists rest, lines = x :: rest /\ out = scan_lines 0 rest.
Proof.
  intros H Hx. destruct lines as [|l rest]; [discriminate H|].
  destruct (has_pipe l) eqn:Hp.
  - destruct (qualifies (collect_rows (l :: rest))) eqn:Hq.
    + rewrite (scan_lines_table l rest Hp Hq) in H. injection H as H1 H2.
      subst x. rewrite render_table_eq in Hx. unfold has_pipe in Hx.
      rewrite (includes_trim pipe _ (table_of_no_pipe _)) in Hx.
      discriminate Hx.
    + rewrite (scan_lines_line l rest (or_intror Hq)) in H.
      injection H as H1 H2. subst. now exists rest.
  - rewrite (scan_lines_line l rest (or_introl Hp)) in H.
    injection H as H1 H2. subst. congruence.
Qed.

Lemma has_table_start_cons (l : str) (rest : list str) :
  has_pipe l = false ->
  has_table_start (l :: rest) = has_table_start rest.
Proof.
  intros Hp. cbn [has_table_start]. rewrite Hp.
  now destruct rest as [|l2 [|l3 rest3]].
Qed.

Lemma has_table_start_step (l l2 l3 : str) (rest : list str) :
  has_table_start (l :: l2 :: l3 :: rest)
  = (has_pipe l && has_pipe l2 && is_separator (trim l2) && has_pipe l3)
    || has_table_start (l2 :: l3 :: rest).
Proof. reflexivity. Qed.

(** What the scan pushes holds no start of a table any more. *)
Lemma scan_lines_settled (n : nat) :
  forall lines,
    length lines <= n -> has_table_start (scan_lines 0 lines) = false.
Proof.
  induction n as [|n IH]; intros lines Hn.
  - destruct lines; [reflexivity|cbn [length] in Hn; lia].
  - destruct lines as [|l rest]; [reflexivity|].
    cbn [length] in Hn.
    destruct (has_pipe l) eqn:Hp.
    + destruct (qualifies (collect_rows (l :: rest))) eqn:Hq.
      * rewrite (scan_lines_table l rest Hp Hq).
        rewrite has_table_start_cons.
        -- apply IH. rewrite length_skipn.
           assert (1 <= length (collect_rows (l :: rest))).
           { cbn [collect_rows]. rewrite Hp. cbn [length]. lia. }
           cbn [length]. lia.
        -- rewrite render_table_eq. unfold has_pipe.
           apply includes_trim, table_of_no_pipe.
      * rewrite (scan_lines_line l rest (or_intror Hq)).
        pose proof (IH rest ltac:(lia)) as Hrest.
        destruct (scan_lines 0 rest) as [|x2 [|x3 out]] eqn:Hscan;
          try reflexivity.
        rewrite has_table_start_step, Hrest, orb_false_r.
        destruct (has_pipe x2) eqn:H2; [|now rewrite andb_false_r].
        destruct (has_pipe x3) eqn:H3; [|now rewrite andb_false_r].
        destruct (is_separator (trim x2)) eqn:Hs;
          [|now rewrite andb_false_r].
        destruct (scan_lines_head_pipe rest x2 (x3 :: out) Hscan H2)
          as [rest2 [-> Hout]].
        symmetry in Hout.
        destruct (scan_lines_head_pipe rest2 x3 out Hout H3)
          as [rest3 [-> _]].
        rewrite (qualifies_of_start l x2 x3 rest3 Hp H2 H3 Hs) in Hq.
        discriminate Hq.
    + rewrite (scan_lines_line l rest (or_introl Hp)).
      rewrite has_table_start_cons by exact Hp. apply IH. lia.
Qed.

Lemma split_scan_lines (text : str) :
  split_on nl (join_with nl (scan_lines 0 (split_on nl text)))
  = scan_lines 0 (split_on nl text).
Proof.
  apply split_join.
  - pose proof (split_on_nonempty nl text) as Hne.
    destruct (split_on nl text) as [|l rest]; [congruence|].
    apply scan_lines_nonempty.
  - apply (scan_lines_no_nl (length (split_on nl text))); [lia|].
    apply split_on_no_sep.
Qed.

(** X3.  The table parser returns its input unchanged exactly when the
    input has no three lines in a row that each contain a pipe (after
    trimming) and of which the middle one, trimmed, is made of pipes,
    hyphens, colons and white space only. *)
Theorem X3_parseTable_unchanged_iff_no_table_start (text : str) :
  parseTable text = Normal text
  <-> has_table_start (split_on nl text) = false.
Proof.
  rewrite parseTable_eq. split.
  - intros H. injection H as H.
    pose proof (split_scan_lines text) as Hs. rewrite H in Hs.
    destruct (has_table_start (split_on nl text)) eqn:Hstart;
      [|reflexivity].
    destruct (scan_lines_shrinks (length (split_on nl text))
                (split_on nl text) (le_n _)) as [_ Hstrict].
    specialize (Hstrict Hstart). rewrite <- Hs in Hstrict. lia.
  - intros H. rewrite (scan_lines_fixed _ H), join_split. reflexivity.
Qed.

(** X4.  Running the table parser on its own result changes nothing: a
    table takes one line without a pipe, and the lines that were kept do
    not form a table among themselves. *)
Theorem X4_parseTable_idempotent (text : str) :
  (out <- parseTable text ;; parseTable out) = parseTable text.
Proof.
  rewrite (parseTable_eq text). cbn [bind]. rewrite parseTable_eq.
  rewrite split_scan_lines.
  rewrite (scan_lines_fixed (scan_lines 0 (split_on nl text))).
  - reflexivity.
  - apply (scan_lines_settled (length (split_on nl text))). lia.
Qed.

(** *** The cells of a row *)

Lemma drop_while_fixed (f : char -> bool) (s : str) :
  match s with [] => True | c :: _ => f c = false end ->
  drop_while f s = s.
Proof. destruct s as [|c t]; [reflexivity|]. cbn. now intros ->. Qed.

Lemma drop_while_head (f : char -> bool) (s : str) :
  match drop_while f s with [] => True | c :: _ => f c = false end.
Proof.
  induction s as [|c t IH]; [exact I|]. cbn [drop_while].
  destruct (f c) eqn:E; [exact IH|exact E].
Qed.

Lemma drop_while_snoc (f : char -> bool) (s : str) (c : char) :
  f c = false -> drop_while f (s ++ [c]) = drop_while f s ++ [c].
Proof.
  intros Hc. induction s as [|x t IH].
  - cbn. now rewrite Hc.
  - cbn [app drop_while]. destruct (f x); [exact IH|reflexivity].
Qed.

(** A trimmed text has no white space at either end. *)
Lemma trim_head (s : str) :
  match trim s with [] => True | c :: _ => is_space c = false end.
Proof.
  unfold trim.
  pose proof (drop_while_head is_space s) as Ha.
  destruct (drop_while is_space s) as [|c a]; [exact I|].
  cbn [rev]. rewrite (drop_while_snoc is_space (rev a) c Ha).
  rewrite rev_app_distr. exact Ha.
Qed.

Lemma trim_last (s : str) :
  match rev (trim s) with [] => True | c :: _ => is_space c = false end.
Proof. unfold trim. rewrite rev_involutive. apply drop_while_head. Qed.

(** Trimming a trimmed text changes nothing. *)
Lemma trim_trim (s : str) : trim (trim s) = trim s.
Proof.
  unfold trim at 1.
  rewrite (drop_while_fixed is_space (trim s) (trim_head s)).
  rewrite (drop_while_fixed is_space (rev (trim s)) (trim_last s)).
  apply rev_involutive.
Qed.

Lemma split_on_sep (sep : char) (s r : str) :
  split_on sep (s ++ sep :: r) = split_on sep s ++ split_on sep r.
Proof.
  induction s as [|c t IH].
  - cbn. now rewrite char_eqb_refl.
  - cbn [app split_on]. rewrite IH.
    destruct (char_eqb c sep); [reflexivity|].
    pose proof (split_on_nonempty sep t) as Hne.
    destruct (split_on sep t); [congruence|reflexivity].
Qed.

Lemma cells_of_sep (s r : str) :
  cells_of (s ++ pipe :: r) = cells_of s ++ cells_of r.
Proof.
  unfold cells_of. now rewrite split_on_sep, map_app, filter_app.
Qed.

(** X5.  The cells that the table parser takes from a row are never empty,
    have no white space at either end and hold no pipe; a pipe at the
    start and at the end of the row makes no difference, and neither does
    an empty cell inside it. *)
Theorem X5_cells_trimmed_and_nonempty (row more : str) :
  Forall (fun cell =>
            cell <> [] /\ trim cell = cell /\ includes pipe cell = false)
    (cells_of row)
  /\ cells_of (pipe :: row ++ [pipe]) = cells_of row
  /\ cells_of (row ++ pipe :: pipe :: more)
     = cells_of (row ++ pipe :: more).
Proof.
  split; [|split].
  - apply Forall_forall. intros cell Hin.
    pose proof (cells_of_no_pipe row) as Hp. rewrite Forall_forall in Hp.
    split; [|split; [|now apply Hp]].
    + unfold cells_of in Hin. apply filter_In in Hin.
      destruct Hin as [_ Hne]. now destruct cell.
    + unfold cells_of in Hin. apply filter_In in Hin.
      destruct Hin as [Hin _]. apply in_map_iff in Hin.
      destruct Hin as [x [<- _]]. apply trim_trim.
  - change (pipe :: row ++ [pipe]) with ([] ++ pipe :: row ++ [pipe]).
    rewrite !cells_of_sep. cbn [app]. apply app_nil_r.
  - rewrite !cells_of_sep.
    change (pipe :: more) with ([] ++ pipe :: more).
    rewrite cells_of_sep. reflexivity.
Qed.

(** ** Text without markdown *)

(** *** Substitutions that find nothing *)

Lemma replace_from_needs (m : matcher) (x : char) :
  needs m x ->
  forall s p, includes x s = false -> replace_from m p 0 s = s.
Proof.
  intros Hm. induction s as [|c t IH]; intros p Hx.
  - cbn. now rewrite (Hm p [] Hx).
  - cbn [replace_from]. rewrite (Hm p (c :: t) Hx).
    rewrite includes_cons in Hx. apply orb_false_iff in Hx.
    now rewrite IH.
Qed.

Lemma replace_all_needs (m : matcher) (x : char) (s : str) :
  needs m x -> includes x s = false -> replace_all m s = s.
Proof. intros Hm Hx. now apply (replace_from_needs m x Hm). Qed.

Lemma replace_from_line_bound (m : matcher) :
  line_bound m ->
  forall s p,
    forallb not_line_terminator s = true -> m p s = None ->
    replace_from m p 0 s = s.
Proof.
  intros Hm. induction s as [|c t IH]; intros p Hs Hp.
  - cbn. now rewrite Hp.
  - cbn [replace_from]. rewrite Hp. cbn [forallb] in Hs.
    apply andb_true_iff in Hs. destruct Hs as [Hc Ht].
    rewrite IH; [reflexivity|exact Ht|].
    apply Hm. unfold not_line_terminator in Hc.
    now apply negb_true_iff in Hc.
Qed.

Lemma replace_all_line_bound (m : matcher) (s : str) :
  line_bound m -> forallb not_line_terminator s = true ->
  m None s = None -> replace_all m s = s.
Proof. intros Hm Hs Hp. now apply replace_from_line_bound. Qed.

Lemma replace_from_blind (m : matcher) (k : nat) (s : str) :
  blind m -> forall p p', replace_from m p k s = replace_from m p' k s.
Proof.
  intros Hm. revert k. induction s as [|c t IH]; intros k p p'.
  - destruct k; cbn; [now rewrite (Hm p p')|reflexivity].
  - destruct k; cbn [replace_from]; [|reflexivity].
    now rewrite (Hm p p').
Qed.

Lemma replace_from_starts_at (m : matcher) (x : char) :
  blind m -> starts_at m x ->
  forall s p r,
    includes x s = false ->
    replace_from m p 0 (s ++ r) = s ++ replace_from m p 0 r.
Proof.
  intros Hb [_ Hm]. induction s as [|c t IH]; intros p r Hx.
  - reflexivity.
  - rewrite includes_cons in Hx. apply orb_false_iff in Hx.
    destruct Hx as [Hc Ht]. cbn [app replace_from].
    rewrite Hm by (now rewrite char_eqb_sym).
    rewrite IH by exact Ht.
    now rewrite (replace_from_blind m 0 r Hb (Some c) p).
Qed.

(** A blind substitution whose matches start with an opening angle
    bracket, on a paragraph without one inside: it can match at the start
    and at the closing tag only. *)
Lemma replace_all_paragraph (m : matcher) (e : str) :
  blind m -> starts_at m 60%N -> includes 60%N e = false ->
  m None (lit "<p>" ++ e ++ lit "</p>") = None ->
  replace_from m None 0 (lit "</p>") = lit "</p>" ->
  replace_all m (lit "<p>" ++ e ++ lit "</p>")
  = lit "<p>" ++ e ++ lit "</p>".
Proof.
  intros Hb Hs He H0 Hend. unfold replace_all.
  change (lit "<p>" ++ e ++ lit "</p>")
    with (60%N :: ([112%N; 62%N] ++ e) ++ lit "</p>") in *.
  cbn [replace_from]. rewrite H0.
  rewrite (replace_from_starts_at m 60%N Hb Hs).
  - rewrite (replace_from_blind m 0 _ Hb (Some 60%N) None), Hend.
    reflexivity.
  - rewrite includes_app, He. reflexivity.
Qed.

(** *** The rules of the renderer: what each one needs *)

Lemma strip_prefix_needs (x : char) (p s : str) :
  includes x p = true -> includes x s = false -> strip_prefix p s = None.
Proof.
  intros Hp Hs. destruct (strip_prefix p s) as [r|] eqn:E; [|reflexivity].
  apply strip_prefix_Some in E. subst s.
  rewrite includes_app, Hp in Hs. discriminate Hs.
Qed.

Lemma needs_re_lit (x : char) (pat repl : str) :
  includes x pat = true -> needs (re_lit pat repl) x.
Proof.
  intros Hp prev s Hs. unfold re_lit.
  now rewrite (strip_prefix_needs x pat s Hp Hs).
Qed.

Lemma needs_re_char (x : char) (repl : str) : needs (re_char x repl) x.
Proof.
  apply needs_re_lit. cbn. now rewrite char_eqb_refl.
Qed.

Lemma needs_re_lazy (x : char) (op cl : str) (k : str -> str) :
  includes x op = true -> needs (re_lazy op cl k) x.
Proof.
  intros Hp prev s Hs. unfold re_lazy.
  now rewrite (strip_prefix_needs x op s Hp Hs).
Qed.

Lemma needs_re_run (x : char) (op : str) (cls : char -> bool) (cl : str)
    (k : str -> str) :
  includes x op = true -> needs (re_run op cls cl k) x.
Proof.
  intros Hp prev s Hs. unfold re_run.
  now rewrite (strip_prefix_needs x op s Hp Hs).
Qed.

Lemma needs_re_items (x : char) (op cl pre post : str) :
  includes x op = true -> needs (re_items op cl pre post) x.
Proof.
  intros Hp prev s Hs. unfold re_items.
  destruct (length s) as [|fuel]; [reflexivity|].
  cbn [items_length]. now rewrite (strip_prefix_needs x op s Hp Hs).
Qed.

Lemma needs_re_line_lit (x : char) (pat : str) (k : str -> str) :
  includes x pat = true -> needs (re_line (head_lit pat) k) x.
Proof.
  intros Hp prev s Hs. unfold re_line, head_lit.
  rewrite (strip_prefix_needs x pat s Hp Hs). now destruct (at_line_start _).
Qed.

Lemma needs_re_hr : needs re_hr 45%N.
Proof.
  intros prev s Hs. unfold re_hr. destruct (at_line_start prev); [|reflexivity].
  destruct s as [|c t]; [reflexivity|].
  rewrite includes_cons in Hs. apply orb_false_iff in Hs.
  destruct Hs as [Hc _]. now rewrite (span_stop _ c t Hc).
Qed.

Lemma needs_re_blank_lines : needs re_blank_lines nl.
Proof.
  intros prev s Hs. unfold re_blank_lines.
  now rewrite (strip_prefix_needs nl [nl; nl] s eq_refl Hs).
Qed.

Lemma line_bound_re_line (head : str -> option (nat * str))
    (k : str -> str) : line_bound (re_line head k).
Proof. intros c s Hc. unfold re_line. cbn [at_line_start]. now rewrite Hc. Qed.

Lemma blind_any (f : str -> option (str * nat)) : blind (fun _ s => f s).
Proof. intros p p' s. reflexivity. Qed.

Lemma starts_at_re_lit (x : char) (pat repl : str) :
  starts_at (re_lit (x :: pat) repl) x.
Proof.
  split; [reflexivity|]. intros prev c s Hc. unfold re_lit.
  rewrite strip_prefix_neq; [reflexivity|]. now rewrite char_eqb_sym.
Qed.

Lemma starts_at_re_p_heading : starts_at re_p_heading 60%N.
Proof.
  split; [reflexivity|]. intros prev c s Hc. unfold re_p_heading.
  change (lit "<p><h") with (60%N :: lit "p><h").
  rewrite strip_prefix_neq; [reflexivity|]. now rewrite char_eqb_sym.
Qed.

Lemma starts_at_re_heading_p : starts_at re_heading_p 60%N.
Proof.
  split; [reflexivity|]. intros prev c s Hc. unfold re_heading_p.
  change (lit "</h") with (60%N :: lit "/h").
  rewrite strip_prefix_neq; [reflexivity|]. now rewrite char_eqb_sym.
Qed.

Lemma starts_at_re_blank_paragraph : starts_at re_blank_paragraph 60%N.
Proof.
  split; [reflexivity|]. intros prev c s Hc. unfold re_blank_paragraph.
  change (lit "<p>") with (60%N :: lit "p>").
  rewrite strip_prefix_neq; [reflexivity|]. now rewrite char_eqb_sym.
Qed.

(** *** What sober text holds *)

Lemma sober_cons (c : char) (s : str) :
  sober (c :: s) <-> is_markdown_char c = false /\ sober s.
Proof.
  unfold sober. cbn [forallb]. rewrite andb_true_iff, negb_true_iff.
  reflexivity.
Qed.

Lemma sober_includes (k : char) (s : str) :
  is_markdown_char k = true -> sober s -> includes k s = false.
Proof.
  intros Hk. induction s as [|c t IH]; intros Hs; [reflexivity|].
  apply sober_cons in Hs. destruct Hs as [Hc Ht].
  rewrite includes_cons, (IH Ht), orb_false_r.
  apply char_eqb_neq. intros ->. congruence.
Qed.

Lemma sober_lines (s : str) :
  sober s -> forallb not_line_terminator s = true.
Proof.
  induction s as [|c t IH]; intros Hs; [reflexivity|].
  apply sober_cons in Hs. destruct Hs as [Hc Ht].
  cbn [forallb]. rewrite (IH Ht), andb_true_r.
  unfold is_markdown_char in Hc. apply orb_false_iff in Hc.
  unfold not_line_terminator. now rewrite (proj2 Hc).
Qed.

Lemma sober_escape_char (x : char) :
  is_markdown_char x = false -> sober (escape_char x).
Proof.
  intros Hx. unfold escape_char.
  destruct (char_eqb x 38%N); [reflexivity|].
  destruct (char_eqb x 60%N); [reflexivity|].
  destruct (char_eqb x 62%N); [reflexivity|].
  apply sober_cons. split; [exact Hx|reflexivity].
Qed.

Lemma sober_app (s t : str) : sober (s ++ t) <-> sober s /\ sober t.
Proof. unfold sober. rewrite forallb_app, andb_true_iff. reflexivity. Qed.

Lemma sober_escape_html (s : str) : sober s -> sober (escape_html s).
Proof.
  rewrite escape_html_flat_map.
  induction s as [|x t IH]; intros Hs; [reflexivity|].
  apply sober_cons in Hs. destruct Hs as [Hx Ht]. cbn [flat_map].
  apply sober_app. split; [now apply sober_escape_char|now apply IH].
Qed.

(** *** What the escaping step keeps of the start of a text *)

Lemma escape_char_unescaped (c : char) :
  unescaped c = true -> escape_char c = [c].
Proof.
  unfold unescaped, escape_char. intros H. apply negb_true_iff in H.
  apply orb_false_iff in H. destruct H as [H H3].
  apply orb_false_iff in H. destruct H as [H1 H2].
  now rewrite H1, H2, H3.
Qed.

Lemma escape_char_first (x : char) :
  exists r, escape_char x = (if unescaped x then x else 38%N) :: r.
Proof.
  unfold unescaped, escape_char.
  destruct (char_eqb x 38%N); [eexists; reflexivity|].
  destruct (char_eqb x 60%N); [eexists; reflexivity|].
  destruct (char_eqb x 62%N); eexists; reflexivity.
Qed.

Lemma strip_prefix_cons (a b : char) (p s : str) :
  strip_prefix (a :: p) (b :: s)
  = if char_eqb a b then strip_prefix p s else None.
Proof. reflexivity. Qed.

(** A literal of code units that are not escaped is found at the start of
    the escaped text exactly when it is at the start of the text. *)
Lemma strip_prefix_escape (p : str) :
  forallb unescaped p = true ->
  forall s,
    strip_prefix p (escape_html s)
    = option_map escape_html (strip_prefix p s).
Proof.
  intros Hp s. rewrite escape_html_flat_map.
  revert s. induction p as [|a p IH]; intros s.
  - change (Some (flat_map escape_char s) = Some (escape_html s)).
    now rewrite escape_html_flat_map.
  - cbn [forallb] in Hp. apply andb_true_iff in Hp. destruct Hp as [Ha Hp].
    destruct s as [|x t]; [reflexivity|].
    cbn [flat_map]. rewrite strip_prefix_cons.
    destruct (char_eqb a x) eqn:Eax.
    + apply char_eqb_eq in Eax. subst x.
      rewrite (escape_char_unescaped a Ha). cbn [app].
      rewrite strip_prefix_cons, char_eqb_refl. now apply IH.
    + destruct (escape_char_first x) as [r ->]. cbn [app].
      rewrite strip_prefix_cons.
      destruct (unescaped x); [now rewrite Eax|].
      assert (Ha38 : char_eqb a 38%N = false).
      { unfold unescaped in Ha. apply negb_true_iff in Ha.
        apply orb_false_iff in Ha. destruct Ha as [Ha _].
        apply orb_false_iff in Ha. apply Ha. }
      now rewrite Ha38.
Qed.

Lemma span_digit_escape (s : str) :
  span is_digit (escape_html s)
  = (fst (span is_digit s), escape_html (snd (span is_digit s))).
Proof.
  rewrite escape_html_flat_map.
  induction s as [|x t IH]; [reflexivity|].
  cbn [flat_map]. destruct (is_digit x) eqn:Ed.
  - assert (Hu : unescaped x = true).
    { unfold is_digit in Ed. apply andb_true_iff in Ed.
      destruct Ed as [E1 E2]. apply N.leb_le in E1, E2.
      unfold unescaped, char_eqb.
      destruct (N.eqb_spec x 38); [lia|].
      destruct (N.eqb_spec x 60); [lia|].
      destruct (N.eqb_spec x 62); [lia|]. reflexivity. }
    rewrite (escape_char_unescaped x Hu). cbn [app].
    rewrite !(span_go is_digit x _ Ed), IH. cbn [fst snd].
    now rewrite escape_html_flat_map.
  - rewrite (span_stop is_digit x t Ed). cbn [fst snd].
    rewrite escape_html_flat_map. cbn [flat_map].
    destruct (escape_char_first x) as [r ->]. cbn [app].
    rewrite span_stop; [reflexivity|].
    destruct (unescaped x); [exact Ed|reflexivity].
Qed.

Lemma head_ordered_escape (s : str) :
  head_ordered s = None -> head_ordered (escape_html s) = None.
Proof.
  unfold head_ordered. rewrite span_digit_escape.
  destruct (span is_digit s) as [ds r]. cbn [fst snd].
  destruct ds as [|d ds]; [reflexivity|].
  rewrite (strip_prefix_escape (lit ". ") eq_refl).
  now destruct (strip_prefix (lit ". ") r).
Qed.

Lemma blockquote_head_escape (s : str) :
  starts_with (lit "> ") s = false ->
  strip_prefix (lit "&gt; ") (escape_html s) = None.
Proof.
  unfold starts_with. intros H. rewrite escape_html_flat_map.
  destruct s as [|x t]; [reflexivity|].
  cbn [flat_map].
  destruct (escape_char_head x) as [[E N]|[[-> E]|[[-> E]|[-> E]]]];
    rewrite E; try reflexivity.
  - cbn [app]. change (lit "&gt; ") with (38%N :: lit "gt; ").
    rewrite strip_prefix_neq; [reflexivity|].
    apply char_eqb_neq. congruence.
  - change (lit "&gt;" ++ flat_map escape_char t)
      with (lit "&gt;" ++ flat_map escape_char t).
    change (lit "&gt; ") with (lit "&gt;" ++ lit " ").
    change (strip_prefix (lit "&gt;" ++ lit " ")
              (lit "&gt;" ++ flat_map escape_char t))
      with (strip_prefix (lit " ") (flat_map escape_char t)).
    rewrite <- escape_html_flat_map.
    rewrite (strip_prefix_escape (lit " ") eq_refl).
    change (strip_prefix (lit "> ") (62%N :: t))
      with (strip_prefix (lit " ") t) in H.
    now destruct (strip_prefix (lit " ") t).
Qed.

Lemma not_blank_escape (s : str) :
  forallb is_space s = false -> forallb is_space (escape_html s) = false.
Proof.
  rewrite escape_html_flat_map.
  induction s as [|x t IH]; intros H; [discriminate H|].
  cbn [forallb] in H. cbn [flat_map]. rewrite forallb_app.
  apply andb_false_iff in H. destruct H as [Hx|Ht].
  - destruct (escape_char_first x) as [r ->]. cbn [forallb].
    destruct (unescaped x); [now rewrite Hx|reflexivity].
  - rewrite (IH Ht). apply andb_false_r.
Qed.

Lemma head_bullet_sober (s : str) : sober s -> head_bullet s = None.
Proof.
  intros Hs. destruct s as [|c t]; [reflexivity|].
  apply sober_cons in Hs. destruct Hs as [Hc _]. unfold head_bullet.
  unfold is_markdown_char in Hc. apply orb_false_iff in Hc.
  destruct Hc as [Hc _]. cbn in Hc.
  repeat (apply orb_false_iff in Hc; destruct Hc as [? Hc]).
  replace (char_eqb c 42%N) with false by (symmetry; assumption).
  replace (char_eqb c 45%N) with false by (symmetry; assumption).
  reflexivity.
Qed.

(** Without a hyphen there is no table fragment to protect. *)
Lemma protect_from_no_hyphen (s : str) :
  includes 45%N s = false -> protect_from [] 0 s = (s, []).
Proof.
  induction s as [|c t IH]; intros H; [reflexivity|].
  cbn [protect_from]. unfold match_table.
  rewrite (strip_prefix_needs 45%N TABLE_OPEN (c :: t) eq_refl H).
  rewrite includes_cons in H. apply orb_false_iff in H.
  now rewrite (IH (proj2 H)).
Qed.

Lemma render_no_tables (text : str) :
  includes pipe text = false -> includes 45%N text = false ->
  render text = Normal (paragraphs (markup (escape_html text))).
Proof.
  intros Hp Ha. rewrite render_eq. cbv zeta.
  pose proof (parseTable_no_pipe text Hp) as Ht.
  rewrite parseTable_eq in Ht.
  assert (Hj : join_with nl (scan_lines 0 (split_on nl text)) = text)
    by congruence.
  rewrite Hj. unfold protect_tables.
  rewrite (protect_from_no_hyphen text Ha). reflexivity.
Qed.

(** *** The renderer on sober text *)

(** The innermost substitution of the goal, handed to [tac]. *)
Ltac innermost tac :=
  match goal with
  | |- context [replace_all ?m ?s] =>
      lazymatch s with
      | context [replace_all] => fail
      | _ => tac m s
      end
  end.

Ltac skip_needs x :=
  innermost ltac:(fun m s =>
    rewrite (replace_all_needs m x s);
    [ | first [ apply needs_re_lit; reflexivity
              | apply needs_re_char
              | apply needs_re_lazy; reflexivity
              | apply needs_re_run; reflexivity
              | apply needs_re_items; reflexivity
              | apply needs_re_line_lit; reflexivity
              | apply needs_re_hr
              | apply needs_re_blank_lines ]
      | ]).

(** The inline and block rules leave escaped sober text alone, unless it
    starts like a quotation or like a numbered item. *)
Lemma markup_sober (e : str) :
  sober e -> includes 60%N e = false ->
  strip_prefix (lit "&gt; ") e = None -> head_ordered e = None ->
  markup e = e.
Proof.
  intros Hs Ha Hq Ho. unfold markup. cbv zeta.
  pose proof (sober_lines e Hs) as Hl.
  skip_needs 96%N; [|now apply sober_includes].
  skip_needs 96%N; [|now apply sober_includes].
  skip_needs 42%N; [|now apply sober_includes].
  skip_needs 42%N; [|now apply sober_includes].
  skip_needs 95%N; [|now apply sober_includes].
  skip_needs 45%N; [|now apply sober_includes].
  innermost ltac:(fun m s => rewrite (replace_all_line_bound m s)).
  2: apply line_bound_re_line.
  2: exact Hl.
  2: { unfold re_line, head_lit. cbn [at_line_start]. now rewrite Hq. }
  skip_needs 35%N; [|now apply sober_includes].
  skip_needs 35%N; [|now apply sober_includes].
  skip_needs 35%N; [|now apply sober_includes].
  innermost ltac:(fun m s => rewrite (replace_all_line_bound m s)).
  2: apply line_bound_re_line.
  2: exact Hl.
  2: { unfold re_line. cbn [at_line_start]. now rewrite Ho. }
  innermost ltac:(fun m s => rewrite (replace_all_line_bound m s)).
  2: apply line_bound_re_line.
  2: exact Hl.
  2: { unfold re_line. cbn [at_line_start].
       now rewrite (head_bullet_sober e Hs). }
  skip_needs 60%N; [|exact Ha].
  skip_needs 45%N; [|now apply sober_includes].
  skip_needs 60%N; [|exact Ha].
  skip_needs 45%N; [|now apply sober_includes].
  reflexivity.
Qed.

(** Behind white space, a text that is not blank and holds no opening
    angle bracket does not go on with a tag. *)
Lemma span_space_no_tag (q e r : str) :
  forallb is_space e = false -> includes 60%N e = false ->
  strip_prefix (60%N :: q) (snd (span is_space (e ++ r))) = None.
Proof.
  induction e as [|c t IH]; intros Hb Ha; [discriminate Hb|].
  rewrite includes_cons in Ha. apply orb_false_iff in Ha.
  destruct Ha as [Hc Ht]. cbn [forallb] in Hb. cbn [app].
  destruct (is_space c) eqn:Ec.
  - rewrite (span_go is_space c _ Ec). cbn [snd]. now apply IH.
  - rewrite (span_stop is_space c _ Ec). cbn [snd].
    now apply strip_prefix_neq.
Qed.

Ltac skip_tag He :=
  innermost ltac:(fun m s =>
    rewrite (replace_all_paragraph m _ (blind_any _)
               ltac:(first [ apply starts_at_re_lit
                           | apply starts_at_re_p_heading
                           | apply starts_at_re_heading_p
                           | apply starts_at_re_blank_paragraph ])
               He);
    [ | | reflexivity ]).

(** The paragraph step wraps a text of one line without hash and opening
    angle bracket in one paragraph, and the clean-up around the block
    elements leaves it alone; what is left to do is the removal of a
    blank paragraph. *)
Lemma paragraphs_front (e : str) :
  includes nl e = false -> includes 35%N e = false ->
  includes 60%N e = false -> e <> [] ->
  paragraphs e
  = replace_all (re_lit (lit "<p><br></p>") [])
      (replace_all re_blank_paragraph (lit "<p>" ++ e ++ lit "</p>")).
Proof.
  intros Hn Hh Ha Hb. unfold paragraphs. cbv zeta.
  skip_needs nl; [|exact Hn].
  skip_needs nl; [|exact Hn].
  skip_needs 35%N;
    [|rewrite !includes_app, Hh; reflexivity].
  assert (Hfirst : forall q r, strip_prefix (60%N :: q) (e ++ r) = None).
  { intros q r. destruct e as [|c t]; [congruence|].
    rewrite includes_cons in Ha. apply orb_false_iff in Ha.
    now apply strip_prefix_neq. }
  (* headings *)
  skip_tag Ha.
  2: { unfold re_p_heading.
       change (strip_prefix (lit "<p><h") (lit "<p>" ++ e ++ lit "</p>"))
         with (strip_prefix (lit "<h") (e ++ lit "</p>")).
       change (lit "<h") with (60%N :: lit "h"). now rewrite Hfirst. }
  skip_tag Ha; [|reflexivity].
  (* the rule *)
  skip_tag Ha.
  2: { unfold re_lit.
       change (strip_prefix (lit "<p><hr></p>") (lit "<p>" ++ e ++ lit "</p>"))
         with (strip_prefix (60%N :: lit "hr></p>") (e ++ lit "</p>")).
       now rewrite Hfirst. }
  (* quotations *)
  skip_tag Ha.
  2: { unfold re_lit.
       change (strip_prefix (lit "<p><blockquote>")
                 (lit "<p>" ++ e ++ lit "</p>"))
         with (strip_prefix (60%N :: lit "blockquote>") (e ++ lit "</p>")).
       now rewrite Hfirst. }
  skip_tag Ha; [|reflexivity].
  (* lists *)
  skip_tag Ha.
  2: { unfold re_lit.
       change (strip_prefix (lit "<p><ul>") (lit "<p>" ++ e ++ lit "</p>"))
         with (strip_prefix (60%N :: lit "ul>") (e ++ lit "</p>")).
       now rewrite Hfirst. }
  skip_tag Ha; [|reflexivity].
  skip_tag Ha.
  2: { unfold re_lit.
       change (strip_prefix (lit "<p><ol>") (lit "<p>" ++ e ++ lit "</p>"))
         with (strip_prefix (60%N :: lit "ol>") (e ++ lit "</p>")).
       now rewrite Hfirst. }
  skip_tag Ha; [|reflexivity].
  (* code blocks *)
  skip_tag Ha.
  2: { unfold re_lit.
       change (strip_prefix (lit "<p><pre>") (lit "<p>" ++ e ++ lit "</p>"))
         with (strip_prefix (60%N :: lit "pre>") (e ++ lit "</p>")).
       now rewrite Hfirst. }
  skip_tag Ha; [|reflexivity].
  (* empty paragraphs *)
  skip_tag Ha.
  2: { unfold re_lit.
       change (strip_prefix (lit "<p></p>") (lit "<p>" ++ e ++ lit "</p>"))
         with (strip_prefix (60%N :: lit "/p>") (e ++ lit "</p>")).
       now rewrite Hfirst. }
  reflexivity.
Qed.

(** The paragraph step wraps such a text in one paragraph and the clean-up
    leaves it alone, unless it is blank. *)
Lemma paragraphs_sober (e : str) :
  includes nl e = false -> includes 35%N e = false ->
  includes 60%N e = false -> forallb is_space e = false ->
  paragraphs e = lit "<p>" ++ e ++ lit "</p>".
Proof.
  intros Hn Hh Ha Hb.
  assert (Hne : e <> []) by (intros ->; discriminate Hb).
  rewrite (paragraphs_front e Hn Hh Ha Hne).
  assert (Hfirst : forall q r, strip_prefix (60%N :: q) (e ++ r) = None).
  { intros q r. destruct e as [|c t]; [congruence|].
    rewrite includes_cons in Ha. apply orb_false_iff in Ha.
    now apply strip_prefix_neq. }
  skip_tag Ha.
  2: { unfold re_blank_paragraph.
       change (strip_prefix (lit "<p>") (lit "<p>" ++ e ++ lit "</p>"))
         with (Some (e ++ lit "</p>")).
       cbv iota beta.
       pose proof (span_space_no_tag (lit "/p>") e (lit "</p>") Hb Ha) as H.
       destruct (span is_space (e ++ lit "</p>")) as [ws r'].
       cbn [snd] in H. change (lit "</p>") with (60%N :: lit "/p>").
       now rewrite H. }
  skip_tag Ha.
  2: { unfold re_lit.
       change (strip_prefix (lit "<p><br></p>") (lit "<p>" ++ e ++ lit "</p>"))
         with (strip_prefix (60%N :: lit "br></p>") (e ++ lit "</p>")).
       now rewrite Hfirst. }
  reflexivity.
Qed.

(** X6.  A text without backtick, asterisk, underscore, hyphen, hash, pipe
    and line terminator that is not blank and does not start like a
    quotation or a numbered item is rendered as one paragraph that holds
    the text with every ampersand and angle bracket escaped: nothing of
    such a text reaches the page as markup. *)
Theorem X6_sober_text_is_one_escaped_paragraph (t : str) :
  sober t -> forallb is_space t = false ->
  starts_with (lit "> ") t = false -> head_ordered t = None ->
  render t = Normal (lit "<p>" ++ escape_html t ++ lit "</p>").
Proof.
  intros Hs Hb Hq Ho.
  rewrite render_no_tables by (now apply sober_includes).
  pose proof (sober_escape_html t Hs) as Hse.
  rewrite markup_sober.
  - rewrite paragraphs_sober; [reflexivity| | | |].
    + now apply sober_includes.
    + now apply sober_includes.
    + apply escape_html_no_angle. now left.
    + now apply not_blank_escape.
  - exact Hse.
  - apply escape_html_no_angle. now left.
  - now apply blockquote_head_escape.
  - now apply head_ordered_escape.
Qed.

Lemma X6_witness :
  render (lit "if a<b & b>c then 1.5 else $x")
  = Normal (lit "<p>if a&lt;b &amp; b&gt;c then 1.5 else $x</p>").
Proof.
  exact (X6_sober_text_is_one_escaped_paragraph
           (lit "if a<b & b>c then 1.5 else $x")
           eq_refl eq_refl eq_refl eq_refl).
Defined.

(** *** Blank text *)

Lemma escape_html_unescaped (s : str) :
  forallb unescaped s = true -> escape_html s = s.
Proof.
  rewrite escape_html_flat_map.
  induction s as [|c t IH]; intros H; [reflexivity|].
  cbn [forallb] in H. apply andb_true_iff in H. destruct H as [Hc Ht].
  cbn [flat_map]. now rewrite (escape_char_unescaped c Hc), (IH Ht).
Qed.

Lemma blank_char_quiet (c : char) :
  is_blank_char c = true ->
  is_markdown_char c = false /\ unescaped c = true /\ is_digit c = false
  /\ char_eqb c 35%N = false.
Proof.
  unfold is_blank_char. intros H. apply andb_true_iff in H.
  destruct H as [Hs Hl]. apply negb_true_iff in Hl.
  assert (Hne : forall k, is_space k = false -> char_eqb c k = false).
  { intros k Hk. apply char_eqb_neq. intros ->. congruence. }
  repeat split.
  - unfold is_markdown_char. rewrite Hl, orb_false_r. cbn [existsb lit map
      list_ascii_of_string].
    change (existsb (char_eqb c) (lit "`*_-#|"))
      with (char_eqb c 96%N || (char_eqb c 42%N || (char_eqb c 95%N
            || (char_eqb c 45%N || (char_eqb c 35%N
            || (char_eqb c 124%N || false)))))).
    now rewrite !Hne by reflexivity.
  - unfold unescaped. now rewrite !Hne by reflexivity.
  - unfold is_digit. destruct (N.leb_spec 48 c) as [H1|H1]; [|reflexivity].
    destruct (N.leb_spec c 57) as [H2|H2]; [|reflexivity].
    exfalso. revert Hs. unfold is_space.
    repeat match goal with
    | |- context [N.eqb c ?k] => destruct (N.eqb_spec c k); [lia|]
    end.
    destruct (N.leb_spec 8192 c); [lia|]. discriminate.
  - now apply Hne.
Qed.

Lemma span_all (f : char -> bool) (s r : str) :
  forallb f s = true ->
  match r with [] => True | c :: _ => f c = false end ->
  span f (s ++ r) = (s, r).
Proof.
  intros Hs Hr. induction s as [|c t IH].
  - destruct r as [|d r]; [reflexivity|]. cbn [app]. now apply span_stop.
  - cbn [forallb] in Hs. apply andb_true_iff in Hs. destruct Hs as [Hc Ht].
    cbn [app]. rewrite (span_go f c _ Hc), (IH Ht). reflexivity.
Qed.

(** A paragraph of white space only is taken away. *)
Lemma blank_paragraph_removed (t : str) :
  forallb is_space t = true ->
  replace_all re_blank_paragraph (lit "<p>" ++ t ++ lit "</p>") = [].
Proof.
  intros Ht. unfold replace_all.
  change (lit "<p>" ++ t ++ lit "</p>")
    with (60%N :: [112%N; 62%N] ++ t ++ lit "</p>").
  assert (Hm : re_blank_paragraph None
                 (60%N :: [112%N; 62%N] ++ t ++ lit "</p>")
               = Some ([], S (length ([112%N; 62%N] ++ t ++ lit "</p>")))).
  { unfold re_blank_paragraph.
    change (strip_prefix (lit "<p>")
              (60%N :: [112%N; 62%N] ++ t ++ lit "</p>"))
      with (Some (t ++ lit "</p>")).
    cbv iota beta. rewrite (span_all is_space t (lit "</p>") Ht eq_refl).
    change (strip_prefix (lit "</p>") (lit "</p>")) with (Some (@nil N)).
    cbv iota beta. do 2 f_equal. cbn [app length].
    rewrite length_app. change (length (lit "</p>")) with 4. lia. }
  rewrite (replace_from_match _ _ _ _ _ _ Hm). cbn [app].
  apply replace_from_skip_all. reflexivity.
Qed.

Lemma blank_text_quiet (t : str) :
  forallb is_blank_char t = true ->
  sober t /\ forallb unescaped t = true /\ forallb is_space t = true
  /\ includes 35%N t = false.
Proof.
  induction t as [|c t IH]; intros H; [repeat split|].
  cbn [forallb] in H. apply andb_true_iff in H. destruct H as [Hc Ht].
  destruct (IH Ht) as [H1 [H2 [H3 H4]]].
  destruct (blank_char_quiet c Hc) as [Q1 [Q2 [_ Q4]]].
  split; [|split; [|split]].
  - apply sober_cons. now split.
  - cbn [forallb]. now rewrite Q2, H2.
  - cbn [forallb]. rewrite H3, andb_true_r. unfold is_blank_char in Hc.
    apply andb_true_iff in Hc. apply Hc.
  - rewrite includes_cons, H4, orb_false_r. now rewrite char_eqb_sym.
Qed.

(** X7.  A text of white space without a line terminator, the empty text
    included, is rendered as the empty string: the paragraph that wraps it
    is taken away by the clean-up of blank paragraphs. *)
Theorem X7_blank_text_renders_empty (t : str) :
  forallb is_blank_char t = true -> render t = Normal [].
Proof.
  intros H. destruct t as [|c t]; [reflexivity|].
  destruct (blank_text_quiet (c :: t) H) as [Hs [Hu [Hb Hh]]].
  assert (Hc : is_blank_char c = true).
  { cbn [forallb] in H. apply andb_true_iff in H. apply H. }
  destruct (blank_char_quiet c Hc) as [_ [Q2 [Q3 _]]].
  assert (Ha : includes 60%N (c :: t) = false).
  { rewrite <- (escape_html_unescaped (c :: t) Hu).
    apply escape_html_no_angle. now left. }
  rewrite render_no_tables by (now apply sober_includes).
  rewrite (escape_html_unescaped (c :: t) Hu).
  rewrite markup_sober; [|exact Hs|exact Ha| |].
  - rewrite paragraphs_front;
      [|now apply sober_includes|exact Hh|exact Ha|discriminate].
    now rewrite (blank_paragraph_removed (c :: t) Hb).
  - change (lit "&gt; ") with (38%N :: lit "gt; ").
    apply strip_prefix_neq. unfold unescaped in Q2.
    apply negb_true_iff in Q2. apply orb_false_iff in Q2.
    destruct Q2 as [Q2 _]. apply orb_false_iff in Q2.
    rewrite char_eqb_sym. apply Q2.
  - unfold head_ordered. now rewrite (span_stop is_digit c t Q3).
Qed.

Lemma X7_witness : render (lit "   ") = Normal [].
Proof. exact (X7_blank_text_renders_empty (lit "   ") eq_refl). Defined.

(** ** Inline markup in plain text *)

Lemma plain_is_not (x : char) (w : str) :
  is_special x = true -> plain w -> forallb (is_not x) w = true.
Proof.
  intros Hx. induction w as [|c t IH]; intros Hw; [reflexivity|].
  apply plain_cons in Hw. destruct Hw as [Hc Ht]. cbn [forallb].
  rewrite (IH Ht), andb_true_r. unfold is_not.
  now rewrite (plain_neq_sym x c Hx Hc).
Qed.

(** A rule for a run between two marks: the run holds no mark. *)
Lemma replace_from_run_body (a x : char) (op cl : str) (k : str -> str)
    (p : option char) (w s : str) :
  forallb (is_not x) w = true -> w <> [] ->
  replace_from (re_run (a :: op) (is_not x) (x :: cl) k) p 0
    ((a :: op) ++ w ++ (x :: cl) ++ s)
  = k w ++ replace_from (re_run (a :: op) (is_not x) (x :: cl) k)
             (Some 97%N) 0 s.
Proof.
  intros Hw Hne.
  change ((a :: op) ++ w ++ (x :: cl) ++ s)
    with (a :: (op ++ w ++ (x :: cl) ++ s)).
  rewrite (replace_from_match _ _ _ _ (k w)
             (length op + length w + length (x :: cl))).
  - f_equal.
    replace (op ++ w ++ (x :: cl) ++ s)
      with ((op ++ w ++ (x :: cl)) ++ s)
      by (now rewrite <- !app_assoc).
    replace (length op + length w + length (x :: cl))
      with (length (op ++ w ++ (x :: cl)) + 0)
      by (rewrite !length_app; lia).
    destruct (replace_from_skip_str (re_run (a :: op) (is_not x) (x :: cl) k)
                (op ++ w ++ (x :: cl)) (Some a) 0 s) as [p' Hp'].
    rewrite Hp'. destruct s; reflexivity.
  - unfold re_run.
    change (a :: op ++ w ++ (x :: cl) ++ s)
      with ((a :: op) ++ w ++ (x :: cl) ++ s).
    rewrite strip_prefix_app.
    rewrite (span_all (is_not x) w ((x :: cl) ++ s)).
    + destruct w as [|c w]; [congruence|].
      rewrite strip_prefix_app. reflexivity.
    + exact Hw.
    + cbn [app]. unfold is_not. now rewrite char_eqb_refl.
Qed.

(** The same on a run of plain text. *)
Lemma replace_from_run (a x : char) (op cl : str) (k : str -> str)
    (p : option char) (w s : str) :
  is_special x = true -> plain w -> w <> [] ->
  replace_from (re_run (a :: op) (is_not x) (x :: cl) k) p 0
    ((a :: op) ++ w ++ (x :: cl) ++ s)
  = k w ++ replace_from (re_run (a :: op) (is_not x) (x :: cl) k)
             (Some 97%N) 0 s.
Proof.
  intros Hx Hw Hne. apply replace_from_run_body; [|exact Hne].
  now apply plain_is_not.
Qed.

Lemma render_bold (a t b : str) :
  plain a -> starts_solid a = true -> plain t -> t <> [] ->
  plain b -> b <> [] ->
  render (a ++ lit "**" ++ t ++ lit "**" ++ b)
  = Normal (lit "<p>" ++ a ++ lit "<strong>" ++ t ++ lit "</strong>"
            ++ b ++ lit "</p>").
Proof.
  intros Ha Hsa Ht Hnt Hb Hnb.
  rewrite render_without_tables by no_char.
  f_equal. rewrite <- (app_nil_r b) at 1.
  unfold paragraphs, markup, escape_html. cbv zeta.
  repeat pass.
  open_pass; scan.
  use_rule (fun p => replace_from_run 42%N 42%N (lit "*") (lit "*")
              (wrap (lit "<strong>") (lit "</strong>")) p t (b ++ [])
              eq_refl Ht Hnt).
  scan.
  repeat pass.
  finish.
Qed.

Lemma render_italic_star (a t b : str) :
  plain a -> starts_solid a = true -> plain t -> t <> [] ->
  plain b -> b <> [] ->
  render (a ++ lit "*" ++ t ++ lit "*" ++ b)
  = Normal (lit "<p>" ++ a ++ lit "<em>" ++ t ++ lit "</em>"
            ++ b ++ lit "</p>").
Proof.
  intros Ha Hsa Ht Hnt Hb Hnb.
  rewrite render_without_tables by no_char.
  f_equal. rewrite <- (app_nil_r b) at 1.
  unfold paragraphs, markup, escape_html. cbv zeta.
  repeat pass.
  open_pass; scan.
  use_rule (fun p => replace_from_run 42%N 42%N [] []
              (wrap (lit "<em>") (lit "</em>")) p t (b ++ [])
              eq_refl Ht Hnt).
  scan.
  repeat pass.
  finish.
Qed.

Lemma render_italic_underscore (a t b : str) :
  plain a -> starts_solid a = true -> plain t -> t <> [] ->
  plain b -> b <> [] ->
  render (a ++ lit "_" ++ t ++ lit "_" ++ b)
  = Normal (lit "<p>" ++ a ++ lit "<em>" ++ t ++ lit "</em>"
            ++ b ++ lit "</p>").
Proof.
  intros Ha Hsa Ht Hnt Hb Hnb.
  rewrite render_without_tables by no_char.
  f_equal. rewrite <- (app_nil_r b) at 1.
  unfold paragraphs, markup, escape_html. cbv zeta.
  repeat pass.
  open_pass; scan.
  use_rule (fun p => replace_from_run 95%N 95%N [] []
              (wrap (lit "<em>") (lit "</em>")) p t (b ++ [])
              eq_refl Ht Hnt).
  scan.
  repeat pass.
  finish.
Qed.

Lemma render_inline_code (a t b : str) :
  plain a -> starts_solid a = true -> plain t -> t <> [] ->
  plain b -> b <> [] ->
  render (a ++ lit "`" ++ t ++ lit "`" ++ b)
  = Normal (lit "<p>" ++ a ++ lit "<code>" ++ t ++ lit "</code>"
            ++ b ++ lit "</p>").
Proof.
  intros Ha Hsa Ht Hnt Hb Hnb.
  rewrite render_without_tables by no_char.
  f_equal. rewrite <- (app_nil_r b) at 1.
  unfold paragraphs, markup, escape_html. cbv zeta.
  repeat pass.
  open_pass; scan.
  use_rule (fun p => replace_from_run 96%N 96%N [] []
              (wrap (lit "<code>") (lit "</code>")) p t (b ++ [])
              eq_refl Ht Hnt).
  scan.
  repeat pass.
  finish.
Qed.

(** Markup inside code. *)
Lemma render_bold_in_code (t : str) :
  plain t -> t <> [] ->
  render (lit "`**" ++ t ++ lit "**`")
  = Normal (lit "<p><code><strong>" ++ t ++ lit "</strong></code></p>").
Proof.
  intros Ht Hnt.
  rewrite render_without_tables by no_char.
  f_equal.
  unfold paragraphs, markup, escape_html. cbv zeta.
  repeat pass.
  open_pass; scan.
  replace (96%N :: 42%N :: 42%N :: t ++ [42%N; 42%N; 96%N])
    with ([96%N] ++ (42%N :: 42%N :: t ++ [42%N; 42%N]) ++ [96%N] ++ [])
    by (cbn [app]; rewrite <- app_assoc; reflexivity).
  assert (Hbody : forallb (is_not 96%N) (42%N :: 42%N :: t ++ [42%N; 42%N])
                  = true).
  { cbn [forallb]. rewrite forallb_app, (plain_is_not 96%N t eq_refl Ht).
    reflexivity. }
  use_rule (fun p => replace_from_run_body 96%N 96%N [] []
              (wrap (lit "<code>") (lit "</code>")) p
              (42%N :: 42%N :: t ++ [42%N; 42%N]) []
              Hbody ltac:(discriminate)).
  unfold wrap. scan.
  open_pass; scan.
  use_rule (fun p => replace_from_run 42%N 42%N (lit "*") (lit "*")
              (wrap (lit "<strong>") (lit "</strong>")) p t (lit "</code>")
              eq_refl Ht Hnt).
  scan.
  repeat pass.
  finish.
Qed.

(** A lazy rule whose body holds no code unit of the closing mark's
    start. *)
Lemma replace_from_lazy_body (a c0 : char) (op cl : str) (k : str -> str)
    (p : option char) (w s : str) :
  includes c0 w = false ->
  replace_from (re_lazy (a :: op) (c0 :: cl) k) p 0
    ((a :: op) ++ w ++ (c0 :: cl) ++ s)
  = k w ++ replace_from (re_lazy (a :: op) (c0 :: cl) k) (Some 97%N) 0 s.
Proof.
  intros Hw.
  change ((a :: op) ++ w ++ (c0 :: cl) ++ s)
    with (a :: (op ++ w ++ (c0 :: cl) ++ s)).
  rewrite (replace_from_match _ _ _ _ (k w)
             (length op + length w + length (c0 :: cl))).
  - f_equal.
    replace (op ++ w ++ (c0 :: cl) ++ s)
      with ((op ++ w ++ (c0 :: cl)) ++ s)
      by (now rewrite <- !app_assoc).
    replace (length op + length w + length (c0 :: cl))
      with (length (op ++ w ++ (c0 :: cl)) + 0)
      by (rewrite !length_app; lia).
    destruct (replace_from_skip_str (re_lazy (a :: op) (c0 :: cl) k)
                (op ++ w ++ (c0 :: cl)) (Some a) 0 s) as [p' Hp'].
    rewrite Hp'. destruct s; reflexivity.
  - unfold re_lazy.
    change (a :: op ++ w ++ (c0 :: cl) ++ s)
      with ((a :: op) ++ w ++ (c0 :: cl) ++ s).
    rewrite strip_prefix_app.
    rewrite find_first_behind by exact Hw.
    reflexivity.
Qed.

Lemma render_italic_in_code_block (t : str) :
  plain t -> t <> [] ->
  render (lit "```*" ++ t ++ lit "*```")
  = Normal (lit "<pre><code><em>" ++ t ++ lit "</em></code></pre>").
Proof.
  intros Ht Hnt.
  rewrite render_without_tables by no_char.
  f_equal.
  unfold paragraphs, markup, escape_html. cbv zeta.
  repeat pass.
  open_pass; scan.
  replace (96%N :: 96%N :: 96%N :: 42%N :: t ++ [42%N; 96%N; 96%N; 96%N])
    with (lit "```" ++ (42%N :: t ++ [42%N]) ++ lit "```" ++ [])
    by (cbn [app]; rewrite <- app_assoc; reflexivity).
  assert (Hbody : includes 96%N (42%N :: t ++ [42%N]) = false) by no_char.
  use_rule (fun p => replace_from_lazy_body 96%N 96%N (lit "``") (lit "``")
              (wrap (lit "<pre><code>") (lit "</code></pre>")) p
              (42%N :: t ++ [42%N]) [] Hbody).
  unfold wrap. scan.
  repeat pass.
  open_pass; scan.
  use_rule (fun p => replace_from_run 42%N 42%N [] []
              (wrap (lit "<em>") (lit "</em>")) p t (lit "</code></pre>")
              eq_refl Ht Hnt).
  scan.
  repeat pass.
  finish.
Qed.

(** Two items marked with asterisks. *)
Lemma render_star_items (a b : str) :
  plain a -> a <> [] -> plain b -> b <> [] ->
  render (lit "* " ++ a ++ nl :: lit "* " ++ b)
  = Normal (lit "<p><em> " ++ a ++ lit "<br></em> " ++ b ++ lit "</p>").
Proof.
  intros Ha Hna Hb Hnb.
  rewrite render_without_tables by no_char.
  f_equal. rewrite <- (app_nil_r b) at 1.
  unfold paragraphs, markup, escape_html. cbv zeta.
  repeat pass.
  open_pass; scan.
  replace (42%N :: 32%N :: a ++ nl :: 42%N :: 32%N :: b ++ [])
    with ([42%N] ++ (32%N :: a ++ [nl]) ++ [42%N] ++ (32%N :: b ++ []))
    by (cbn [app]; rewrite <- app_assoc; reflexivity).
  assert (Hbody : forallb (is_not 42%N) (32%N :: a ++ [nl]) = true).
  { cbn [forallb]. rewrite forallb_app, (plain_is_not 42%N a eq_refl Ha).
    reflexivity. }
  use_rule (fun p => replace_from_run_body 42%N 42%N [] []
              (wrap (lit "<em>") (lit "</em>")) p
              (32%N :: a ++ [nl]) (32%N :: b ++ [])
              Hbody ltac:(discriminate)).
  unfold wrap. scan.
  repeat pass.
  finish.
Qed.

(** *** Runs of list items *)

(** One round of the rule for runs of items: the item, the white space
    behind it, and what the later rounds take. *)
Lemma items_length_step (a c0 : char) (op cl : str) (fuel : nat)
    (w ws r : str) :
  includes c0 w = false -> forallb is_space ws = true ->
  match r with [] => True | c :: _ => is_space c = false end ->
  items_length (a :: op) (c0 :: cl) (S fuel)
    ((a :: op) ++ w ++ (c0 :: cl) ++ ws ++ r)
  = length ((a :: op) ++ w ++ (c0 :: cl) ++ ws)
    + items_length (a :: op) (c0 :: cl) fuel r.
Proof.
  intros Hw Hws Hr. cbn [items_length]. rewrite strip_prefix_app.
  rewrite find_first_behind by exact Hw.
  rewrite (span_all is_space ws r Hws Hr).
  rewrite !length_app. lia.
Qed.

(** Two items of plain text on two lines are one run. *)
Lemma replace_from_two_items (a c0 : char) (op cl pre post : str)
    (p : option char) (w1 w2 : str) :
  is_special c0 = true -> is_space a = false -> plain w1 -> plain w2 ->
  replace_from (re_items (a :: op) (c0 :: cl) pre post) p 0
    ((a :: op) ++ w1 ++ (c0 :: cl) ++ [nl]
     ++ (a :: op) ++ w2 ++ (c0 :: cl))
  = pre
    ++ ((a :: op) ++ w1 ++ (c0 :: cl) ++ [nl]
        ++ (a :: op) ++ w2 ++ (c0 :: cl))
    ++ post.
Proof.
  intros Hc Ha Hw1 Hw2.
  set (i2 := (a :: op) ++ w2 ++ (c0 :: cl)).
  set (s := (a :: op) ++ w1 ++ (c0 :: cl) ++ [nl] ++ i2).
  assert (Hn : items_length (a :: op) (c0 :: cl) (length s) s = length s).
  { rewrite (items_length_fuel (a :: op) (c0 :: cl) ltac:(discriminate)
               (length s) (S (S (length s))) s (le_n _) ltac:(lia)).
    unfold s.
    rewrite (items_length_step a c0 op cl _ w1 [nl] i2
               (plain_includes c0 w1 Hc Hw1) eq_refl Ha).
    unfold i2 at 2.
    rewrite <- (app_nil_r ((a :: op) ++ w2 ++ c0 :: cl)).
    rewrite <- !app_assoc.
    rewrite (items_length_step a c0 op cl _ w2 [] []
               (plain_includes c0 w2 Hc Hw2) eq_refl I).
    rewrite items_length_nil. unfold i2.
    rewrite !length_app. cbn [length]. lia. }
  assert (Hs : s = a :: (op ++ w1 ++ (c0 :: cl) ++ [nl] ++ i2))
    by reflexivity.
  rewrite Hs at 1.
  rewrite (replace_from_match _ _ _ _ (pre ++ s ++ post)
             (length (op ++ w1 ++ (c0 :: cl) ++ [nl] ++ i2))).
  - rewrite replace_from_skip_all; [now rewrite app_nil_r|].
    unfold re_items. reflexivity.
  - rewrite <- Hs. unfold re_items. rewrite Hn.
    assert (Hl : length s = S (length (op ++ w1 ++ (c0 :: cl) ++ [nl] ++ i2)))
      by reflexivity.
    rewrite Hl. cbv iota beta. rewrite <- Hl. now rewrite firstn_all.
Qed.

Lemma render_two_numbered (a b : str) :
  plain a -> a <> [] -> plain b -> b <> [] ->
  render (lit "1. " ++ a ++ nl :: lit "2. " ++ b)
  = Normal (lit "<ol><li >" ++ a ++ lit "</li><br><li >" ++ b
            ++ lit "</li></ol>").
Proof.
  intros Ha Hna Hb Hnb.
  rewrite render_without_tables by no_char.
  f_equal. rewrite <- (app_nil_r b) at 1.
  unfold paragraphs, markup, escape_html. cbv zeta.
  repeat pass.
  open_pass; scan.
  use_rule (fun _ : option N => replace_from_line_head head_ordered 49%N
              (lit ". ") (wrap LI_OL (lit "</li>")) None a
              (nl :: lit "2. " ++ b ++ [])
              (fun r => eq_refl) eq_refl Ha Hna eq_refl).
  scan.
  use_rule (fun _ : option N => replace_from_line_head head_ordered 50%N
              (lit ". ") (wrap LI_OL (lit "</li>")) (Some nl) b []
              (fun r => eq_refl) eq_refl Hb Hnb eq_refl).
  scan.
  repeat pass.
  open_pass; scan.
  use_rule (fun p => replace_from_two_items 60%N 60%N
              (lit "li class=" ++ dq :: lit "ol-item" ++ dq :: lit ">")
              (lit "/li>") (lit "<ol>") (lit "</ol>") p a b
              eq_refl eq_refl Ha Hb).
  repeat pass.
  finish.
Qed.

Lemma render_two_bulleted (a b : str) :
  plain a -> a <> [] -> plain b -> b <> [] ->
  render (lit "- " ++ a ++ nl :: lit "- " ++ b)
  = Normal (lit "<ul><li >" ++ a ++ lit "</li><br><li >" ++ b
            ++ lit "</li></ul>").
Proof.
  intros Ha Hna Hb Hnb.
  rewrite render_without_tables by no_char.
  f_equal. rewrite <- (app_nil_r b) at 1.
  unfold paragraphs, markup, escape_html. cbv zeta.
  repeat pass.
  open_pass; scan.
  use_rule (fun _ : option N => replace_from_line_head head_bullet 45%N
              (lit " ") (wrap LI_UL (lit "</li>")) None a
              (nl :: lit "- " ++ b ++ [])
              (fun r => eq_refl) eq_refl Ha Hna eq_refl).
  scan.
  use_rule (fun _ : option N => replace_from_line_head head_bullet 45%N
              (lit " ") (wrap LI_UL (lit "</li>")) (Some nl) b []
              (fun r => eq_refl) eq_refl Hb Hnb eq_refl).
  scan.
  repeat pass.
  open_pass; scan.
  use_rule (fun p => replace_from_two_items 60%N 60%N
              (lit "li class=" ++ dq :: lit "ul-item" ++ dq :: lit ">")
              (lit "/li>") (lit "<ul>") (lit "</ul>") p a b
              eq_refl eq_refl Ha Hb).
  repeat pass.
  finish.
Qed.

(** *** Line breaks and paragraph breaks *)

Lemma render_line_break (a b : str) :
  plain a -> starts_solid a = true -> plain b -> b <> [] ->
  render (a ++ nl :: b)
  = Normal (lit "<p>" ++ a ++ lit "<br>" ++ b ++ lit "</p>").
Proof.
  intros Ha Hsa Hb Hnb.
  rewrite render_without_tables by no_char.
  f_equal. rewrite <- (app_nil_r b) at 1.
  unfold paragraphs, markup, escape_html. cbv zeta.
  repeat pass.
  finish.
Qed.

(** Line ends of two code units, carriage return and line feed, make no
    paragraph break. *)
Lemma render_crlf (a b : str) :
  plain a -> starts_solid a = true -> plain b -> b <> [] ->
  render (a ++ cr :: nl :: cr :: nl :: b)
  = Normal (lit "<p>" ++ a ++ cr :: lit "<br>" ++ cr :: lit "<br>" ++ b
            ++ lit "</p>").
Proof.
  intros Ha Hsa Hb Hnb.
  rewrite render_without_tables by no_char.
  f_equal. rewrite <- (app_nil_r b) at 1.
  unfold paragraphs, markup, escape_html. cbv zeta.
  repeat pass.
  finish.
Qed.

(** *** Any number of blank lines *)

(** A substitution that never matches at a line feed passes over a run of
    line feeds. *)
Lemma replace_from_nl_run (m : matcher) (k : nat) (s : str) :
  (forall prev r, m prev (nl :: r) = None) ->
  replace_from m (Some nl) 0 (repeat nl k ++ s)
  = repeat nl k ++ replace_from m (Some nl) 0 s.
Proof.
  intros Hm. induction k as [|k IH]; [reflexivity|].
  cbn [repeat app replace_from]. now rewrite Hm, IH.
Qed.

Ltac nl_dead :=
  intros prev r;
  cbv beta delta
    [re_run re_lit re_char re_lazy re_line re_items re_hr];
  first [ reflexivity | destruct (at_line_start prev); reflexivity ].

(** The innermost substitution of the goal, done, over a text with a run
    of line feeds in it. *)
Ltac pass_nl :=
  open_pass; scan;
  rewrite replace_from_nl_run by nl_dead;
  scan;
  lazymatch goal with
  | |- context [replace_from] => fail "the scan is stuck"
  | _ => idtac
  end.

(** Behind two line feeds the rule for paragraph boundaries passes over
    all line feeds that follow. *)
Lemma skip_blank_lines (p : option char) (n : nat) (b s : str) :
  plain b -> b <> [] ->
  replace_from re_blank_lines p
    (length (fst (span (char_eqb nl) (repeat nl n ++ b ++ s))))
    (repeat nl n ++ b ++ s)
  = replace_from re_blank_lines (Some nl) 0 (b ++ s).
Proof.
  intros Hb Hnb.
  assert (Hspan : span (char_eqb nl) (repeat nl n ++ b ++ s)
                  = (repeat nl n, b ++ s)).
  { apply span_all.
    - clear. induction n; [reflexivity|]. cbn [repeat forallb].
      now rewrite IHn.
    - destruct b as [|c b]; [congruence|]. cbn [app].
      apply plain_cons in Hb. destruct Hb as [Hc _].
      apply (plain_neq nl c eq_refl Hc). }
  rewrite Hspan. cbn [fst].
  rewrite <- (Nat.add_0_r (length (repeat nl n))).
  destruct (replace_from_skip_str re_blank_lines (repeat nl n) p 0 (b ++ s))
    as [p' Hp'].
  rewrite Hp'. apply replace_from_blind. apply blind_any.
Qed.

Lemma render_blank_lines (n : nat) (a b : str) :
  plain a -> starts_solid a = true -> plain b -> starts_solid b = true ->
  render (a ++ nl :: nl :: repeat nl n ++ b)
  = Normal (lit "<p>" ++ a ++ lit "</p><p>" ++ b ++ lit "</p>").
Proof.
  intros Ha Hsa Hb Hsb.
  assert (Hnl : includes pipe (repeat nl n) = false
                /\ includes 60%N (repeat nl n) = false).
  { clear. induction n; [now split|]. cbn [repeat]. now rewrite !includes_cons. }
  destruct Hnl as [Hn1 Hn2].
  rewrite render_without_tables
    by (repeat first [rewrite includes_app | rewrite includes_cons];
        rewrite ?Hn1, ?Hn2; no_char).
  f_equal. rewrite <- (app_nil_r b) at 1.
  unfold paragraphs, markup, escape_html. cbv zeta.
  repeat pass_nl.
  open_pass; scan.
  rewrite skip_blank_lines
    by (first [assumption | now apply starts_solid_nonempty]).
  scan.
  repeat pass.
  finish.
Qed.

(** *** Numbered items with any numbers *)

(** A substitution passes over a run of code units on which it never
    starts a match. *)
Lemma replace_from_dead_run (f : char -> bool) (m : matcher)
    (p : option char) (w s : str) :
  dead_on f m -> anchored m ->
  (forall c, f c = true -> is_line_terminator c = false) ->
  forallb f w = true -> w <> [] ->
  replace_from m p 0 (w ++ s) = w ++ replace_from m (Some 97%N) 0 s.
Proof.
  intros Hd Ha Hf Hw Hne. revert p.
  induction w as [|c w IH]; intros p; [congruence|].
  cbn [forallb] in Hw. apply andb_true_iff in Hw. destruct Hw as [Hc Hw].
  cbn [app]. rewrite (replace_from_nomatch m p c (w ++ s) (Hd p c _ Hc)).
  f_equal. destruct w as [|c' w'].
  - cbn [app]. apply replace_from_anchored; [exact Ha|].
    cbn [at_line_start]. now rewrite (Hf c Hc).
  - apply IH; [exact Hw|discriminate].
Qed.

Lemma dead_on_neq (f : char -> bool) (a c : char) :
  f a = false -> f c = true -> char_eqb a c = false.
Proof. intros Ha Hc. apply char_eqb_neq. intros ->. congruence. Qed.

Lemma dead_on_re_lit (f : char -> bool) (a : char) (pat repl : str) :
  f a = false -> dead_on f (re_lit (a :: pat) repl).
Proof.
  intros Ha prev c s Hc. unfold re_lit.
  now rewrite (strip_prefix_neq a c pat s (dead_on_neq f a c Ha Hc)).
Qed.

Lemma dead_on_re_lazy (f : char -> bool) (a : char) (op cl : str)
    (k : str -> str) :
  f a = false -> dead_on f (re_lazy (a :: op) cl k).
Proof.
  intros Ha prev c s Hc. unfold re_lazy.
  now rewrite (strip_prefix_neq a c op s (dead_on_neq f a c Ha Hc)).
Qed.

Lemma dead_on_re_run (f : char -> bool) (a : char) (op : str)
    (cls : char -> bool) (cl : str) (k : str -> str) :
  f a = false -> dead_on f (re_run (a :: op) cls cl k).
Proof.
  intros Ha prev c s Hc. unfold re_run.
  now rewrite (strip_prefix_neq a c op s (dead_on_neq f a c Ha Hc)).
Qed.

Lemma dead_on_re_line_lit (f : char -> bool) (a : char) (pat : str)
    (k : str -> str) :
  f a = false -> dead_on f (re_line (head_lit (a :: pat)) k).
Proof.
  intros Ha prev c s Hc. unfold re_line, head_lit.
  rewrite (strip_prefix_neq a c pat s (dead_on_neq f a c Ha Hc)).
  now destruct (at_line_start prev).
Qed.

Lemma dead_on_re_hr (f : char -> bool) :
  f 45%N = false -> dead_on f re_hr.
Proof.
  intros Ha prev c s Hc. unfold re_hr.
  rewrite (span_stop (char_eqb 45%N) c s (dead_on_neq f 45%N c Ha Hc)).
  now destruct (at_line_start prev).
Qed.

Lemma dead_on_re_line_bullet (f : char -> bool) (k : str -> str) :
  f 42%N = false -> f 45%N = false -> dead_on f (re_line head_bullet k).
Proof.
  intros H1 H2 prev c s Hc. unfold re_line, head_bullet.
  rewrite (char_eqb_sym c 42%N), (char_eqb_sym c 45%N).
  rewrite (dead_on_neq f 42%N c H1 Hc), (dead_on_neq f 45%N c H2 Hc).
  now destruct (at_line_start prev).
Qed.

Lemma digit_not_terminator (c : char) :
  is_digit c = true -> is_line_terminator c = false.
Proof.
  unfold is_digit, is_line_terminator. intros H.
  apply andb_true_iff in H. destruct H as [H1 H2].
  apply N.leb_le in H1, H2.
  repeat match goal with
  | |- context [N.eqb c ?k] => destruct (N.eqb_spec c k); [lia|]
  end.
  reflexivity.
Qed.

Lemma digits_includes (k : char) (d : str) :
  is_digit k = false -> forallb is_digit d = true -> includes k d = false.
Proof.
  intros Hk. induction d as [|c d IH]; intros Hd; [reflexivity|].
  cbn [forallb] in Hd. apply andb_true_iff in Hd. destruct Hd as [Hc Hd].
  rewrite includes_cons, (IH Hd), orb_false_r.
  now apply (dead_on_neq is_digit).
Qed.

Ltac digit_side :=
  first
    [ assumption
    | exact digit_not_terminator
    | solve [auto with tame]
    | apply dead_on_re_lit; reflexivity
    | apply dead_on_re_lazy; reflexivity
    | apply dead_on_re_run; reflexivity
    | apply dead_on_re_line_lit; reflexivity
    | apply dead_on_re_hr; reflexivity
    | apply dead_on_re_line_bullet; reflexivity ].

(** The innermost substitution of the goal, done, over a text with runs of
    digits in it. *)
Ltac pass_digits :=
  open_pass;
  repeat first
    [ progress scan
    | rewrite (replace_from_dead_run is_digit) by digit_side ];
  lazymatch goal with
  | |- context [replace_from] => fail "the scan is stuck"
  | _ => idtac
  end.

(** The rule for numbered items at the start of a line with a number, a
    dot, a space and plain text. *)
Lemma replace_from_numbered (k : str -> str) (p : option char)
    (d w s : str) :
  at_line_start p = true -> forallb is_digit d = true -> d <> [] ->
  plain w -> w <> [] -> line_ends s = true ->
  replace_from (re_line head_ordered k) p 0 (d ++ 46%N :: 32%N :: w ++ s)
  = k w ++ replace_from (re_line head_ordered k) (Some 97%N) 0 s.
Proof.
  intros Hp Hd Hnd Hw Hnw Hs.
  destruct d as [|c d]; [congruence|].
  replace ((c :: d) ++ 46%N :: 32%N :: w ++ s)
    with ((c :: d ++ lit ". ") ++ w ++ s)
    by (cbn [app]; rewrite <- app_assoc; reflexivity).
  apply replace_from_line_head; try assumption.
  intros r. unfold head_ordered.
  replace ((c :: d ++ lit ". ") ++ r)
    with ((c :: d) ++ lit ". " ++ r)
    by (cbn [app]; rewrite <- app_assoc; reflexivity).
  rewrite (span_all is_digit (c :: d) (lit ". " ++ r) Hd eq_refl).
  rewrite strip_prefix_app. do 2 f_equal.
  cbn [length]. rewrite length_app. change (length (lit ". ")) with 2. lia.
Qed.

Lemma render_numbered_items (d1 d2 a b : str) :
  forallb is_digit d1 = true -> d1 <> [] ->
  forallb is_digit d2 = true -> d2 <> [] ->
  plain a -> a <> [] -> plain b -> b <> [] ->
  render (d1 ++ lit ". " ++ a ++ nl :: d2 ++ lit ". " ++ b)
  = Normal (lit "<ol><li >" ++ a ++ lit "</li><br><li >" ++ b
            ++ lit "</li></ol>").
Proof.
  intros Hd1 Hn1 Hd2 Hn2 Ha Hna Hb Hnb.
  rewrite render_without_tables
    by (repeat first [rewrite includes_app | rewrite includes_cons];
        rewrite ?(digits_includes pipe d1 eq_refl Hd1),
          ?(digits_includes pipe d2 eq_refl Hd2),
          ?(digits_includes 60%N d1 eq_refl Hd1),
          ?(digits_includes 60%N d2 eq_refl Hd2); no_char).
  f_equal. rewrite <- (app_nil_r b) at 1.
  unfold paragraphs, markup, escape_html. cbv zeta.
  repeat pass_digits.
  open_pass.
  rewrite (replace_from_numbered _ None d1 a
             (nl :: d2 ++ lit ". " ++ b ++ [])) by (assumption || reflexivity).
  scan.
  rewrite (replace_from_numbered _ (Some nl) d2 b [])
    by (assumption || reflexivity).
  scan.
  repeat pass.
  open_pass; scan.
  use_rule (fun p => replace_from_two_items 60%N 60%N
              (lit "li class=" ++ dq :: lit "ol-item" ++ dq :: lit ">")
              (lit "/li>") (lit "<ol>") (lit "</ol>") p a b
              eq_refl eq_refl Ha Hb).
  repeat pass.
  finish.
Qed.

(** ** The renderer of [script.js] *)

(** *** Its table parser *)

(** A substitution that puts every match back as it was changes
    nothing. *)
Lemma replace_from_identity (m : matcher) (P : str -> Prop) :
  (forall c t, P (c :: t) -> P t) ->
  (forall prev s out n,
     P s -> m prev s = Some (out, n) -> out = firstn n s) ->
  forall s p k, P s -> replace_from m p k s = skipn k s.
Proof.
  intros Htail Hm. induction s as [|c t IH]; intros p k HP.
  - destruct k; cbn [replace_from]; [|reflexivity].
    destruct (m p []) as [[out n]|] eqn:E; [|reflexivity].
    rewrite (Hm p [] out n HP E). now destruct n.
  - destruct k as [|k]; cbn [replace_from skipn].
    + destruct (m p (c :: t)) as [[out [|n]]|] eqn:E.
      * rewrite (Hm p _ out 0 HP E). cbn [firstn app].
        now rewrite (IH _ 0 (Htail c t HP)).
      * rewrite (Hm p _ out (S n) HP E). cbn [firstn app].
        rewrite (IH _ n (Htail c t HP)). now rewrite firstn_skipn.
      * now rewrite (IH _ 0 (Htail c t HP)).
    + apply IH. now apply (Htail c t).
Qed.

Lemma span_parts (f : char -> bool) (s : str) :
  s = fst (span f s) ++ snd (span f s)
  /\ forallb f (fst (span f s)) = true.
Proof.
  induction s as [|c t [IH1 IH2]]; [now split|].
  destruct (f c) eqn:E.
  - rewrite (span_go f c t E). cbn [fst snd app forallb].
    rewrite E, IH2. split; [now rewrite <- IH1|reflexivity].
  - rewrite (span_stop f c t E). now split.
Qed.

Lemma no_terminator_no_nl (s : str) :
  forallb not_line_terminator s = true -> includes nl s = false.
Proof.
  induction s as [|c t IH]; intros H; [reflexivity|].
  cbn [forallb] in H. apply andb_true_iff in H. destruct H as [Hc Ht].
  rewrite includes_cons, (IH Ht), orb_false_r.
  apply char_eqb_neq. intros <-. discriminate Hc.
Qed.

(** A row as the table pattern takes it: a pipe, code units other than
    line terminators, a pipe; behind it the input ends or a line feed
    follows, which is taken too. *)
Lemma row_length_spec (s : str) (n : nat) :
  Legacy.row_length s = Some n ->
  exists mid rest,
    s = (pipe :: mid ++ [pipe]) ++ rest
    /\ includes nl mid = false
    /\ ((rest = [] /\ n = length (pipe :: mid ++ [pipe]))
        \/ (exists r, rest = nl :: r
                      /\ n = length (pipe :: mid ++ [pipe]) + 1)).
Proof.
  unfold Legacy.row_length. destruct s as [|c r]; [discriminate|].
  destruct (char_eqb c pipe) eqn:Ec; [|discriminate].
  apply char_eqb_eq in Ec. subst c.
  destruct (span_parts not_line_terminator r) as [Hr Hf].
  destruct (span not_line_terminator r) as [body r'].
  cbn [fst snd] in Hr, Hf.
  destruct ((2 <=? length body) && char_eqb (last body 0%N) pipe) eqn:E;
    [|discriminate].
  apply andb_true_iff in E. destruct E as [El Ep].
  apply Nat.leb_le in El. apply char_eqb_eq in Ep.
  assert (Hne : body <> []) by (intros ->; cbn in El; lia).
  pose proof (app_removelast_last 0%N Hne) as Hb. rewrite Ep in Hb.
  remember (removelast body) as mid eqn:Emid. clear Emid.
  assert (Hmid : includes nl mid = false).
  { pose proof (no_terminator_no_nl body Hf) as Hn.
    rewrite Hb, includes_app in Hn. now apply orb_false_iff in Hn. }
  intros H. exists mid, r'. split; [|split; [exact Hmid|]].
  - subst r. rewrite Hb. cbn [app]. now rewrite <- app_assoc.
  - assert (Hlen : length (pipe :: mid ++ [pipe]) = 1 + length body).
    { rewrite Hb. reflexivity. }
    destruct r' as [|d r''].
    + left. injection H as <-. split; [reflexivity|now rewrite Hlen].
    + destruct (char_eqb d nl) eqn:Ed; [|discriminate].
      apply char_eqb_eq in Ed. subst d. injection H as <-.
      right. exists r''. split; [reflexivity|]. rewrite Hlen. lia.
Qed.

Lemma drop_while_all (f : char -> bool) (x : str) (a : char) (r : str) :
  forallb f x = true -> f a = false ->
  drop_while f (x ++ a :: r) = a :: r.
Proof.
  intros Hx Ha. induction x as [|c x IH].
  - cbn. now rewrite Ha.
  - cbn [forallb] in Hx. apply andb_true_iff in Hx. destruct Hx as [Hc Hx].
    cbn [app drop_while]. rewrite Hc. now apply IH.
Qed.

Lemma forallb_rev_true (f : char -> bool) (s : str) :
  forallb f s = true -> forallb f (rev s) = true.
Proof.
  rewrite !forallb_forall. intros H x Hx. apply H. now apply in_rev.
Qed.

(** Trimming takes the white space around a text that starts and ends
    with other code units. *)
Lemma trim_core (x y mid : str) (a z : char) :
  forallb is_space x = true -> forallb is_space y = true ->
  is_space a = false -> is_space z = false ->
  trim (x ++ a :: mid ++ z :: y) = a :: mid ++ [z].
Proof.
  intros Hx Hy Ha Hz. unfold trim.
  rewrite (drop_while_all is_space x a _ Hx Ha).
  assert (Hrev : rev (a :: mid ++ z :: y) = rev y ++ z :: rev mid ++ [a]).
  { cbn [rev]. rewrite rev_app_distr. cbn [rev].
    now rewrite <- !app_assoc. }
  rewrite Hrev.
  rewrite (drop_while_all is_space (rev y) z _);
    [|now apply forallb_rev_true|exact Hz].
  cbn [rev]. rewrite rev_app_distr, rev_involutive. reflexivity.
Qed.

(** What one round of the table pattern takes: a line feed or nothing, a
    row, and a line feed or nothing, nothing only at the end of the
    input. *)
Lemma round_length_spec (b : bool) (s : str) (n : nat) :
  Legacy.round_length b s = Some n ->
  exists lead mid trail rest,
    s = lead ++ pipe :: mid ++ pipe :: trail ++ rest
    /\ n = length (lead ++ pipe :: mid ++ pipe :: trail)
    /\ (lead = [] \/ lead = [nl])
    /\ includes nl mid = false
    /\ ((trail = [] /\ rest = []) \/ trail = [nl]).
Proof.
  assert (Hrow : forall s n,
    Legacy.row_length s = Some n ->
    exists mid trail rest,
      s = pipe :: mid ++ pipe :: trail ++ rest
      /\ n = length (pipe :: mid ++ pipe :: trail)
      /\ includes nl mid = false
      /\ ((trail = [] /\ rest = []) \/ trail = [nl])).
  { clear. intros s n H.
    destruct (row_length_spec s n H) as [mid [rest [Hs [Hm Hc]]]].
    destruct Hc as [[-> ->]|[r [-> ->]]].
    - exists mid, [], []. rewrite app_nil_r in Hs.
      repeat split; try assumption; auto.
    - exists mid, [nl], r. repeat split; try assumption; auto.
      + rewrite Hs. cbn [app]. now rewrite <- app_assoc.
      + cbn [length]. rewrite !length_app. cbn [length]. lia. }
  unfold Legacy.round_length.
  destruct (if b then Legacy.row_length s else None) as [n0|] eqn:E1.
  - intros H. injection H as <-. destruct b; [|discriminate E1].
    destruct (Hrow s n0 E1) as [mid [trail [rest [Hs [Hn [Hm Hc]]]]]].
    exists [], mid, trail, rest. cbn [app]. auto.
  - destruct s as [|c r]; [discriminate|].
    destruct (char_eqb c nl) eqn:Ec; [|discriminate].
    apply char_eqb_eq in Ec. subst c.
    destruct (Legacy.row_length r) as [n1|] eqn:E2; [|discriminate].
    intros H. injection H as <-.
    destruct (Hrow r n1 E2) as [mid [trail [rest [Hs [Hn [Hm Hc]]]]]].
    exists [nl], mid, trail, rest. cbn [app length]. subst r n1.
    repeat split; auto.
Qed.

Lemma contains_here (p x y : str) :
  p <> [] -> contains p (x ++ p ++ y) = true.
Proof.
  intros Hp. unfold contains. induction x as [|c x IH].
  - cbn [app]. now rewrite (find_first_at p y Hp).
  - cbn [app find_first].
    destruct (strip_prefix p (c :: x ++ p ++ y)); [reflexivity|].
    destruct (find_first p (x ++ p ++ y)) as [[b a]|];
      [reflexivity|discriminate IH].
Qed.

Lemma contains_tail (p : str) (c : char) (t : str) :
  contains p (c :: t) = false -> contains p t = false.
Proof.
  unfold contains. cbn [find_first].
  destruct (strip_prefix p (c :: t)); [discriminate|].
  now destruct (find_first p t) as [[b a]|].
Qed.

(** Without two line feeds in a row a match of the table pattern is one
    round, and the callback returns it as it is. *)
Lemma re_table_identity (prev : option char) (s out : str) (n : nat) :
  contains [nl; nl] s = false ->
  Legacy.re_table prev s = Some (out, n) -> out = firstn n s.
Proof.
  intros Hs H. unfold Legacy.re_table in H.
  remember (match prev with None => true | Some _ => false end) as b.
  clear Heqb.
  destruct s as [|c t]; [discriminate H|].
  cbn [length Legacy.rounds_length] in H.
  destruct (Legacy.round_length b (c :: t)) as [n1|] eqn:E1;
    [|discriminate H].
  destruct (round_length_spec b _ n1 E1)
    as [lead [mid [trail [rest [Hst [Hn [Hl [Hm Hc]]]]]]]].
  set (x := lead ++ pipe :: mid ++ pipe :: trail) in *.
  assert (Hx : c :: t = x ++ rest).
  { rewrite Hst. unfold x. rewrite <- !app_assoc. cbn [app].
    now rewrite <- !app_assoc. }
  assert (Hmore : Legacy.rounds_length (length t) false (skipn n1 (c :: t))
                  = 0).
  { rewrite Hx, Hn, skipn_app, Nat.sub_diag, skipn_all, skipn_O.
    cbn [app].
    destruct (length t); [reflexivity|]. cbn [Legacy.rounds_length].
    destruct rest as [|d rest]; [reflexivity|].
    destruct Hc as [[_ Hr]|Htr]; [discriminate Hr|].
    unfold Legacy.round_length.
    destruct (char_eqb d nl) eqn:Ed; [|reflexivity].
    apply char_eqb_eq in Ed. subst d. exfalso.
    assert (Hin : contains [nl; nl] (c :: t) = true).
    { rewrite Hst, Htr.
      replace (lead ++ pipe :: mid ++ pipe :: [nl] ++ nl :: rest)
        with ((lead ++ pipe :: mid ++ [pipe]) ++ [nl; nl] ++ rest)
        by (rewrite <- !app_assoc; cbn [app]; rewrite <- !app_assoc;
            reflexivity).
      apply contains_here. discriminate. }
    congruence. }
  rewrite Hmore, Nat.add_0_r in H.
  assert (Hf : firstn n1 (c :: t) = x).
  { now rewrite Hx, Hn, firstn_app, Nat.sub_diag, firstn_O, app_nil_r,
      firstn_all. }
  assert (Htrim : trim x = pipe :: mid ++ [pipe]).
  { unfold x. apply trim_core; try reflexivity.
    - destruct Hl as [->| ->]; reflexivity.
    - destruct Hc as [[-> _]| ->]; reflexivity. }
  assert (Hcall : Legacy.table_callback x = x).
  { unfold Legacy.table_callback.
    rewrite Htrim, split_on_clean; [reflexivity|].
    change (pipe :: mid ++ [pipe]) with ([pipe] ++ mid ++ [pipe]).
    now rewrite !includes_app, Hm. }
  destruct n1 as [|n1'].
  { exfalso. unfold x in Hn. rewrite length_app in Hn. cbn [length] in Hn.
    lia. }
  rewrite Hf, Hcall in H. injection H as <- <-. now rewrite Hf.
Qed.

Lemma parseTable_without_blank_line (text : str) :
  contains [nl; nl] text = false -> Legacy.parseTable text = text.
Proof.
  intros H. unfold Legacy.parseTable, replace_all.
  rewrite (replace_from_identity Legacy.re_table
             (fun s => contains [nl; nl] s = false)).
  - reflexivity.
  - intros c t. apply contains_tail.
  - intros prev s out n. apply re_table_identity.
  - exact H.
Qed.

Lemma contains_needs (x : char) (p s : str) :
  includes x p = true -> includes x s = false -> contains p s = false.
Proof.
  intros Hp. unfold contains. induction s as [|c t IH]; intros Hs.
  - cbn [find_first]. now rewrite (strip_prefix_needs x p [] Hp Hs).
  - cbn [find_first]. rewrite (strip_prefix_needs x p (c :: t) Hp Hs).
    rewrite includes_cons in Hs. apply orb_false_iff in Hs.
    specialize (IH (proj2 Hs)).
    now destruct (find_first p t) as [[b a]|].
Qed.


(** X13.  The table parser of [script.js] returns a text without two line
    feeds in a row unchanged: its pattern takes the line feed behind a row
    with the row and wants another line feed before the next one, so the
    rows of a table written on consecutive lines are matched one by one
    and the callback, which sees one line only, puts each one back. *)
Theorem X13_legacy_parseTable_needs_blank_line (text : str) :
  contains [nl; nl] text = false -> Legacy.parseTable text = text.
Proof. apply parseTable_without_blank_line. Qed.

Lemma X13_witness :
  Legacy.parseTable (js "| a | b |\n|---|---|\n| 1 | 2 |")
  = js "| a | b |\n|---|---|\n| 1 | 2 |".
Proof.
  exact (X13_legacy_parseTable_needs_blank_line
           (js "| a | b |\n|---|---|\n| 1 | 2 |") eq_refl).
Defined.


(** *** Its paragraphs and lists *)

(** The substitution of the first match only, in front of a text without
    the code unit that every match starts with. *)
Lemma replace_once_from_pass (m : matcher) (x : char) (w s : str) :
  starts_at m x -> includes x w = false ->
  forall p, exists p',
    Legacy.replace_once_from m p (w ++ s)
    = w ++ Legacy.replace_once_from m p' s.
Proof.
  intros [_ Hm]. induction w as [|c w IH]; intros Hw p.
  - now exists p.
  - rewrite includes_cons in Hw. apply orb_false_iff in Hw.
    destruct Hw as [Hc Hw]. cbn [app Legacy.replace_once_from].
    rewrite Hm by (now rewrite char_eqb_sym).
    destruct (IH Hw (Some c)) as [p' Hp']. exists p'. now rewrite Hp'.
Qed.

Lemma replace_once_needs (m : matcher) (x : char) (s : str) :
  starts_at m x -> includes x s = false -> Legacy.replace_once m s = s.
Proof.
  intros Hm Hs. unfold Legacy.replace_once.
  destruct (replace_once_from_pass m x s [] Hm Hs None) as [p' Hp'].
  rewrite app_nil_r in Hp'. rewrite Hp'.
  destruct Hm as [Hnil _]. cbn. now rewrite Hnil, app_nil_r.
Qed.

Lemma find_last_none (a : char) (p t : str) :
  includes a t = false -> Legacy.find_last (a :: p) t = None.
Proof.
  induction t as [|c t IH]; intros H; [reflexivity|].
  rewrite includes_cons in H. apply orb_false_iff in H.
  destruct H as [Hc Ht]. cbn [Legacy.find_last]. rewrite (IH Ht).
  now rewrite strip_prefix_neq.
Qed.

Lemma find_last_end (a : char) (p body tail : str) :
  includes a p = false -> includes a tail = false ->
  Legacy.find_last (a :: p) (body ++ (a :: p) ++ tail) = Some (body, tail).
Proof.
  intros Hp Ht. induction body as [|c body IH].
  - cbn [app Legacy.find_last].
    rewrite find_last_none by (now rewrite includes_app, Hp, Ht).
    change (a :: p ++ tail) with ((a :: p) ++ tail).
    now rewrite strip_prefix_app.
  - cbn [app Legacy.find_last]. cbn [app] in IH. now rewrite IH.
Qed.

Lemma starts_at_re_greedy (a : char) (op cl pre post : str) :
  starts_at (Legacy.re_greedy (a :: op) cl pre post) a.
Proof.
  split; [reflexivity|]. intros prev c s Hc. unfold Legacy.re_greedy.
  rewrite strip_prefix_neq; [reflexivity|]. now rewrite char_eqb_sym.
Qed.

(** The rule that wraps the list: from the first opening tag of an item
    to the last closing tag. *)
Lemma replace_once_greedy (a c0 : char) (op cl pre post w body tail : str) :
  includes a w = false ->
  includes c0 cl = false -> includes c0 tail = false ->
  Legacy.replace_once (Legacy.re_greedy (a :: op) (c0 :: cl) pre post)
    (w ++ (a :: op) ++ body ++ (c0 :: cl) ++ tail)
  = w ++ pre ++ (a :: op) ++ body ++ (c0 :: cl) ++ post ++ tail.
Proof.
  intros Hw Hcl Ht. unfold Legacy.replace_once.
  destruct (replace_once_from_pass _ a w
              ((a :: op) ++ body ++ (c0 :: cl) ++ tail)
              (starts_at_re_greedy a op (c0 :: cl) pre post) Hw None)
    as [p' Hp'].
  rewrite Hp'. f_equal.
  set (s := (a :: op) ++ body ++ (c0 :: cl) ++ tail).
  assert (Hm : Legacy.re_greedy (a :: op) (c0 :: cl) pre post p' s
               = Some (pre ++ (a :: op) ++ body ++ (c0 :: cl) ++ post,
                       length ((a :: op) ++ body ++ (c0 :: cl)))).
  { unfold Legacy.re_greedy, s. rewrite strip_prefix_app.
    rewrite (find_last_end c0 cl body tail Hcl Ht).
    do 2 f_equal. rewrite !length_app. cbn [length]. lia. }
  destruct s as [|x s'] eqn:Es; [discriminate Es|].
  cbn [Legacy.replace_once_from]. rewrite Hm. rewrite <- Es. unfold s.
  replace ((a :: op) ++ body ++ (c0 :: cl) ++ tail)
    with (((a :: op) ++ body ++ (c0 :: cl)) ++ tail)
    by (now rewrite <- !app_assoc).
  rewrite skipn_app, Nat.sub_diag, skipn_all, skipn_O.
  finish.
Qed.

Ltac legacy_table_step :=
  rewrite parseTable_without_blank_line
    by (apply (contains_needs nl); [reflexivity|no_char]).

Lemma legacy_plain (a : str) :
  plain a -> a <> [] -> Legacy.parseMarkdown a = a.
Proof.
  intros Ha Hna. rewrite <- (app_nil_r a) at 1.
  unfold Legacy.parseMarkdown, escape_html. cbv zeta.
  repeat pass.
  rewrite (replace_once_needs _ 60%N)
    by (first [apply starts_at_re_greedy|no_char]).
  repeat pass.
  rewrite app_nil_r.
  legacy_table_step. reflexivity.
Qed.

Lemma legacy_paragraphs (a b : str) :
  plain a -> a <> [] -> plain b -> b <> [] ->
  Legacy.parseMarkdown (a ++ nl :: nl :: b) = a ++ lit "</p><p>" ++ b.
Proof.
  intros Ha Hna Hb Hnb. rewrite <- (app_nil_r b) at 1.
  unfold Legacy.parseMarkdown, escape_html. cbv zeta.
  repeat pass.
  rewrite (replace_once_needs _ 60%N)
    by (first [apply starts_at_re_greedy|rewrite app_nil_r; no_char]).
  repeat pass.
  rewrite app_nil_r.
  legacy_table_step. finish.
Qed.

Lemma legacy_bullets (a b : str) :
  plain a -> a <> [] -> plain b -> b <> [] ->
  Legacy.parseMarkdown (lit "- " ++ a ++ nl :: lit "- " ++ b)
  = lit "<ul><li>" ++ a ++ lit "</li><br><li>" ++ b ++ lit "</li></ul>".
Proof.
  intros Ha Hna Hb Hnb. rewrite <- (app_nil_r b) at 1.
  unfold Legacy.parseMarkdown, escape_html. cbv zeta.
  repeat pass.
  open_pass; scan.
  use_rule (fun _ : option N => replace_from_line_head head_bullet 45%N
              (lit " ") (wrap (lit "<li>") (lit "</li>")) None a
              (nl :: lit "- " ++ b ++ [])
              (fun r => eq_refl) eq_refl Ha Hna eq_refl).
  scan.
  use_rule (fun _ : option N => replace_from_line_head head_bullet 45%N
              (lit " ") (wrap (lit "<li>") (lit "</li>")) (Some nl) b []
              (fun r => eq_refl) eq_refl Hb Hnb eq_refl).
  scan.
  match goal with
  | |- context [Legacy.replace_once ?m ?s] =>
      replace s
        with ([] ++ lit "<li>"
              ++ (a ++ lit "</li>" ++ nl :: lit "<li>" ++ b)
              ++ lit "</li>" ++ [])
        by (unfold wrap; finish)
  end.
  rewrite (replace_once_greedy 60%N 60%N (lit "li>") (lit "/li>")
             (lit "<ul>") (lit "</ul>") [] _ [] eq_refl eq_refl eq_refl).
  repeat first [ progress cbn [app] | progress rewrite <- app_assoc ].
  rewrite ?app_nil_r.
  repeat pass.
  legacy_table_step. finish.
Qed.

Lemma legacy_numbered (d1 d2 a b : str) :
  forallb is_digit d1 = true -> d1 <> [] ->
  forallb is_digit d2 = true -> d2 <> [] ->
  plain a -> a <> [] -> plain b -> b <> [] ->
  Legacy.parseMarkdown (d1 ++ lit ". " ++ a ++ nl :: d2 ++ lit ". " ++ b)
  = lit "<li>" ++ a ++ lit "</li><br><li>" ++ b ++ lit "</li>".
Proof.
  intros Hd1 Hn1 Hd2 Hn2 Ha Hna Hb Hnb. rewrite <- (app_nil_r b) at 1.
  unfold Legacy.parseMarkdown, escape_html. cbv zeta.
  repeat pass_digits.
  rewrite (replace_once_needs _ 60%N);
    [|apply starts_at_re_greedy
     |repeat first [rewrite includes_app | rewrite includes_cons];
      rewrite ?(digits_includes 60%N d1 eq_refl Hd1),
        ?(digits_includes 60%N d2 eq_refl Hd2); no_char].
  open_pass.
  rewrite (replace_from_numbered _ None d1 a
             (nl :: d2 ++ lit ". " ++ b ++ [])) by (assumption || reflexivity).
  scan.
  rewrite (replace_from_numbered _ (Some nl) d2 b [])
    by (assumption || reflexivity).
  scan.
  repeat pass.
  legacy_table_step. finish.
Qed.

Lemma legacy_list_swallows (a x b : str) :
  plain a -> a <> [] -> plain x -> x <> [] -> plain b -> b <> [] ->
  Legacy.parseMarkdown
    (lit "- " ++ a ++ nl :: nl :: x ++ nl :: nl :: lit "- " ++ b)
  = lit "<ul><li>" ++ a ++ lit "</li></p><p>" ++ x
    ++ lit "</p><p><li>" ++ b ++ lit "</li></ul>".
Proof.
  intros Ha Hna Hx Hnx Hb Hnb. rewrite <- (app_nil_r b) at 1.
  unfold Legacy.parseMarkdown, escape_html. cbv zeta.
  repeat pass.
  open_pass; scan.
  use_rule (fun _ : option N => replace_from_line_head head_bullet 45%N
              (lit " ") (wrap (lit "<li>") (lit "</li>")) None a
              (nl :: nl :: x ++ nl :: nl :: lit "- " ++ b ++ [])
              (fun r => eq_refl) eq_refl Ha Hna eq_refl).
  scan.
  use_rule (fun _ : option N => replace_from_line_head head_bullet 45%N
              (lit " ") (wrap (lit "<li>") (lit "</li>")) (Some nl) b []
              (fun r => eq_refl) eq_refl Hb Hnb eq_refl).
  scan.
  match goal with
  | |- context [Legacy.replace_once ?m ?s] =>
      replace s
        with ([] ++ lit "<li>"
              ++ (a ++ lit "</li>" ++ nl :: nl :: x ++ nl :: nl
                    :: lit "<li>" ++ b)
              ++ lit "</li>" ++ [])
        by (unfold wrap; finish)
  end.
  rewrite (replace_once_greedy 60%N 60%N (lit "li>") (lit "/li>")
             (lit "<ul>") (lit "</ul>") [] _ [] eq_refl eq_refl eq_refl).
  repeat first [ progress cbn [app] | progress rewrite <- app_assoc ].
  rewrite ?app_nil_r.
  rewrite <- (app_nil_r (lit "</li></ul>")).
  repeat pass.
  legacy_table_step. finish.
Qed.

(** ** What the renderer makes of markdown in plain text *)

(** X8.  Inside a line of plain text, a run of plain text between two
    pairs of asterisks becomes a [strong] element, between two asterisks
    or two underscores an [em] element, and between two backticks a [code]
    element; the text before and behind stays as it is.  An underscore
    inside a word counts like any other: of [snake_case_name] the part
    between the underscores is set in italics. *)
Theorem X8_inline_spans (a t b : str) :
  plain a -> starts_solid a = true -> plain t -> t <> [] ->
  plain b -> b <> [] ->
  render (a ++ lit "**" ++ t ++ lit "**" ++ b)
  = Normal (lit "<p>" ++ a ++ lit "<strong>" ++ t ++ lit "</strong>"
            ++ b ++ lit "</p>")
  /\ render (a ++ lit "*" ++ t ++ lit "*" ++ b)
     = Normal (lit "<p>" ++ a ++ lit "<em>" ++ t ++ lit "</em>"
               ++ b ++ lit "</p>")
  /\ render (a ++ lit "_" ++ t ++ lit "_" ++ b)
     = Normal (lit "<p>" ++ a ++ lit "<em>" ++ t ++ lit "</em>"
               ++ b ++ lit "</p>")
  /\ render (a ++ lit "`" ++ t ++ lit "`" ++ b)
     = Normal (lit "<p>" ++ a ++ lit "<code>" ++ t ++ lit "</code>"
               ++ b ++ lit "</p>").
Proof.
  intros Ha Hsa Ht Hnt Hb Hnb. split; [|split; [|split]].
  - now apply render_bold.
  - now apply render_italic_star.
  - now apply render_italic_underscore.
  - now apply render_inline_code.
Qed.

Lemma X8_witness :
  render (lit "snake_case_name")
  = Normal (lit "<p>snake<em>case</em>name</p>").
Proof.
  refine (proj1 (proj2 (proj2
            (X8_inline_spans (lit "snake") (lit "case") (lit "name")
               eq_refl eq_refl eq_refl _ eq_refl _)))); discriminate.
Defined.

(** X9.  Code is not kept apart from the other rules: the rules for bold
    and italic text run behind the rules for code and work inside the
    [code] element as anywhere else. *)
Theorem X9_markup_inside_code (t : str) :
  plain t -> t <> [] ->
  render (lit "`**" ++ t ++ lit "**`")
  = Normal (lit "<p><code><strong>" ++ t ++ lit "</strong></code></p>")
  /\ render (lit "```*" ++ t ++ lit "*```")
     = Normal (lit "<pre><code><em>" ++ t ++ lit "</em></code></pre>").
Proof.
  intros Ht Hnt. split.
  - now apply render_bold_in_code.
  - now apply render_italic_in_code_block.
Qed.

Lemma X9_witness :
  render (lit "```*args*```")
  = Normal (lit "<pre><code><em>args</em></code></pre>").
Proof.
  refine (proj2 (X9_markup_inside_code (lit "args") eq_refl _)).
  discriminate.
Defined.

(** X10.  Two numbered items on two lines become one [ol] element and two
    items with a hyphen one [ul] element, outside any paragraph; the items
    are [li] elements with a space where the class was, and the line feed
    between them becomes a line break inside the list.  The numbers of the
    items are dropped, whatever they are. *)
Theorem X10_list_items_are_wrapped_together (d1 d2 a b : str) :
  forallb is_digit d1 = true -> d1 <> [] ->
  forallb is_digit d2 = true -> d2 <> [] ->
  plain a -> a <> [] -> plain b -> b <> [] ->
  render (d1 ++ lit ". " ++ a ++ nl :: d2 ++ lit ". " ++ b)
  = Normal (lit "<ol><li >" ++ a ++ lit "</li><br><li >" ++ b
            ++ lit "</li></ol>")
  /\ render (lit "- " ++ a ++ nl :: lit "- " ++ b)
     = Normal (lit "<ul><li >" ++ a ++ lit "</li><br><li >" ++ b
               ++ lit "</li></ul>").
Proof.
  intros Hd1 Hn1 Hd2 Hn2 Ha Hna Hb Hnb. split.
  - now apply render_numbered_items.
  - now apply render_two_bulleted.
Qed.

Lemma X10_witness :
  render (js "7. Sleep\n12. Walk")
  = Normal (lit "<ol><li >Sleep</li><br><li >Walk</li></ol>").
Proof.
  refine (proj1 (X10_list_items_are_wrapped_together
                   (lit "7") (lit "12") (lit "Sleep") (lit "Walk")
                   eq_refl _ eq_refl _ eq_refl _ eq_refl _)); discriminate.
Defined.

(** X11.  Two items that are marked with asterisks do not become a list:
    the rule for italic text runs first and takes the text between the two
    asterisks, line feed included. *)
Theorem X11_star_items_become_italic (a b : str) :
  plain a -> a <> [] -> plain b -> b <> [] ->
  render (lit "* " ++ a ++ nl :: lit "* " ++ b)
  = Normal (lit "<p><em> " ++ a ++ lit "<br></em> " ++ b ++ lit "</p>").
Proof. apply render_star_items. Qed.

Lemma X11_witness :
  render (js "* Sleep\n* Walk")
  = Normal (lit "<p><em> Sleep<br></em> Walk</p>").
Proof.
  refine (X11_star_items_become_italic (lit "Sleep") (lit "Walk")
            eq_refl _ eq_refl _); discriminate.
Defined.

(** X12.  Between two runs of plain text, one line feed becomes a line
    break, and two or more line feeds, however many, become one paragraph
    boundary.  Line ends of carriage return and line feed make no
    paragraph boundary: each of the two becomes a line break, and the
    carriage returns stay in the text. *)
Theorem X12_line_and_paragraph_breaks (n : nat) (a b : str) :
  plain a -> starts_solid a = true -> plain b -> starts_solid b = true ->
  render (a ++ nl :: b)
  = Normal (lit "<p>" ++ a ++ lit "<br>" ++ b ++ lit "</p>")
  /\ render (a ++ nl :: nl :: repeat nl n ++ b)
     = Normal (lit "<p>" ++ a ++ lit "</p><p>" ++ b ++ lit "</p>")
  /\ render (a ++ cr :: nl :: cr :: nl :: b)
     = Normal (lit "<p>" ++ a ++ cr :: lit "<br>" ++ cr :: lit "<br>" ++ b
               ++ lit "</p>").
Proof.
  intros Ha Hsa Hb Hsb.
  pose proof (starts_solid_nonempty b Hsb) as Hnb.
  split; [|split].
  - now apply render_line_break.
  - now apply render_blank_lines.
  - now apply render_crlf.
Qed.

Lemma X12_witness :
  render (js "One\n\n\n\nTwo") = Normal (lit "<p>One</p><p>Two</p>").
Proof.
  exact (proj1 (proj2
           (X12_line_and_paragraph_breaks 2 (lit "One") (lit "Two")
              eq_refl eq_refl eq_refl eq_refl))).
Defined.

(** ** What the renderer of [script.js] makes of plain text *)

(** X15.  The renderer of [script.js] opens no paragraph at the start and
    closes none at the end: plain text comes back as it is, and two
    paragraphs come back with a closing and an opening tag between them
    only. *)
Theorem X15_legacy_paragraphs_are_not_wrapped (a b : str) :
  plain a -> a <> [] -> plain b -> b <> [] ->
  Legacy.parseMarkdown a = a
  /\ Legacy.parseMarkdown (a ++ nl :: nl :: b) = a ++ lit "</p><p>" ++ b.
Proof.
  intros Ha Hna Hb Hnb. split.
  - now apply legacy_plain.
  - now apply legacy_paragraphs.
Qed.

Lemma X15_witness :
  Legacy.parseMarkdown (js "One\n\nTwo") = lit "One</p><p>Two".
Proof.
  refine (proj2 (X15_legacy_paragraphs_are_not_wrapped
                   (lit "One") (lit "Two") eq_refl _ eq_refl _));
    discriminate.
Defined.

(** X16.  In [script.js] the one [ul] element reaches from the first item
    with a hyphen to the last one and takes in what stands between them,
    paragraph boundaries included; numbered items are made into [li]
    elements behind that step and get no list element around them. *)
Theorem X16_legacy_lists (d1 d2 a x b : str) :
  forallb is_digit d1 = true -> d1 <> [] ->
  forallb is_digit d2 = true -> d2 <> [] ->
  plain a -> a <> [] -> plain x -> x <> [] -> plain b -> b <> [] ->
  Legacy.parseMarkdown (lit "- " ++ a ++ nl :: lit "- " ++ b)
  = lit "<ul><li>" ++ a ++ lit "</li><br><li>" ++ b ++ lit "</li></ul>"
  /\ Legacy.parseMarkdown
       (lit "- " ++ a ++ nl :: nl :: x ++ nl :: nl :: lit "- " ++ b)
     = lit "<ul><li>" ++ a ++ lit "</li></p><p>" ++ x
       ++ lit "</p><p><li>" ++ b ++ lit "</li></ul>"
  /\ Legacy.parseMarkdown (d1 ++ lit ". " ++ a ++ nl :: d2 ++ lit ". " ++ b)
     = lit "<li>" ++ a ++ lit "</li><br><li>" ++ b ++ lit "</li>".
Proof.
  intros Hd1 Hn1 Hd2 Hn2 Ha Hna Hx Hnx Hb Hnb. split; [|split].
  - now apply legacy_bullets.
  - now apply legacy_list_swallows.
  - now apply legacy_numbered.
Qed.

Lemma X16_witness :
  Legacy.parseMarkdown (js "1. Sleep\n2. Walk")
  = lit "<li>Sleep</li><br><li>Walk</li>".
Proof.
  refine (proj2 (proj2
            (X16_legacy_lists (lit "1") (lit "2") (lit "Sleep") (lit "x")
               (lit "Walk")
               eq_refl _ eq_refl _ eq_refl _ eq_refl _ eq_refl _)));
    discriminate.
Defined.

(** ** The chat: session id and webhook *)

Lemma str_eqb_eq (a b : str) : str_eqb a b = true <-> a = b.
Proof.
  revert b. induction a as [|x a IH]; intros [|y b]; cbn [str_eqb];
    try (split; [discriminate|discriminate]); [tauto|].
  rewrite andb_true_iff, char_eqb_eq, IH.
  split; [intros [-> ->]; reflexivity|intros H; injection H; auto].
Qed.

Lemma str_eqb_refl (a : str) : str_eqb a a = true.
Proof. now apply str_eqb_eq. Qed.

Lemma str_eqb_neq (a b : str) : a <> b -> str_eqb a b = false.
Proof.
  intros H. destruct (str_eqb a b) eqn:E; [|reflexivity].
  apply str_eqb_eq in E. contradiction.
Qed.

Lemma find_put_same (key value : str) (l : list (str * str)) :
  find_item key (put_item key value l) = Some value.
Proof.
  induction l as [|[k v] l IH]; cbn [put_item find_item].
  - now rewrite str_eqb_refl.
  - destruct (str_eqb k key) eqn:E; cbn [find_item]; rewrite E;
      [reflexivity|exact IH].
Qed.

Lemma find_put_other (key other value : str) (l : list (str * str)) :
  other <> key ->
  find_item other (put_item key value l) = find_item other l.
Proof.
  intros Hne. induction l as [|[k v] l IH]; cbn [put_item find_item].
  - rewrite str_eqb_neq; [reflexivity|congruence].
  - destruct (str_eqb k key) eqn:E; cbn [find_item].
    + apply str_eqb_eq in E. subst k.
      rewrite str_eqb_neq; [reflexivity|congruence].
    + now rewrite IH.
Qed.

Lemma getItem_setItem (key value : str) (st st' : storage) :
  setItem key value st = Normal st' ->
  available st = true
  /\ getItem key st' = Normal (Some value)
  /\ forall other, other <> key -> getItem other st' = getItem other st.
Proof.
  unfold setItem. destruct (available st) eqn:Ea; [|discriminate].
  destruct (writable st); [|discriminate].
  intros H. injection H as <-. unfold getItem. cbn [items available].
  rewrite Ea. split; [reflexivity|].
  split; [now rewrite find_put_same|]. intros other Hne.
  now rewrite find_put_other.
Qed.

Lemma getItem_available (key : str) (st : storage) (v : option str) :
  getItem key st = Normal v -> available st = true.
Proof. unfold getItem. now destruct (available st). Qed.

Lemma session_found (h : host) (st : storage) (c : char) (id : str) :
  getItem SESSION_KEY st = Normal (Some (c :: id)) ->
  getOrCreateSessionId h st = Normal (c :: id, st).
Proof.
  intros H. unfold getOrCreateSessionId. rewrite H. reflexivity.
Qed.

Lemma session_missing (h : host) (st : storage) :
  getItem SESSION_KEY st = Normal None
  \/ getItem SESSION_KEY st = Normal (Some []) ->
  getOrCreateSessionId h st
  = (let sessionId :=
       lit "session_" ++ show_number (date_now h) ++ lit "_"
       ++ substr 2 9 (random36 h) in
     st' <- setItem SESSION_KEY sessionId st ;;
     Normal (sessionId, st')).
Proof.
  intros Hg. unfold getOrCreateSessionId.
  destruct Hg as [-> | ->]; reflexivity.
Qed.

Lemma session_made (h : host) (st st' : storage) (id : str) :
  getItem SESSION_KEY st = Normal None
  \/ getItem SESSION_KEY st = Normal (Some []) ->
  getOrCreateSessionId h st = Normal (id, st') ->
  id = lit "session_" ++ show_number (date_now h) ++ lit "_"
       ++ substr 2 9 (random36 h)
  /\ setItem SESSION_KEY id st = Normal st'.
Proof.
  intros Hg. rewrite (session_missing h st Hg). cbv zeta.
  destruct (setItem SESSION_KEY _ st) as [st1|] eqn:Es; [|discriminate].
  cbn [bind]. intros H. injection H as <- <-. now split.
Qed.

Lemma session_cases (st : storage) :
  getItem SESSION_KEY st = Throw
  \/ (exists c old, getItem SESSION_KEY st = Normal (Some (c :: old)))
  \/ (getItem SESSION_KEY st = Normal None
      \/ getItem SESSION_KEY st = Normal (Some [])).
Proof.
  destruct (getItem SESSION_KEY st) as [[[|c old]|]|]; eauto 6.
Qed.

(** X17.  When [getOrCreateSessionId] returns, the id is not empty and
    the storage holds it under the session key; every later call returns
    the same id and leaves the storage as it is, whatever the clock and
    the random numbers are then; the other keys of the storage are never
    touched; and an id that is made anew starts with [session_]. *)
Theorem X17_session_id_is_kept (h : host) (st st' : storage) (id : str) :
  getOrCreateSessionId h st = Normal (id, st') ->
  id <> []
  /\ getItem SESSION_KEY st' = Normal (Some id)
  /\ (forall h', getOrCreateSessionId h' st' = Normal (id, st'))
  /\ (forall key, key <> SESSION_KEY -> getItem key st' = getItem key st)
  /\ (getItem SESSION_KEY st = Normal (Some id)
      \/ starts_with (lit "session_") id = true).
Proof.
  intros H.
  destruct (session_cases st) as [Hg|[[c [old Hg]]|Hg]].
  - unfold getOrCreateSessionId in H. rewrite Hg in H. discriminate.
  - rewrite (session_found h st c old Hg) in H. injection H as <- <-.
    split; [discriminate|]. split; [exact Hg|]. split; [|split].
    + intros h'. now apply session_found.
    + reflexivity.
    + now left.
  - destruct (session_made h st st' id Hg H) as [Hid Hset].
    destruct (getItem_setItem _ _ _ _ Hset) as [_ [Hget Hother]].
    assert (Hne : exists c rest, id = c :: rest).
    { rewrite Hid. eexists. eexists. reflexivity. }
    destruct Hne as [c [rest Hc]].
    split; [rewrite Hc; discriminate|]. split; [exact Hget|].
    split; [|split].
    + intros h'. rewrite Hc in Hget |- *. now apply session_found.
    + exact Hother.
    + right. rewrite Hid. reflexivity.
Qed.

Lemma X17_witness :
  getItem SESSION_KEY
    {| available := true;
       items := [(SESSION_KEY, lit "session_1_abc")];
       writable := false |}
  = Normal (Some (lit "session_1_abc")).
Proof.
  exact (proj1 (proj2 (X17_session_id_is_kept (example_host Throw)
           {| available := true;
              items := [(SESSION_KEY, lit "session_1_abc")];
              writable := false |}
           _ _ eq_refl))).
Defined.

Lemma message_to_send_short (userMessage : str) :
  length userMessage <= 2000 -> message_to_send userMessage = userMessage.
Proof.
  intros H. unfold message_to_send, MAX_MESSAGE_LENGTH.
  apply Nat.ltb_ge in H. now rewrite H.
Qed.

(** X18.  The message that is posted never has more than 2003 code units
    and starts like the message of the user; a message of up to 2000 code
    units is posted as it is, a longer one is cut to its first 2000 code
    units and gets three dots, so that a message of 2001 or 2002 code
    units grows by the cut. *)
Theorem X18_posted_message_is_bounded (userMessage : str) :
  length (message_to_send userMessage) <= 2003
  /\ firstn 2000 (message_to_send userMessage) = firstn 2000 userMessage
  /\ (length userMessage <= 2000 -> message_to_send userMessage = userMessage)
  /\ (2000 < length userMessage ->
      message_to_send userMessage = firstn 2000 userMessage ++ lit "..."
      /\ length (message_to_send userMessage) = 2003).
Proof.
  unfold message_to_send, MAX_MESSAGE_LENGTH.
  destruct (2000 <? length userMessage) eqn:E.
  - apply Nat.ltb_lt in E.
    assert (Hl : length (firstn 2000 userMessage) = 2000).
    { rewrite length_firstn. lia. }
    assert (Hlen : length (firstn 2000 userMessage ++ lit "...") = 2003).
    { rewrite length_app, Hl. reflexivity. }
    split; [rewrite Hlen; lia|]. split; [|split].
    + rewrite firstn_app, Hl, Nat.sub_diag, firstn_O, app_nil_r.
      rewrite firstn_firstn. f_equal.
    + lia.
    + intros _. now split.
  - apply Nat.ltb_ge in E. split; [lia|]. split; [reflexivity|].
    split; [reflexivity|lia].
Qed.

Lemma X18_witness :
  message_to_send (repeat 97%N 2001) = repeat 97%N 2000 ++ lit "..."
  /\ length (message_to_send (repeat 97%N 2001)) = 2003.
Proof.
  exact (proj2 (proj2 (proj2
           (X18_posted_message_is_bounded (repeat 97%N 2001))))
           (proj1 (Nat.ltb_lt 2000 (length (repeat 97%N 2001))) eq_refl)).
Defined.

(** *** The request *)

(** [sendMessageToAI] behind the making of the session id. *)
Lemma sendMessageToAI_eq (h : host) (st st' : storage) (m id : str) :
  getOrCreateSessionId h st = Normal (id, st') ->
  sendMessageToAI h st m
  = Normal
      (match
         match fetch h WEBHOOK_URL
                 (JSON_stringify h (payload_of h (message_to_send m) id) 0)
         with
         | Normal r => reply_of_response h r
         | Throw => Throw
         end
       with
       | Normal reply => reply
       | Throw => TROUBLE
       end, st').
Proof.
  intros H. unfold sendMessageToAI. rewrite H. cbn [bind]. cbv zeta.
  destruct (fetch h WEBHOOK_URL _) as [r|]; cbn [bind try_catch].
  - destruct (reply_of_response h r); reflexivity.
  - reflexivity.
Qed.

Lemma session_throws (h : host) (st : storage) :
  getOrCreateSessionId h st = Throw
  <-> (available st = false
       \/ (writable st = false
           /\ (getItem SESSION_KEY st = Normal None
               \/ getItem SESSION_KEY st = Normal (Some [])))).
Proof.
  unfold getOrCreateSessionId, setItem, getItem.
  destruct (available st); cbn [bind].
  - destruct (find_item SESSION_KEY (items st)) as [[|c old]|];
      destruct (writable st); cbn [bind]; split;
      try discriminate; try tauto;
      try (intros [H|[H1 [H2|H2]]]; discriminate);
      try (intros _; right; split; [reflexivity|tauto]).
  - split; [now left|reflexivity].
Qed.

(** X19.  The promise of [sendMessageToAI] is rejected in two cases only,
    both in front of the [try] block, where the session id is made: the
    page may not use the session storage, so that reading it throws, or
    the storage has no id, or an empty one, and refuses the write of a new
    one.  In every other case the promise resolves to a reply, whatever
    the network and the engine do. *)
Theorem X19_send_rejects_only_for_storage (h : host) (st : storage)
    (userMessage : str) :
  (sendMessageToAI h st userMessage = Throw
   <-> (available st = false
        \/ (writable st = false
            /\ (getItem SESSION_KEY st = Normal None
                \/ getItem SESSION_KEY st = Normal (Some [])))))
  /\ (available st = true -> writable st = true ->
      exists reply st', sendMessageToAI h st userMessage = Normal (reply, st'))
  /\ (forall c id,
        getItem SESSION_KEY st = Normal (Some (c :: id)) ->
        exists reply, sendMessageToAI h st userMessage = Normal (reply, st)).
Proof.
  assert (Hres : forall id st',
    getOrCreateSessionId h st = Normal (id, st') ->
    exists reply, sendMessageToAI h st userMessage = Normal (reply, st')).
  { intros id st' H. rewrite (sendMessageToAI_eq h st st' userMessage id H).
    eexists. reflexivity. }
  split; [|split].
  - rewrite <- (session_throws h st). split.
    + intros H. destruct (getOrCreateSessionId h st) as [[id st']|] eqn:E;
        [|reflexivity].
      destruct (Hres id st' eq_refl) as [reply Hr]. congruence.
    + intros H. unfold sendMessageToAI. now rewrite H.
  - intros Ha Hw.
    destruct (getOrCreateSessionId h st) as [[id st']|] eqn:E.
    + destruct (Hres id st' eq_refl) as [reply Hr]. now exists reply, st'.
    + apply session_throws in E. destruct E as [E|[E _]]; congruence.
  - intros c id Hg. apply (Hres (c :: id)). now apply session_found.
Qed.

Lemma X19_witness :
  exists reply st',
    sendMessageToAI (example_host Throw) empty_storage (lit "hello")
    = Normal (reply, st').
Proof.
  exact (proj1 (proj2 (X19_send_rejects_only_for_storage
                         (example_host Throw) empty_storage (lit "hello")))
           eq_refl eq_refl).
Defined.

(** X20.  With a session id at hand, a request that fails gives one of
    two fixed replies: the text about connection trouble when the request
    or the reading of the body is rejected, and for a response that is not
    ok the text about too detailed a message exactly when the body of the
    response contains [Request too large] or [token], the text about
    connection trouble otherwise; the status of the response plays no
    part. *)
Theorem X20_failed_request_replies (h : host) (st st' : storage)
    (userMessage id : str) :
  getOrCreateSessionId h st = Normal (id, st') ->
  let body :=
    JSON_stringify h (payload_of h (message_to_send userMessage) id) 0 in
  (fetch h WEBHOOK_URL body = Throw ->
   sendMessageToAI h st userMessage = Normal (TROUBLE, st'))
  /\ (forall r,
        fetch h WEBHOOK_URL body = Normal r -> text r = Throw ->
        sendMessageToAI h st userMessage = Normal (TROUBLE, st'))
  /\ (forall r errorText,
        fetch h WEBHOOK_URL body = Normal r -> ok r = false ->
        text r = Normal errorText ->
        sendMessageToAI h st userMessage
        = Normal
            (if includes_text (lit "Request too large") errorText
                || includes_text (lit "token") errorText
             then TOO_DETAILED else TROUBLE, st')).
Proof.
  intros H body. rewrite (sendMessageToAI_eq h st st' userMessage id H).
  fold body. split; [|split].
  - intros ->. reflexivity.
  - intros r -> Ht. unfold reply_of_response. rewrite Ht.
    now destruct (ok r).
  - intros r e -> Hok Ht. unfold reply_of_response. rewrite Hok, Ht.
    cbn [bind]. now destruct (_ || _).
Qed.

Lemma X20_witness :
  sendMessageToAI
    (example_host
       (Normal {| ok := false; status := 401%N;
                  statusText := lit "Unauthorized";
                  text := Normal (lit "Invalid access token") |}))
    empty_storage (lit "hello")
  = Normal (TOO_DETAILED,
            {| available := true;
               items := [(SESSION_KEY, lit "session_1704067200000_k3j9x0a1b")];
               writable := true |}).
Proof.
  exact (proj2 (proj2
           (X20_failed_request_replies
              (example_host
                 (Normal {| ok := false; status := 401%N;
                            statusText := lit "Unauthorized";
                            text := Normal (lit "Invalid access token") |}))
              empty_storage _ (lit "hello") _ eq_refl))
           _ _ eq_refl eq_refl eq_refl).
Defined.

(** *** The reply of an ok response *)

Lemma or_else_truthy (a b : option json) :
  truthy a = true -> or_else a b = a.
Proof. intros H. unfold or_else. now rewrite H. Qed.

Lemma or_else_falsy (a b : option json) :
  truthy a = false -> or_else a b = b.
Proof. intros H. unfold or_else. now rewrite H. Qed.

(** The reply that is read from a value that is not [null]. *)
Lemma reply_of_value (h : host) (responseText : str) (data : json) :
  JSON_parse h responseText = Normal data -> data <> JNull ->
  reply_of_text h responseText
  = Normal
      (match first_truthy data reply_names with
       | Some v => as_text h (Some v)
       | None =>
           match data with
           | JString s => s
           | _ => JSON_stringify h data 2
           end
       end).
Proof.
  intros Hp Hn. unfold reply_of_text. rewrite Hp. cbn [bind].
  destruct data as [|b|n|s|items|fields]; try reflexivity; [congruence|].
  cbn [Object_keys get bind]. cbv zeta.
  unfold reply_names. cbn [first_truthy field].
  generalize (own_property (lit "response") fields),
    (own_property (lit "message") fields),
    (own_property (lit "output") fields),
    (own_property (lit "text") fields),
    (own_property (lit "reply") fields),
    (own_property (lit "answer") fields),
    (own_property (lit "ai_response") fields),
    (own_property (lit "result") fields),
    (own_property (lit "data") fields).
  intros f1 f2 f3 f4 f5 f6 f7 f8 f9.
  assert (Hfound : forall f : option json,
    truthy f = true ->
    Normal (as_text h f)
    = Normal match f with
             | Some v => as_text h (Some v)
             | None => JSON_stringify h (JObject fields) 2
             end).
  { intros [v|] Hf; [reflexivity|discriminate Hf]. }
  destruct (truthy f1) eqn:E1;
    [rewrite !(or_else_truthy f1) by exact E1; rewrite E1; now apply Hfound|].
  rewrite (or_else_falsy f1 f2 E1).
  destruct (truthy f2) eqn:E2;
    [rewrite !(or_else_truthy f2) by exact E2; rewrite E2; now apply Hfound|].
  rewrite (or_else_falsy f2 f3 E2).
  destruct (truthy f3) eqn:E3;
    [rewrite !(or_else_truthy f3) by exact E3; rewrite E3; now apply Hfound|].
  rewrite (or_else_falsy f3 f4 E3).
  destruct (truthy f4) eqn:E4;
    [rewrite !(or_else_truthy f4) by exact E4; rewrite E4; now apply Hfound|].
  rewrite (or_else_falsy f4 f5 E4).
  destruct (truthy f5) eqn:E5;
    [rewrite !(or_else_truthy f5) by exact E5; rewrite E5; now apply Hfound|].
  rewrite (or_else_falsy f5 f6 E5).
  destruct (truthy f6) eqn:E6;
    [rewrite !(or_else_truthy f6) by exact E6; rewrite E6; now apply Hfound|].
  rewrite (or_else_falsy f6 f7 E6).
  destruct (truthy f7) eqn:E7;
    [rewrite !(or_else_truthy f7) by exact E7; rewrite E7; now apply Hfound|].
  rewrite (or_else_falsy f7 f8 E7).
  destruct (truthy f8) eqn:E8;
    [rewrite !(or_else_truthy f8) by exact E8; rewrite E8; now apply Hfound|].
  rewrite (or_else_falsy f8 f9 E8).
  destruct (truthy f9) eqn:E9; [now apply Hfound|].
  reflexivity.
Qed.

(** X21.  For an ok response whose body is read as a JSON value other
    than [null], the reply is the first truthy one of the properties
    [response], [message], [output], [text], [reply], [answer],
    [ai_response], [result] and [data] of the value, as it is when it is a
    string and written as JSON otherwise; without such a property the
    reply is the value itself when it is a string, and the value written
    as JSON with an indent of two otherwise.  The look into the properties
    of [data.data] makes no difference: it is reached only when
    [data.data] is falsy. *)
Theorem X21_reply_is_first_truthy_property (h : host) (r : response)
    (responseText : str) (data : json) :
  ok r = true -> text r = Normal responseText ->
  JSON_parse h responseText = Normal data -> data <> JNull ->
  reply_of_response h r
  = Normal
      (match first_truthy data reply_names with
       | Some v => as_text h (Some v)
       | None =>
           match data with
           | JString s => s
           | _ => JSON_stringify h data 2
           end
       end).
Proof.
  intros Hok Ht Hp Hn. unfold reply_of_response. rewrite Hok, Ht.
  cbn [bind]. now rewrite (reply_of_value h responseText data Hp Hn).
Qed.

Lemma X21_witness :
  reply_of_response
    (reading_host
       (Normal (JObject [(lit "data",
                          JObject [(lit "response", JString (lit "hi"))])]))
       (lit "{...}") Throw)
    {| ok := true; status := 200%N; statusText := lit "OK";
       text := Normal (lit "body") |}
  = Normal (lit "{...}").
Proof.
  refine (X21_reply_is_first_truthy_property
            (reading_host
               (Normal (JObject [(lit "data",
                           JObject [(lit "response", JString (lit "hi"))])]))
               (lit "{...}") Throw)
            {| ok := true; status := 200%N; statusText := lit "OK";
               text := Normal (lit "body") |}
            (lit "body") _ eq_refl eq_refl eq_refl _).
  discriminate.
Defined.

(** X22.  For an ok response whose body the engine cannot read as JSON,
    or reads as [null], the reply is the body as it came: the failure of
    [JSON.parse] and the error that [Object.keys] throws on [null] are
    both caught by the inner handler. *)
Theorem X22_unreadable_body_is_the_reply (h : host) (r : response)
    (responseText : str) :
  ok r = true -> text r = Normal responseText ->
  JSON_parse h responseText = Throw
  \/ JSON_parse h responseText = Normal JNull ->
  reply_of_response h r = Normal responseText.
Proof.
  intros Hok Ht Hp. unfold reply_of_response. rewrite Hok, Ht.
  cbn [bind]. unfold reply_of_text.
  destruct Hp as [-> | ->]; reflexivity.
Qed.

Lemma X22_witness :
  reply_of_response (reading_host (Normal JNull) (lit "null") Throw)
    {| ok := true; status := 200%N; statusText := lit "OK";
       text := Normal (lit " null ") |}
  = Normal (lit " null ").
Proof.
  exact (X22_unreadable_body_is_the_reply
           (reading_host (Normal JNull) (lit "null") Throw)
           {| ok := true; status := 200%N; statusText := lit "OK";
              text := Normal (lit " null ") |}
           (lit " null ") eq_refl eq_refl (or_intror eq_refl)).
Defined.

(** X23.  The two versions of [sendMessageToAI] give the same reply and
    leave the same storage for a message of up to 2000 code units, unless
    a response that is not ok has a body with [Request too large] or
    [token] in it: the version of [script.js] lacks the cut of the message
    and the reply about too detailed a message, nothing else. *)
Theorem X23_versions_agree (h : host) (st : storage) (userMessage : str) :
  length userMessage <= 2000 ->
  (forall body r errorText,
     fetch h WEBHOOK_URL body = Normal r -> ok r = false ->
     text r = Normal errorText ->
     includes_text (lit "Request too large") errorText
     || includes_text (lit "token") errorText = false) ->
  Legacy.sendMessageToAI h st userMessage = sendMessageToAI h st userMessage.
Proof.
  intros Hlen Herr. unfold Legacy.sendMessageToAI, sendMessageToAI.
  rewrite (message_to_send_short userMessage Hlen).
  destruct (getOrCreateSessionId h st) as [[id st']|]; [|reflexivity].
  cbn [bind]. cbv zeta.
  destruct (fetch h WEBHOOK_URL _) as [r|] eqn:Ef; [|reflexivity].
  cbn [bind]. unfold Legacy.reply_of_response, reply_of_response.
  destruct (ok r) eqn:Hok; [reflexivity|].
  destruct (text r) as [e|] eqn:Ht; [|reflexivity].
  cbn [bind]. now rewrite (Herr _ r e Ef Hok Ht).
Qed.

Lemma X23_witness :
  Legacy.sendMessageToAI
    (reading_host Throw []
       (Normal {| ok := true; status := 200%N; statusText := lit "OK";
                  text := Normal (lit "Take a deep breath.") |}))
    empty_storage (lit "hello")
  = sendMessageToAI
      (reading_host Throw []
         (Normal {| ok := true; status := 200%N; statusText := lit "OK";
                    text := Normal (lit "Take a deep breath.") |}))
      empty_storage (lit "hello").
Proof.
  apply (X23_versions_agree
           (reading_host Throw []
              (Normal {| ok := true; status := 200%N; statusText := lit "OK";
                         text := Normal (lit "Take a deep breath.") |}))
           empty_storage (lit "hello")).
  - cbn [length lit]. vm_compute. repeat constructor.
  - intros body r errorText Hf Hok. cbn [fetch reading_host] in Hf.
    injection Hf as <-. discriminate Hok.
Defined.

(** ** The chat window *)

Lemma drop_while_blank (s : str) :
  forallb is_space s = true -> drop_while is_space s = [].
Proof.
  induction s as [|c t IH]; intros H; [reflexivity|].
  cbn [forallb] in H. apply andb_true_iff in H. destruct H as [Hc Ht].
  cbn [drop_while]. rewrite Hc. now apply IH.
Qed.

Lemma trim_blank (s : str) : forallb is_space s = true -> trim s = [].
Proof. intros H. unfold trim. now rewrite (drop_while_blank s H). Qed.

(** A message of the user in the chat window. *)
Lemma addChatMessage_user (message : str) (pg : page)
    (children : list node) :
  message <> [] -> chatWindow pg = Some children ->
  addChatMessage message (lit "user") pg
  = ({| chatWindow := Some (children ++ [user_bubble message]);
        chatInput := chatInput pg;
        sendMessageBtn := sendMessageBtn pg;
        typingIndicator := typingIndicator pg;
        sessionStorage := sessionStorage pg |}, Normal tt).
Proof.
  intros Hne Hw. unfold addChatMessage. rewrite Hw.
  destruct message as [|c m]; [congruence|]. reflexivity.
Qed.

(** A reply in the chat window: the renderer never throws. *)
Lemma addChatMessage_ai (message : str) (pg : page) (children : list node) :
  chatWindow pg = Some children ->
  exists html,
    parseMarkdown message = Normal html
    /\ addChatMessage message (lit "ai") pg
       = ({| chatWindow := Some (children ++ [ai_bubble html]);
             chatInput := chatInput pg;
             sendMessageBtn := sendMessageBtn pg;
             typingIndicator := typingIndicator pg;
             sessionStorage := sessionStorage pg |}, Normal tt).
Proof.
  intros Hw. pose proof (render_eq message) as Hr. unfold render in Hr.
  eexists. split; [exact Hr|].
  unfold addChatMessage. rewrite Hw, Hr. reflexivity.
Qed.

(** X24.  [handleSendMessage] ignores an input that is empty or white
    space only: nothing on the page changes, the session storage is not
    touched, and the result does not depend on the host, so no request is
    made. *)
Theorem X24_blank_input_is_ignored (h : host) (pg : page)
    (inp : input_element) :
  chatInput pg = Some inp -> forallb is_space (value inp) = true ->
  handleSendMessage h pg = (pg, Normal tt).
Proof.
  intros Hi Hb. unfold handleSendMessage. rewrite Hi.
  cbv zeta. now rewrite (trim_blank (value inp) Hb).
Qed.

Lemma X24_witness :
  handleSendMessage (example_host Throw) (example_page (js "  \n "))
  = (example_page (js "  \n "), Normal tt).
Proof.
  exact (X24_blank_input_is_ignored (example_host Throw)
           (example_page (js "  \n ")) _ eq_refl eq_refl).
Defined.

(** X25.  On a page with the chat window, the input and the button, a
    message that is not blank is handled to the end whenever
    [sendMessageToAI] gives a reply: the chat window has two more
    children, first the trimmed message of the user as a text node, then
    the markup that the renderer makes of the reply; the input is empty,
    input and button are enabled again, the indicator is hidden, and the
    session storage is the one that [sendMessageToAI] left. *)
Theorem X25_message_is_handled_to_the_end (h : host) (pg : page)
    (inp : input_element) (children : list node) (flag : bool)
    (reply : str) (st' : storage) :
  chatInput pg = Some inp -> chatWindow pg = Some children ->
  sendMessageBtn pg = Some flag -> trim (value inp) <> [] ->
  sendMessageToAI h (sessionStorage pg) (trim (value inp))
  = Normal (reply, st') ->
  exists html,
    parseMarkdown reply = Normal html
    /\ handleSendMessage h pg
       = ({| chatWindow :=
               Some (children
                     ++ [user_bubble (trim (value inp)); ai_bubble html]);
             chatInput := Some {| value := []; disabled := false |};
             sendMessageBtn := Some false;
             typingIndicator :=
               indicator_with (lit "none") (typingIndicator pg);
             sessionStorage := st' |}, Normal tt).
Proof.
  intros Hi Hw Hb Hne Hs.
  set (pg1 := set_storage st'
                (set_indicator (lit "flex")
                   (set_button true
                      (set_input {| value := []; disabled := true |}
                         (set_input {| value := []; disabled := disabled inp |}
                            {| chatWindow :=
                                 Some (children
                                       ++ [user_bubble (trim (value inp))]);
                               chatInput := chatInput pg;
                               sendMessageBtn := sendMessageBtn pg;
                               typingIndicator := typingIndicator pg;
                               sessionStorage := sessionStorage pg |}))))).
  destruct (addChatMessage_ai reply (set_indicator (lit "none") pg1)
              (children ++ [user_bubble (trim (value inp))]) eq_refl)
    as [html [Hh Hai]].
  exists html. split; [exact Hh|].
  unfold handleSendMessage. rewrite Hi, Hb. cbv zeta.
  destruct (trim (value inp)) as [|c m] eqn:Em; [congruence|].
  cbn [is_empty].
  rewrite (addChatMessage_user (c :: m) pg children ltac:(discriminate) Hw).
  cbn [showTypingIndicator hideTypingIndicator fst].
  cbn [set_input set_button set_indicator sessionStorage chatWindow chatInput
         sendMessageBtn typingIndicator].
  rewrite Hs.
  unfold pg1 in Hai.
  cbn [set_storage set_input set_button set_indicator sessionStorage
         chatWindow chatInput sendMessageBtn typingIndicator] in Hai.
  cbn [set_storage set_input set_button set_indicator sessionStorage
         chatWindow chatInput sendMessageBtn typingIndicator].
  rewrite Hai.
  cbn [set_storage set_input set_button set_indicator sessionStorage
         chatWindow chatInput sendMessageBtn typingIndicator].
  rewrite <- app_assoc. cbn [app].
  destruct (typingIndicator pg); reflexivity.
Qed.

Lemma X25_witness :
  exists html,
    parseMarkdown (lit "**Breathe**") = Normal html
    /\ handleSendMessage
         (example_host
            (Normal {| ok := true; status := 200%N; statusText := lit "OK";
                       text := Normal (lit "**Breathe**") |}))
         (example_page (lit " I feel tense "))
       = ({| chatWindow :=
               Some [user_bubble (lit "I feel tense"); ai_bubble html];
             chatInput := Some {| value := []; disabled := false |};
             sendMessageBtn := Some false;
             typingIndicator := Some (lit "none");
             sessionStorage :=
               {| available := true;
                  items :=
                    [(SESSION_KEY, lit "session_1704067200000_k3j9x0a1b")];
                  writable := true |} |}, Normal tt).
Proof.
  refine (X25_message_is_handled_to_the_end
            (example_host
               (Normal {| ok := true; status := 200%N; statusText := lit "OK";
                          text := Normal (lit "**Breathe**") |}))
            (example_page (lit " I feel tense "))
            _ [] false (lit "**Breathe**") _
            eq_refl eq_refl eq_refl _ eq_refl).
  discriminate.
Defined.

(** X26.  What [handleSendMessage] does when an element is missing.
    Without the input it throws at once; with a message that is not blank
    but without the chat window it throws before any change; without the
    button it throws after the message of the user was added and the
    input was emptied and disabled: the input stays disabled, the
    indicator is not shown and no request is made. *)
Theorem X26_missing_elements (h : host) (pg : page) :
  (chatInput pg = None -> handleSendMessage h pg = (pg, Throw))
  /\ (forall inp,
        chatInput pg = Some inp -> trim (value inp) <> [] ->
        chatWindow pg = None -> handleSendMessage h pg = (pg, Throw))
  /\ (forall inp children,
        chatInput pg = Some inp -> trim (value inp) <> [] ->
        chatWindow pg = Some children -> sendMessageBtn pg = None ->
        handleSendMessage h pg
        = ({| chatWindow :=
                Some (children ++ [user_bubble (trim (value inp))]);
              chatInput := Some {| value := []; disabled := true |};
              sendMessageBtn := None;
              typingIndicator := typingIndicator pg;
              sessionStorage := sessionStorage pg |}, Throw)).
Proof.
  split; [|split].
  - intros Hi. unfold handleSendMessage. now rewrite Hi.
  - intros inp Hi Hne Hw. unfold handleSendMessage. rewrite Hi. cbv zeta.
    destruct (trim (value inp)) as [|c m]; [congruence|]. cbn [is_empty].
    unfold addChatMessage. rewrite Hw. reflexivity.
  - intros inp children Hi Hne Hw Hb. unfold handleSendMessage.
    rewrite Hi, Hb. cbv zeta.
    destruct (trim (value inp)) as [|c m]; [congruence|]. cbn [is_empty].
    rewrite (addChatMessage_user (c :: m) pg children ltac:(discriminate) Hw).
    cbn [set_input chatWindow chatInput sendMessageBtn typingIndicator
           sessionStorage].
    now rewrite Hb.
Qed.

Lemma X26_witness :
  handleSendMessage (example_host Throw)
    {| chatWindow := Some [];
       chatInput := Some {| value := lit "hello"; disabled := false |};
       sendMessageBtn := None;
       typingIndicator := Some (lit "none");
       sessionStorage := empty_storage |}
  = ({| chatWindow := Some [user_bubble (lit "hello")];
        chatInput := Some {| value := []; disabled := true |};
        sendMessageBtn := None;
        typingIndicator := Some (lit "none");
        sessionStorage := empty_storage |}, Throw).
Proof.
  refine (proj2 (proj2 (X26_missing_elements (example_host Throw)
            {| chatWindow := Some [];
               chatInput := Some {| value := lit "hello"; disabled := false |};
               sendMessageBtn := None;
               typingIndicator := Some (lit "none");
               sessionStorage := empty_storage |}))
            _ [] eq_refl _ eq_refl eq_refl).
  discriminate.
Defined.

(** X27.  When the session storage holds no id and refuses the write of a
    new one, [handleSendMessage] throws behind the first half of its work:
    the message of the user is in the chat window, the input is empty,
    input and button are disabled and the indicator is shown, and nothing
    enables them again. *)
Theorem X27_storage_refusal_leaves_chat_disabled (h : host) (pg : page)
    (inp : input_element) (children : list node) (flag : bool) :
  chatInput pg = Some inp -> chatWindow pg = Some children ->
  sendMessageBtn pg = Some flag -> trim (value inp) <> [] ->
  writable (sessionStorage pg) = false ->
  getItem SESSION_KEY (sessionStorage pg) = Normal None
  \/ getItem SESSION_KEY (sessionStorage pg) = Normal (Some []) ->
  handleSendMessage h pg
  = ({| chatWindow := Some (children ++ [user_bubble (trim (value inp))]);
        chatInput := Some {| value := []; disabled := true |};
        sendMessageBtn := Some true;
        typingIndicator := indicator_with (lit "flex") (typingIndicator pg);
        sessionStorage := sessionStorage pg |}, Throw).
Proof.
  intros Hi Hw Hb Hne Hwr Hg.
  assert (Hs : forall m, sendMessageToAI h (sessionStorage pg) m = Throw).
  { intros m. unfold sendMessageToAI.
    now rewrite (proj2 (session_throws h (sessionStorage pg))
                   (or_intror (conj Hwr Hg))). }
  unfold handleSendMessage. rewrite Hi, Hb. cbv zeta.
  destruct (trim (value inp)) as [|c m]; [congruence|]. cbn [is_empty].
  rewrite (addChatMessage_user (c :: m) pg children ltac:(discriminate) Hw).
  cbn [showTypingIndicator fst].
  cbn [set_input set_button set_indicator sessionStorage chatWindow chatInput
         sendMessageBtn typingIndicator].
  rewrite Hs. reflexivity.
Qed.

Lemma X27_witness :
  handleSendMessage (example_host Throw)
    {| chatWindow := Some [];
       chatInput := Some {| value := lit "hello"; disabled := false |};
       sendMessageBtn := Some false;
       typingIndicator := Some (lit "none");
       sessionStorage := {| available := true; items := [];
                           writable := false |} |}
  = ({| chatWindow := Some [user_bubble (lit "hello")];
        chatInput := Some {| value := []; disabled := true |};
        sendMessageBtn := Some true;
        typingIndicator := Some (lit "flex");
        sessionStorage := {| available := true; items := [];
                           writable := false |} |}, Throw).
Proof.
  refine (X27_storage_refusal_leaves_chat_disabled (example_host Throw)
            {| chatWindow := Some [];
               chatInput := Some {| value := lit "hello"; disabled := false |};
               sendMessageBtn := Some false;
               typingIndicator := Some (lit "none");
               sessionStorage := {| available := true; items := [];
                           writable := false |} |}
            _ [] false eq_refl eq_refl eq_refl _ eq_refl (or_introl eq_refl)).
  discriminate.
Defined.
